(** * Focus Wizard: the bridge supervisor and the frame exchange channel

    A shallow embedding of [frame-writer.ts] (class [FrameWriter]) and
    [bridge-manager.ts] (class [BridgeManager]) together with the
    properties their specification states about them.

    Conventions of the embedding:
    - a JavaScript string is the list of its UTF-16 code units;
    - a [Buffer] is a list of bytes;
    - a method that mutates [this] becomes a function from the state
      before the call to the state after it; a method that can throw
      returns a [completion];
    - what a method does to the outside (notifications emitted through
      the [EventEmitter], console output, processes spawned, signals
      sent) is appended to a trace of [effect]s;
    - the parts of the Node.js platform the classes call ([fs], [path],
      [os], [child_process], [JSON.parse]) are interfaces: type classes
      or section variables, with executable instances further down. *)

From Stdlib Require Import ZArith NArith QArith Qround Qminmax Qabs List Bool Lia.
From Stdlib Require Import String Ascii.
From Stdlib Require Strings.Byte.
From stdpp Require Import base gmap.
Import ListNotations.

Local Open Scope nat_scope.
Local Open Scope list_scope.
Local Set Warnings "-register-all".

(** ** JavaScript values used by both classes *)

Module JS.

(** A string is its sequence of UTF-16 code units. *)
Definition jsstring : Type := list N.

(** An ASCII literal of the source, as code units. *)
Definition lit (s : string) : jsstring :=
  map N_of_ascii (list_ascii_of_string s).

(** A [Buffer]. *)
Definition Buffer : Type := list Byte.byte.

(** The relational operators on strings compare code unit by code unit;
    a proper prefix is smaller. *)
Fixpoint js_compare (a b : jsstring) : comparison :=
  match a, b with
  | [], [] => Eq
  | [], _ :: _ => Lt
  | _ :: _, [] => Gt
  | x :: a', y :: b' =>
      match N.compare x y with
      | Eq => js_compare a' b'
      | c => c
      end
  end.

Definition js_lt (a b : jsstring) : Prop := js_compare a b = Lt.

Definition js_eqb (a b : jsstring) : bool :=
  match js_compare a b with Eq => true | _ => false end.

(** [x || d] for a string-valued [x]: [undefined] and the empty string
    are falsy. *)
Definition or_default (x : option jsstring) (d : jsstring) : jsstring :=
  match x with
  | Some (c :: s) => c :: s
  | _ => d
  end.

(** *** Numbers

    [Math.floor] on a finite number. *)
Definition Math_floor (x : Q) : Z := Qfloor x.

Definition digit (d : Z) : N := (48 + Z.to_N d)%N.

Fixpoint digits_fuel (fuel : nat) (n : Z) : jsstring :=
  match fuel with
  | O => []
  | S f =>
      if (n <? 10)%Z then [digit n]
      else digits_fuel f (n / 10) ++ [digit (n mod 10)]
  end.

(** The decimal digits of a non-negative integer, most significant
    first. A number below [2 ^ k] has at most [k] digits. *)
Definition digits (n : Z) : jsstring :=
  digits_fuel (S (Z.to_nat (Z.log2 n))) n.

(** [Number.prototype.toString()] on an integer-valued number. The
    decimal expansion below is what the platform prints for every
    integer of magnitude up to [10 ^ 16]; from [10 ^ 21] on it switches
    to exponent notation. *)
Definition Number_toString (n : Z) : jsstring :=
  if (n <? 0)%Z then lit "-" ++ digits (- n) else digits n.

(** *** [String.prototype.padStart] *)

(** The first [n] code units of [cur ++ pad ++ pad ++ ...]. *)
Fixpoint fill (n : nat) (pad cur : jsstring) : jsstring :=
  match n with
  | O => []
  | S n' =>
      match cur with
      | c :: cur' => c :: fill n' pad cur'
      | [] =>
          match pad with
          | c :: pad' => c :: fill n' pad pad'
          | [] => []
          end
      end
  end.

Definition padStart (targetLength : nat) (padString s : jsstring) : jsstring :=
  if targetLength <=? length s then s
  else match padString with
       | [] => s
       | _ => fill (targetLength - length s) padString padString ++ s
       end.

(** *** [String.prototype.split], [Array.prototype.pop], [trim], [slice] *)

Fixpoint split (sep : N) (s : jsstring) : list jsstring :=
  match s with
  | [] => [[]]
  | c :: s' =>
      if (c =? sep)%N then [] :: split sep s'
      else match split sep s' with
           | seg :: segs => (c :: seg) :: segs
           | [] => [[c]]
           end
  end.

(** [a.pop()]: the last element ([undefined] on an empty array) and the
    array it leaves. *)
Fixpoint pop {A} (a : list A) : option A * list A :=
  match a with
  | [] => (None, [])
  | [x] => (Some x, [])
  | x :: a' => let '(l, r) := pop a' in (l, x :: r)
  end.

(** The code units [trim] removes: WhiteSpace and LineTerminator. *)
Definition is_whitespace (c : N) : bool :=
  ((9 <=? c) && (c <=? 13) || (c =? 32) || (c =? 160) || (c =? 5760)
   || (8192 <=? c) && (c <=? 8202) || (c =? 8232) || (c =? 8233)
   || (c =? 8239) || (c =? 8287) || (c =? 12288) || (c =? 65279))%N.

Fixpoint trimStart (s : jsstring) : jsstring :=
  match s with
  | c :: s' => if is_whitespace c then trimStart s' else s
  | [] => []
  end.

Definition trimEnd (s : jsstring) : jsstring := rev (trimStart (rev s)).

Definition trim (s : jsstring) : jsstring := trimEnd (trimStart s).

(** [a.join(sep)] *)
Fixpoint join (sep : jsstring) (a : list jsstring) : jsstring :=
  match a with
  | [] => []
  | [x] => x
  | x :: a' => x ++ sep ++ join sep a'
  end.

(** [s.slice(0, n)]. *)
Definition slice0 (n : nat) (s : jsstring) : jsstring := firstn n s.

Definition newline : N := 10.

(** *** [Buffer.prototype.toString()]

    Without an argument the bytes are decoded as UTF-8; a byte sequence
    that is not well formed decodes to U+FFFD, one per maximal ill-formed
    part, and a sequence cut short by the end of the buffer is ill
    formed. The byte-order mark is kept. *)
Record utf8_state := {
  code_point : N;
  bytes_seen : N;
  bytes_needed : N;
  lower_boundary : N;
  upper_boundary : N
}.

Definition utf8_start : utf8_state :=
  {| code_point := 0; bytes_seen := 0; bytes_needed := 0;
     lower_boundary := 128; upper_boundary := 191 |}.

Definition replacement : N := 65533.

Definition utf8_lead (b : N) : utf8_state * list N :=
  (if b <=? 127 then (utf8_start, [b])
   else if (194 <=? b) && (b <=? 223) then
     ({| code_point := N.land b 31; bytes_seen := 0; bytes_needed := 1;
         lower_boundary := 128; upper_boundary := 191 |}, [])
   else if (224 <=? b) && (b <=? 239) then
     ({| code_point := N.land b 15; bytes_seen := 0; bytes_needed := 2;
         lower_boundary := if b =? 224 then 160 else 128;
         upper_boundary := if b =? 237 then 159 else 191 |}, [])
   else if (240 <=? b) && (b <=? 244) then
     ({| code_point := N.land b 7; bytes_seen := 0; bytes_needed := 3;
         lower_boundary := if b =? 240 then 144 else 128;
         upper_boundary := if b =? 244 then 143 else 191 |}, [])
   else (utf8_start, [replacement]))%N.

Definition utf8_step (st : utf8_state) (b : N) : utf8_state * list N :=
  (if bytes_needed st =? 0 then utf8_lead b
   else if (b <? lower_boundary st) || (upper_boundary st <? b) then
     let '(st', out) := utf8_lead b in (st', replacement :: out)
   else
     let cp := N.lor (N.shiftl (code_point st) 6) (N.land b 63) in
     if bytes_seen st + 1 =? bytes_needed st then (utf8_start, [cp])
     else ({| code_point := cp; bytes_seen := bytes_seen st + 1;
              bytes_needed := bytes_needed st;
              lower_boundary := 128; upper_boundary := 191 |}, []))%N.

(** The code points of a byte sequence. *)
Fixpoint utf8_decode (st : utf8_state) (bytes : list Byte.byte) : list N :=
  match bytes with
  | [] => if (bytes_needed st =? 0)%N then [] else [replacement]
  | b :: bytes' =>
      let '(st', out) := utf8_step st (Byte.to_N b) in
      out ++ utf8_decode st' bytes'
  end.

(** A code point as UTF-16 code units. *)
Definition utf16_units (cp : N) : list N :=
  (if cp <? 65536 then [cp]
   else let c := cp - 65536 in
        [55296 + N.shiftr c 10; 56320 + N.land c 1023])%N.

Definition Buffer_toString (chunk : Buffer) : jsstring :=
  concat (map utf16_units (utf8_decode utf8_start chunk)).

(** *** Completions *)

Inductive completion (A : Type) : Type :=
| Normal (a : A)
| Throw (e : jsstring).
Arguments Normal {A} a.
Arguments Throw {A} e.

(** *** JSON values

    What [JSON.parse] returns. A number is kept as the text that denotes
    it; an object is the list of its members in source order, a later
    member of the same name hiding an earlier one. *)
Inductive json : Type :=
| JNull
| JBool (b : bool)
| JNumber (text : jsstring)
| JString (s : jsstring)
| JArray (elements : list json)
| JObject (members : list (jsstring * json)).

(** A value that may be [undefined]. *)
Definition value : Type := option json.
Definition undefined : value := None.

Fixpoint member (key : jsstring) (members : list (jsstring * json)) : value :=
  match members with
  | [] => undefined
  | (k, v) :: rest =>
      match member key rest with
      | Some v' => Some v'
      | None => if js_eqb k key then Some v else undefined
      end
  end.

(** [v.key] for the property names the bridge manager reads ([type],
    [data], [status], [message]): reading a property of [undefined] or
    [null] throws a TypeError; an object gives its member; no other value
    has a property of one of these names. *)
Definition get (v : value) (key : jsstring) : completion value :=
  match v with
  | None | Some JNull =>
      Throw (lit "TypeError: Cannot read properties of undefined or null")
  | Some (JObject members) => Normal (member key members)
  | Some _ => Normal undefined
  end.

(** [v === "text"]. *)
Definition is_string (v : value) (text : jsstring) : bool :=
  match v with
  | Some (JString s) => js_eqb s text
  | _ => false
  end.

(** Whether [`${v}`] throws a TypeError. The conversion to a string of an
    object calls its [toString]: a member of that name, which in a value
    of [JSON.parse] is never a function, hides the one of
    [Object.prototype], and [valueOf] gives no primitive. An array joins
    the conversions of its elements, [null] counting as the empty
    string. *)
Fixpoint toString_throws (v : json) : bool :=
  match v with
  | JObject members =>
      match member (lit "toString") members with
      | Some _ => true
      | None => false
      end
  | JArray elements => existsb toString_throws elements
  | _ => false
  end.

Definition template_throws (v : value) : bool :=
  match v with
  | Some j => toString_throws j
  | None => false
  end.

End JS.

Import JS.

(** ** The Node.js platform: what a method does to the outside *)

Module Node.

(** A handle on a spawned child process. *)
Definition ChildProcess : Type := nat.

(** What the bridge manager emits through its [EventEmitter]: the event
    name with its argument. *)
Inductive notification : Type :=
| ev_ready
| ev_focus (data : value)
| ev_metrics (data : value)
| ev_edge (data : value)
| ev_status (status : value)
| ev_bridge_error (message : value)
| ev_close (code : option Z)
| ev_error (err : jsstring).

(** The console lines of the two classes, one constructor per call site,
    with the values the line interpolates. *)
Inductive log_entry : Type :=
| log_write_failed (err : jsstring)
| log_docker_build (text : jsstring)
| log_starting_docker (args : list jsstring)
| log_starting_local (bridgePath : jsstring) (args : list jsstring)
| log_stderr (text : jsstring)
| log_exited (code : option Z)
| log_process_error (err : jsstring)
| log_failed_to_parse (trimmed : jsstring)
| log_unknown_type (type : value)
| log_stopping
| log_force_killing.

Inductive effect : Type :=
| Emit (n : notification)
| Console (l : log_entry)
| ExecSync (command : jsstring)
| Spawn (command : jsstring) (args : list jsstring) (child : ChildProcess)
| Kill (child : ChildProcess) (signal : jsstring)
| SetTimeout (ms : Z).

(** The modules [fs], [path] and [os]. An operation of [fs] returns
    normally or throws, and leaves the file system in a new state. *)
Class Fs (FS : Type) : Type := {
  path_join : list jsstring -> jsstring;
  path_dirname : jsstring -> jsstring;
  os_tmpdir : jsstring;
  existsSync : jsstring -> FS -> bool;
  (** [mkdirSync(p, { recursive: true })] *)
  mkdirSync : jsstring -> FS -> completion unit * FS;
  readdirSync : jsstring -> FS -> completion (list jsstring);
  unlinkSync : jsstring -> FS -> completion unit * FS;
  writeFileSync : jsstring -> Buffer -> FS -> completion unit * FS;
  (** [rmSync(p, { recursive: true, force: true })] *)
  rmSync : jsstring -> FS -> completion unit * FS
}.

(** The outside: the file system and the trace of effects so far, oldest
    first. *)
Record world (FS : Type) : Type := {
  disk : FS;
  trace : list effect
}.
Arguments disk {FS} w.
Arguments trace {FS} w.

Definition perform {FS} (e : effect) (w : world FS) : world FS :=
  {| disk := disk w; trace := trace w ++ [e] |}.

Definition with_disk {FS} (d : FS) (w : world FS) : world FS :=
  {| disk := d; trace := trace w |}.

End Node.

Import Node.

(** ** [frame-writer.ts] *)

Module FrameWriter.

(** The fields of a [FrameWriter]. *)
Record t : Type := {
  frameDir : jsstring;
  frameCount : Z;
  active : bool
}.

Section Methods.

Context {FS : Type} `{Fs FS}.

(** [constructor(frameDir?)] *)
Definition new (frameDir : option jsstring) : t :=
  {| frameDir :=
       or_default frameDir (path_join [os_tmpdir; lit "focus-wizard-frames"]);
     frameCount := 0;
     active := false |}.

Definition directory (fw : t) : jsstring := frameDir fw.

Definition containerFileStreamPath (fw : t) : jsstring :=
  lit "/frames/frame0000000000000000.jpg".

Definition count (fw : t) : Z := frameCount fw.

Definition isActive (fw : t) : bool := active fw.

(** The loop of [clearFrames]: it stops at the first [unlinkSync] that
    throws. *)
Fixpoint unlink_all (dir : jsstring) (files : list jsstring) (d : FS)
  : completion unit * FS :=
  match files with
  | [] => (Normal tt, d)
  | file :: files' =>
      match unlinkSync (path_join [dir; file]) d with
      | (Normal _, d') => unlink_all dir files' d'
      | (Throw e, d') => (Throw e, d')
      end
  end.

(** [clearFrames()]: whatever is thrown is swallowed. *)
Definition clearFrames (fw : t) (w : world FS) : world FS :=
  match readdirSync (frameDir fw) (disk w) with
  | Normal files => with_disk (snd (unlink_all (frameDir fw) files (disk w))) w
  | Throw _ => w
  end.

(** [init()]: [mkdirSync] is outside any [try]. *)
Definition init (fw : t) (w : world FS) : completion unit * (t * world FS) :=
  let made :=
    if negb (existsSync (frameDir fw) (disk w))
    then mkdirSync (frameDir fw) (disk w)
    else (Normal tt, disk w) in
  match made with
  | (Throw e, d) => (Throw e, (fw, with_disk d w))
  | (Normal _, d) =>
      let w' := clearFrames fw (with_disk d w) in
      (Normal tt,
       ({| frameDir := frameDir fw; frameCount := 0; active := true |}, w'))
  end.

(** The name [writeFrame] gives the file of a frame:
    [[
    const padded = Math.floor(timestampUs).toString().padStart(16, "0");
    const filename = `frame${padded}.jpg`;
    ]] *)
Definition frameFilename (timestampUs : Q) : jsstring :=
  let padded := padStart 16 (lit "0") (Number_toString (Math_floor timestampUs)) in
  lit "frame" ++ padded ++ lit ".jpg".

(** [writeFrame(timestampUs, jpegData)] *)
Definition writeFrame (timestampUs : Q) (jpegData : Buffer)
    (fw : t) (w : world FS) : completion unit * (t * world FS) :=
  if negb (active fw) then (Normal tt, (fw, w))
  else
    let filepath := path_join [frameDir fw; frameFilename timestampUs] in
    match writeFileSync filepath jpegData (disk w) with
    | (Normal _, d) =>
        (Normal tt,
         ({| frameDir := frameDir fw;
             frameCount := frameCount fw + 1;
             active := active fw |},
          with_disk d w))
    | (Throw err, d) =>
        (Normal tt,
         (fw, perform (Console (log_write_failed err)) (with_disk d w)))
    end.

(** [writeEndOfStream()] *)
Definition writeEndOfStream (fw : t) (w : world FS) : world FS :=
  let filepath := path_join [frameDir fw; lit "end_of_stream"] in
  with_disk (snd (writeFileSync filepath [] (disk w))) w.

(** [cleanup()] *)
Definition cleanup (fw : t) (w : world FS) : t * world FS :=
  ({| frameDir := frameDir fw; frameCount := frameCount fw; active := false |},
   with_disk (snd (rmSync (frameDir fw) (disk w))) w).

End Methods.

End FrameWriter.

(** ** [bridge-manager.ts] *)

Module Options.

Inductive Mode : Type := docker | local.

(** [BridgeManagerOptions]; an optional property that is not set is
    [None]. The numbers are of a type [number] that is left open: only
    their interpolation into a template string is used. *)
Record t {number : Type} : Type := {
  apiKey : jsstring;
  mode : option Mode;
  dockerImage : option jsstring;
  frameDir : option jsstring;
  bridgePath : option jsstring;
  cameraIndex : option number;
  captureWidth : option number;
  captureHeight : option number;
  gazeThreshold : option number;
  blinkThreshold : option number;
  pulseThreshold : option number;
  breathingThreshold : option number
}.
Arguments t number : clear implicits.

End Options.

Module BridgeManager.

Export Options (Mode, docker, local).

(** What the build process delivers: chunks of output, then its end. *)
Inductive build_event : Type :=
| build_stdout (chunk : Buffer)
| build_stderr (chunk : Buffer).

Inductive build_end : Type :=
| build_close (code : option Z)
| build_error (message : jsstring).

(** What the platform answers while [start()] runs. *)
Record Env : Type := {
  __dirname : jsstring;
  FOCUS_BRIDGE_PATH : option jsstring;
  resourcesPath : option jsstring;
  (** [execSync("docker info")] returns *)
  docker_info : bool;
  (** [execSync(`docker image inspect ...`)] returns *)
  docker_image_inspect : bool;
  build_child : ChildProcess;
  build_events : list build_event;
  build_result : build_end;
  bridge_child : ChildProcess
}.

Section Class.

Context {number : Type} (number_toString : number -> jsstring).
Context {FS : Type} `{Fs FS}.

(** [JSON.parse]: [None] when it throws a SyntaxError. *)
Variable JSON_parse : jsstring -> option json.

(** The fields of a [BridgeManager]. *)
Record t : Type := {
  process : option ChildProcess;
  lineBuffer : jsstring;
  isReady : bool;
  _frameWriter : option FrameWriter.t;
  dockerImage : jsstring;
  mode : Mode;
  options : Options.t number
}.

(** The manager in its surroundings. [timers] counts the force-kill
    timeouts that [stop()] has set and that have not fired yet. *)
Record system : Type := {
  this : t;
  outside : world FS;
  timers : nat
}.

Definition set_process (p : option ChildProcess) (m : t) : t :=
  {| process := p; lineBuffer := lineBuffer m; isReady := isReady m;
     _frameWriter := _frameWriter m; dockerImage := dockerImage m;
     mode := mode m; options := options m |}.

Definition set_lineBuffer (b : jsstring) (m : t) : t :=
  {| process := process m; lineBuffer := b; isReady := isReady m;
     _frameWriter := _frameWriter m; dockerImage := dockerImage m;
     mode := mode m; options := options m |}.

Definition set_isReady (r : bool) (m : t) : t :=
  {| process := process m; lineBuffer := lineBuffer m; isReady := r;
     _frameWriter := _frameWriter m; dockerImage := dockerImage m;
     mode := mode m; options := options m |}.

Definition set_frameWriter (fw : option FrameWriter.t) (m : t) : t :=
  {| process := process m; lineBuffer := lineBuffer m; isReady := isReady m;
     _frameWriter := fw; dockerImage := dockerImage m;
     mode := mode m; options := options m |}.

Definition on_this (f : t -> t) (s : system) : system :=
  {| this := f (this s); outside := outside s; timers := timers s |}.

Definition on_outside (f : world FS -> world FS) (s : system) : system :=
  {| this := this s; outside := f (outside s); timers := timers s |}.

Definition set_timers (n : nat) (s : system) : system :=
  {| this := this s; outside := outside s; timers := n |}.

(** [this.emit(name, argument)]: the notification goes to the trace. What
    the listeners do with it is outside the class; they are taken to
    return normally. *)
Definition emit (n : notification) : system -> system :=
  on_outside (perform (Emit n)).

Definition console (l : log_entry) : system -> system :=
  on_outside (perform (Console l)).

Definition execSync (command : jsstring) : system -> system :=
  on_outside (perform (ExecSync command)).

(** [constructor(options)] *)
Definition new (opts : Options.t number) : t :=
  {| process := None;
     lineBuffer := [];
     isReady := false;
     _frameWriter := None;
     dockerImage := or_default (Options.dockerImage opts) (lit "focus-wizard-bridge");
     mode := match Options.mode opts with
             | Some m => m
             | None => docker
             end;
     options := opts |}.

Definition frameWriter (m : t) : option FrameWriter.t := _frameWriter m.

(** *** Arguments of the process *)

(** [if (x !== undefined) args.push(`${flag}${x}`)] *)
Definition push_flag (flag : string) (x : option number) (args : list jsstring)
  : list jsstring :=
  match x with
  | Some v => args ++ [lit flag ++ number_toString v]
  | None => args
  end.

Definition addThresholdArgs (m : t) (args : list jsstring) : list jsstring :=
  let args := push_flag "--gaze_threshold=" (Options.gazeThreshold (options m)) args in
  let args := push_flag "--blink_threshold=" (Options.blinkThreshold (options m)) args in
  let args := push_flag "--pulse_threshold=" (Options.pulseThreshold (options m)) args in
  push_flag "--breathing_threshold=" (Options.breathingThreshold (options m)) args.

(** The array [startDocker] passes to [spawn("docker", args)]. *)
Definition dockerArgs (m : t) (fw : FrameWriter.t) : list jsstring :=
  addThresholdArgs m
    [ lit "run"; lit "--rm"; lit "--platform"; lit "linux/amd64";
      lit "--name"; dockerImage m;
      lit "--dns"; lit "8.8.8.8"; lit "--dns"; lit "8.8.4.4";
      lit "-v"; FrameWriter.directory fw ++ lit ":/frames";
      lit "-e"; lit "SMARTSPECTRA_API_KEY=" ++ Options.apiKey (options m);
      dockerImage m;
      lit "--mode=server";
      lit "--file_stream_path=" ++ FrameWriter.containerFileStreamPath fw;
      lit "--erase_read_files=true";
      lit "--rescan_delay_ms=5" ].

(** The array [startLocal] passes to [spawn(bridgePath, args)]. *)
Definition localArgs (m : t) : list jsstring :=
  let args := [ lit "--api_key=" ++ Options.apiKey (options m) ] in
  let args := push_flag "--camera_device_index=" (Options.cameraIndex (options m)) args in
  let args := push_flag "--capture_width=" (Options.captureWidth (options m)) args in
  let args := push_flag "--capture_height=" (Options.captureHeight (options m)) args in
  addThresholdArgs m args.

(** *** Docker helpers *)

Definition isDockerAvailable (env : Env) (s : system) : bool * system :=
  (docker_info env, execSync (lit "docker info") s).

Definition isImageBuilt (env : Env) (s : system) : bool * system :=
  (docker_image_inspect env,
   execSync (lit "docker image inspect " ++ dockerImage (this s)) s).

Fixpoint findProjectRoot_from (i : nat) (dir : jsstring) (d : FS)
  : completion jsstring :=
  match i with
  | O => Throw (lit "Could not find project root (looking for bridge/Dockerfile). Run from the project directory, or build the image manually: docker build -t focus-wizard-bridge -f bridge/Dockerfile .")
  | S i' =>
      if existsSync (path_join [dir; lit "bridge"; lit "Dockerfile"]) d
      then Normal dir
      else findProjectRoot_from i' (path_dirname dir) d
  end.

Definition findProjectRoot (env : Env) (s : system) : completion jsstring :=
  findProjectRoot_from 10 (__dirname env) (disk (outside s)).

(** The [data] handlers of the build process. *)
Definition on_build_event (e : build_event) (s : system) : system :=
  match e with
  | build_stdout chunk =>
      let text := trim (Buffer_toString chunk) in
      match text with
      | [] => s
      | _ =>
          let s := console (log_docker_build text) s in
          let lastLine :=
            match fst (pop (split newline text)) with
            | Some (c :: l) => c :: l
            | _ => text
            end in
          emit (ev_status (Some (JString (lit "Building: " ++ slice0 100 lastLine)))) s
      end
  | build_stderr chunk =>
      let text := trim (Buffer_toString chunk) in
      match text with
      | [] => s
      | _ => console (log_docker_build text) s
      end
  end.

(** [`${code}`] for an exit code. *)
Definition code_toString (code : option Z) : jsstring :=
  match code with
  | Some c => Number_toString c
  | None => lit "null"
  end.

Definition status (text : jsstring) : notification :=
  ev_status (Some (JString text)).

(** [buildImage()], run to the point where its promise settles. *)
Definition buildImage (env : Env) (s : system) : completion unit * system :=
  let '(built, s) := isImageBuilt env s in
  if built then (Normal tt, emit (status (lit "Docker image already built")) s)
  else
    match findProjectRoot env s with
    | Throw e => (Throw e, s)
    | Normal projectRoot =>
        let s :=
          emit (status (lit "Building Docker image (first run " ++ [8212%N]
                        ++ lit " may take a few minutes)...")) s in
        let s :=
          on_outside
            (perform
               (Spawn (lit "docker")
                  [ lit "build"; lit "--platform"; lit "linux/amd64";
                    lit "-t"; dockerImage (this s);
                    lit "-f"; path_join [projectRoot; lit "bridge"; lit "Dockerfile"];
                    projectRoot ]
                  (build_child env))) s in
        let s := fold_left (fun s e => on_build_event e s) (build_events env) s in
        match build_result env with
        | build_close (Some 0%Z) =>
            (Normal tt, emit (status (lit "Docker image built successfully")) s)
        | build_close code =>
            (Throw (lit "Docker build failed with exit code " ++ code_toString code), s)
        | build_error message =>
            (Throw (lit "Docker build error: " ++ message), s)
        end
    end.

(** *** Local mode helpers *)

(** [candidates.filter(Boolean)] *)
Definition truthy (candidates : list (option jsstring)) : list jsstring :=
  flat_map (fun c => match c with
                     | Some (x :: r) => [x :: r]
                     | _ => []
                     end) candidates.

Definition findBridgePath (env : Env) (s : system) : completion jsstring :=
  let candidates :=
    truthy
      [ Options.bridgePath (options (this s));
        FOCUS_BRIDGE_PATH env;
        Some (path_join [__dirname env; lit ".."; lit ".."; lit "..";
                         lit "bridge"; lit "build"; lit "focus_bridge"]);
        Some (path_join [or_default (resourcesPath env) []; lit "focus_bridge"]) ] in
  match find (fun c => existsSync c (disk (outside s))) candidates with
  | Some candidate => Normal candidate
  | None =>
      Throw (lit "Could not find focus_bridge binary. Build it with: cd bridge && mkdir build && cd build && cmake .. && make"
             ++ [newline] ++ lit "Searched: " ++ join (lit ", ") candidates)
  end.

(** *** Start *)

Definition spawn (command : jsstring) (args : list jsstring)
    (child : ChildProcess) (s : system) : system :=
  on_this (set_process (Some child))
    (on_outside (perform (Spawn command args child)) s).

Definition startDocker (env : Env) (s : system) : completion unit * system :=
  let '(available, s) := isDockerAvailable env s in
  if negb available then
    (Throw (lit "Docker is not installed or not running. Install Docker Desktop: https://www.docker.com/products/docker-desktop/"), s)
  else
    match buildImage env s with
    | (Throw e, s) => (Throw e, s)
    | (Normal _, s) =>
        let s := execSync (lit "docker rm -f " ++ dockerImage (this s)) s in
        let fw := FrameWriter.new (Options.frameDir (options (this s))) in
        let s := on_this (set_frameWriter (Some fw)) s in
        match FrameWriter.init fw (outside s) with
        | (Throw e, (fw, w)) =>
            (Throw e, on_this (set_frameWriter (Some fw)) (on_outside (fun _ => w) s))
        | (Normal _, (fw, w)) =>
            let s := on_this (set_frameWriter (Some fw)) (on_outside (fun _ => w) s) in
            let args := dockerArgs (this s) fw in
            let s := console (log_starting_docker args) s in
            let s := emit (status (lit "Starting SmartSpectra container...")) s in
            (Normal tt, spawn (lit "docker") args (bridge_child env) s)
        end
    end.

Definition startLocal (env : Env) (s : system) : completion unit * system :=
  match findBridgePath env s with
  | Throw e => (Throw e, s)
  | Normal bridgePath =>
      let args := localArgs (this s) in
      let s := console (log_starting_local bridgePath args) s in
      (Normal tt, spawn bridgePath args (bridge_child env) s)
  end.

(** [start()] run to the point where its promise settles, with nothing
    coming between the call and that point. In containerized mode the
    call awaits [buildImage()] on its way; [Interleaved] below cuts it
    there. *)
Definition start (env : Env) (s : system) : completion unit * system :=
  match process (this s) with
  | Some _ => (Throw (lit "Bridge is already running"), s)
  | None =>
      match mode (this s) with
      | docker => startDocker env s
      | local => startLocal env s
      end
  end.

(** *** The handlers [attachProcessHandlers] installs *)

(** [handleMessage(message)]. The line of the default branch
    interpolates [message.type], which can throw. *)
Definition handleMessage (message : json) (s : system) : completion unit * system :=
  match get (Some message) (lit "type") with
  | Throw e => (Throw e, s)
  | Normal type =>
      let data :=
        match get (Some message) (lit "data") with
        | Normal d => d
        | Throw _ => undefined
        end in
      if is_string type (lit "ready") then
        (Normal tt, emit ev_ready (on_this (set_isReady true) s))
      else if is_string type (lit "focus") then
        (Normal tt, emit (ev_focus data) s)
      else if is_string type (lit "metrics") then
        (Normal tt, emit (ev_metrics data) s)
      else if is_string type (lit "edge") then
        (Normal tt, emit (ev_edge data) s)
      else if is_string type (lit "status") then
        match get data (lit "status") with
        | Normal v => (Normal tt, emit (ev_status v) s)
        | Throw e => (Throw e, s)
        end
      else if is_string type (lit "error") then
        match get data (lit "message") with
        | Normal v => (Normal tt, emit (ev_bridge_error v) s)
        | Throw e => (Throw e, s)
        end
      else if template_throws type then
        (Throw (lit "TypeError: Cannot convert object to primitive value"), s)
      else (Normal tt, console (log_unknown_type type) s)
  end.

(** The body of the loop of [processLines]; the [catch] covers both
    [JSON.parse] and [handleMessage]. *)
Definition processLine (line : jsstring) (s : system) : system :=
  let trimmed := trim line in
  match trimmed with
  | [] => s
  | _ =>
      match JSON_parse trimmed with
      | None => console (log_failed_to_parse trimmed) s
      | Some message =>
          match handleMessage message s with
          | (Normal _, s') => s'
          | (Throw _, s') => console (log_failed_to_parse trimmed) s'
          end
      end
  end.

(** [processLines()] *)
Definition processLines (s : system) : system :=
  let '(last, lines) := pop (split newline (lineBuffer (this s))) in
  let s := on_this (set_lineBuffer (or_default last [])) s in
  fold_left (fun s line => processLine line s) lines s.

(** [stdout.on("data", ...)] *)
Definition on_stdout_data (chunk : Buffer) (s : system) : system :=
  processLines
    (on_this (fun m => set_lineBuffer (lineBuffer m ++ Buffer_toString chunk) m) s).

(** The loop of [processLines] on lines already cut, with the rest of
    the text back in the buffer. *)
Definition drive (lines : list jsstring) (rest : jsstring) (s : system) : system :=
  fold_left (fun s line => processLine line s) lines
    (on_this (set_lineBuffer rest) s).

(** The same handler on a chunk that is already text. *)
Definition on_text (text : jsstring) (s : system) : system :=
  processLines (on_this (fun m => set_lineBuffer (lineBuffer m ++ text) m) s).

(** The handler on the chunks of a stream, one after the other. *)
Definition receive (chunks : list Buffer) (s : system) : system :=
  fold_left (fun s chunk => on_stdout_data chunk s) chunks s.

(** [stderr.on("data", ...)] *)
Definition on_stderr_data (chunk : Buffer) (s : system) : system :=
  let text := trim (Buffer_toString chunk) in
  match text with
  | [] => s
  | _ => console (log_stderr text) s
  end.

(** [on("close", ...)] *)
Definition on_close (code : option Z) (s : system) : system :=
  let s := console (log_exited code) s in
  let s := on_this (set_process None) s in
  let s := on_this (set_isReady false) s in
  emit (ev_close code) s.

(** [on("error", ...)] *)
Definition on_error (err : jsstring) (s : system) : system :=
  emit (ev_error err) (console (log_process_error err) s).

(** *** Stop *)

(** The callback [stop()] hands to [setTimeout]. *)
Definition force_kill (s : system) : system :=
  match process (this s) with
  | Some child =>
      on_outside (perform (Kill child (lit "SIGKILL"))) (console log_force_killing s)
  | None => s
  end.

(** [stop()]: every call that can throw sits in a [try] whose [catch]
    swallows. *)
Definition stop (s : system) : completion unit * system :=
  let s :=
    match _frameWriter (this s) with
    | Some fw => on_outside (FrameWriter.writeEndOfStream fw) s
    | None => s
    end in
  let s :=
    match process (this s) with
    | Some child =>
        let s := console log_stopping s in
        match mode (this s) with
        | docker => execSync (lit "docker stop -t 5 " ++ dockerImage (this s)) s
        | local =>
            let s := on_outside (perform (Kill child (lit "SIGTERM"))) s in
            let s := on_outside (perform (SetTimeout 5000)) s in
            set_timers (S (timers s)) s
        end
    | None => s
    end in
  match _frameWriter (this s) with
  | Some fw =>
      let '(fw', w) := FrameWriter.cleanup fw (outside s) in
      (Normal tt, on_this (set_frameWriter None) (on_outside (fun _ => w) s))
  | None => (Normal tt, s)
  end.

(** [get running()] *)
Definition running (m : t) : bool :=
  match process m with
  | Some _ => isReady m
  | None => false
  end.

(** *** Runs

    What can happen to a manager: its owner calls a method, the child
    process delivers an event, or a timer fires. The events of the child
    are delivered while the manager holds its handle; the timer fires
    when one is pending. *)
Inductive input : Type :=
| call_start (env : Env)
| call_stop
| call_writeFrame (timestampUs : Q) (jpegData : Buffer)
| stdout_data (chunk : Buffer)
| stderr_data (chunk : Buffer)
| process_close (code : option Z)
| process_error (err : jsstring)
| timer_fires.

Definition attached (s : system) : bool :=
  match process (this s) with Some _ => true | None => false end.

Definition enabled (i : input) (s : system) : bool :=
  match i with
  | call_start _ | call_stop | call_writeFrame _ _ => true
  | stdout_data _ | stderr_data _ | process_close _ | process_error _ => attached s
  | timer_fires => match timers s with O => false | S _ => true end
  end.

(** The caller of [writeFrame] in [main.ts]: it writes through the
    manager's frame writer when there is one. The console lines of
    [main.ts] itself are left out. *)
Definition main_writeFrame (timestampUs : Q) (jpegData : Buffer) (s : system)
  : system :=
  match frameWriter (this s) with
  | Some fw =>
      let '(fw', w) :=
        snd (FrameWriter.writeFrame timestampUs jpegData fw (outside s)) in
      on_this (set_frameWriter (Some fw')) (on_outside (fun _ => w) s)
  | None => s
  end.

Definition step (i : input) (s : system) : system :=
  match i with
  | call_start env => snd (start env s)
  | call_stop => snd (stop s)
  | call_writeFrame ts data => main_writeFrame ts data s
  | stdout_data chunk => on_stdout_data chunk s
  | stderr_data chunk => on_stderr_data chunk s
  | process_close code => on_close code s
  | process_error err => on_error err s
  | timer_fires => force_kill (set_timers (pred (timers s)) s)
  end.

(** A run: the inputs that are not enabled when their turn comes cannot
    happen. *)
Fixpoint run (inputs : list input) (s : system) : option system :=
  match inputs with
  | [] => Some s
  | i :: inputs' => if enabled i s then run inputs' (step i s) else None
  end.

Definition initial (opts : Options.t number) (d : FS) : system :=
  {| this := new opts; outside := {| disk := d; trace := [] |}; timers := 0 |}.

End Class.

End BridgeManager.

(** ** Executable instances of the platform

    *** A reader for JSON text

    [JSON.parse] restricted to what it returns: the value a text denotes,
    or nothing when the text is not JSON. *)

Module JsonReader.

Local Open Scope N_scope.

Definition is_ws (c : N) : bool :=
  (c =? 32) || (c =? 9) || (c =? 10) || (c =? 13).

Fixpoint skip_ws (s : jsstring) : jsstring :=
  match s with
  | c :: r => if is_ws c then skip_ws r else s
  | [] => []
  end.

Definition is_digit (c : N) : bool := (48 <=? c) && (c <=? 57).

Definition hex (c : N) : option N :=
  if is_digit c then Some (c - 48)
  else if (97 <=? c) && (c <=? 102) then Some (c - 87)
  else if (65 <=? c) && (c <=? 70) then Some (c - 55)
  else None.

(** The code unit an escape of one letter stands for. *)
Definition escape (e : N) : option N :=
  if e =? 34 then Some 34
  else if e =? 92 then Some 92
  else if e =? 47 then Some 47
  else if e =? 98 then Some 8
  else if e =? 102 then Some 12
  else if e =? 110 then Some 10
  else if e =? 114 then Some 13
  else if e =? 116 then Some 9
  else None.

(** A string after its opening quote. *)
Fixpoint read_string (s acc : jsstring) : option (jsstring * jsstring) :=
  match s with
  | [] => None
  | c :: r =>
      if c =? 34 then Some (rev acc, r)
      else if c =? 92 then
        match r with
        | [] => None
        | e :: r' =>
            if e =? 117 then
              match r' with
              | h1 :: h2 :: h3 :: h4 :: r'' =>
                  match hex h1, hex h2, hex h3, hex h4 with
                  | Some a, Some b, Some c', Some d =>
                      read_string r'' ((((a * 16 + b) * 16 + c') * 16 + d) :: acc)
                  | _, _, _, _ => None
                  end
              | _ => None
              end
            else
              match escape e with
              | Some u => read_string r' (u :: acc)
              | None => None
              end
        end
      else if c <? 32 then None
      else read_string r (c :: acc)
  end.

Fixpoint take_digits (s : jsstring) : jsstring * jsstring :=
  match s with
  | c :: r =>
      if is_digit c then let '(d, r') := take_digits r in (c :: d, r')
      else ([], s)
  | [] => ([], [])
  end.

(** One or more digits. *)
Definition some_digits (s : jsstring) : option (jsstring * jsstring) :=
  match take_digits s with
  | ([], _) => None
  | (d, r) => Some (d, r)
  end.

Definition read_number (s : jsstring) : option (jsstring * jsstring) :=
  let '(sign, s) :=
    match s with
    | c :: r => if c =? 45 then ([c], r) else ([], s)
    | [] => ([], [])
    end in
  let int :=
    match s with
    | c :: r => if c =? 48 then Some ([c], r) else some_digits s
    | [] => None
    end in
  match int with
  | None => None
  | Some (i, s) =>
      let frac :=
        match s with
        | c :: r =>
            if c =? 46 then
              match some_digits r with
              | Some (d, r') => Some (c :: d, r')
              | None => None
              end
            else Some ([], s)
        | [] => Some ([], [])
        end in
      match frac with
      | None => None
      | Some (f, s) =>
          let exp :=
            match s with
            | c :: r =>
                if (c =? 101) || (c =? 69) then
                  let '(sg, r) :=
                    match r with
                    | c' :: r' =>
                        if (c' =? 43) || (c' =? 45) then ([c'], r') else ([], r)
                    | [] => ([], [])
                    end in
                  match some_digits r with
                  | Some (d, r') => Some (c :: sg ++ d, r')
                  | None => None
                  end
                else Some ([], s)
            | [] => Some ([], [])
            end in
          match exp with
          | None => None
          | Some (e, s) => Some (sign ++ i ++ f ++ e, s)
          end
      end
  end.

Fixpoint starts_with (p s : jsstring) : bool :=
  match p, s with
  | [], _ => true
  | x :: p', y :: s' => (x =? y) && starts_with p' s'
  | _ :: _, [] => false
  end.

Definition keyword (k : string) (v : json) (s : jsstring) : option (json * jsstring) :=
  if starts_with (lit k) s then Some (v, skipn (length (lit k)) s) else None.

Fixpoint read_value (fuel : nat) (s : jsstring) : option (json * jsstring) :=
  match fuel with
  | O => None
  | S f =>
      match skip_ws s with
      | [] => None
      | c :: r =>
          if c =? 123 then
            match skip_ws r with
            | c' :: r' =>
                if c' =? 125 then Some (JObject [], r') else read_members f r []
            | [] => None
            end
          else if c =? 91 then
            match skip_ws r with
            | c' :: r' =>
                if c' =? 93 then Some (JArray [], r') else read_elements f r []
            | [] => None
            end
          else if c =? 34 then
            match read_string r [] with
            | Some (str, r') => Some (JString str, r')
            | None => None
            end
          else if c =? 116 then keyword "true" (JBool true) (c :: r)
          else if c =? 102 then keyword "false" (JBool false) (c :: r)
          else if c =? 110 then keyword "null" JNull (c :: r)
          else
            match read_number (c :: r) with
            | Some (text, r') => Some (JNumber text, r')
            | None => None
            end
      end
  end
with read_elements (fuel : nat) (s : jsstring) (acc : list json)
  : option (json * jsstring) :=
  match fuel with
  | O => None
  | S f =>
      match read_value f s with
      | None => None
      | Some (v, r) =>
          match skip_ws r with
          | c :: r' =>
              if c =? 44 then read_elements f r' (v :: acc)
              else if c =? 93 then Some (JArray (rev (v :: acc)), r')
              else None
          | [] => None
          end
      end
  end
with read_members (fuel : nat) (s : jsstring) (acc : list (jsstring * json))
  : option (json * jsstring) :=
  match fuel with
  | O => None
  | S f =>
      match skip_ws s with
      | c :: r =>
          if c =? 34 then
            match read_string r [] with
            | None => None
            | Some (key, r) =>
                match skip_ws r with
                | c' :: r =>
                    if c' =? 58 then
                      match read_value f r with
                      | None => None
                      | Some (v, r) =>
                          match skip_ws r with
                          | c'' :: r' =>
                              if c'' =? 44 then read_members f r' ((key, v) :: acc)
                              else if c'' =? 125
                              then Some (JObject (rev ((key, v) :: acc)), r')
                              else None
                          | [] => None
                          end
                      end
                    else None
                | [] => None
                end
            end
          else None
      | [] => None
      end
  end.

Definition JSON_parse (text : jsstring) : option json :=
  match read_value (2 * length text + 2) text with
  | Some (v, r) =>
      match skip_ws r with
      | [] => Some v
      | _ :: _ => None
      end
  | None => None
  end.

End JsonReader.

(** *** A file system in memory

    The nodes that exist, by path. *)

Module MemFs.

Inductive node : Type :=
| Dir
| File (content : Buffer).

Abbreviation t := (gmap jsstring node).

Definition slash : N := 47.

Definition str_eqb (a b : jsstring) : bool := js_eqb a b.

(** [path.normalize] on a POSIX path without a trailing separator. *)
Definition normalize (p : jsstring) : jsstring :=
  let absolute := match p with c :: _ => (c =? slash)%N | [] => false end in
  let stack :=
    fold_left
      (fun st seg =>
         if str_eqb seg [] || str_eqb seg (lit ".") then st
         else if str_eqb seg (lit "..") then
           match st with
           | top :: rest => if str_eqb top (lit "..") then seg :: st else rest
           | [] => if absolute then [] else [seg]
           end
         else seg :: st)
      (split slash p) [] in
  let body := join [slash] (rev stack) in
  match (if absolute then slash :: body else body) with
  | [] => lit "."
  | q => q
  end.

Definition join_paths (segments : list jsstring) : jsstring :=
  normalize (join [slash] (filter (fun seg => negb (str_eqb seg [])) segments)).

Definition dirname (p : jsstring) : jsstring :=
  match snd (pop (split slash p)) with
  | [] => lit "."
  | segs => match join [slash] segs with
            | [] => [slash]
            | d => d
            end
  end.

Definition basename (p : jsstring) : jsstring :=
  match fst (pop (split slash p)) with
  | Some b => b
  | None => []
  end.

(** A path and the directories above it. *)
Fixpoint ancestors (fuel : nat) (p : jsstring) : list jsstring :=
  match fuel with
  | O => []
  | S f =>
      if str_eqb p (lit ".") || str_eqb p [slash] then []
      else p :: ancestors f (dirname p)
  end.

Definition children (p : jsstring) (d : t) : list jsstring :=
  filter (fun k => str_eqb (dirname k) p && negb (str_eqb k p))
         (map fst (map_to_list d)).

Definition below (p k : jsstring) : bool :=
  str_eqb k p || JsonReader.starts_with (p ++ [slash]) k.

Definition parent_is_dir (p : jsstring) (d : t) : bool :=
  let up := dirname p in
  if str_eqb up (lit ".") || str_eqb up [slash] then true
  else match d !! up with
       | Some Dir => true
       | _ => false
       end.

#[global] Instance memfs : Fs t := {|
  path_join := join_paths;
  path_dirname := dirname;
  os_tmpdir := lit "/tmp";
  existsSync p d := match d !! p with Some _ => true | None => false end;
  mkdirSync p d :=
    (Normal tt,
     fold_right (fun q d => match d !! q with
                            | Some _ => d
                            | None => <[q := Dir]> d
                            end) d (ancestors (length p) p));
  readdirSync p d :=
    match d !! p with
    | Some Dir => Normal (map basename (children p d))
    | _ => Throw (lit "ENOENT")
    end;
  unlinkSync p d :=
    match d !! p with
    | Some (File _) => (Normal tt, delete p d)
    | _ => (Throw (lit "ENOENT"), d)
    end;
  writeFileSync p data d :=
    match d !! p with
    | Some Dir => (Throw (lit "EISDIR"), d)
    | _ => if parent_is_dir p d then (Normal tt, <[p := File data]> d)
           else (Throw (lit "ENOENT"), d)
    end;
  rmSync p d :=
    (Normal tt, filter (fun kv => negb (below p (fst kv))) d)
|}.

End MemFs.

(** ** Notions the properties are stated with *)

Local Open Scope Z_scope.

(** The [w] low decimal digits of [n], most significant first. *)
Fixpoint fixed (w : nat) (n : Z) : jsstring :=
  match w with
  | O => []
  | S w' => fixed w' (n / 10) ++ [digit (n mod 10)]
  end.

Local Close Scope Z_scope.

(** The complete lines of a text and the text after the last
    separator: what [processLines] takes from the buffer and what it
    leaves there. *)
Definition cut (sep : N) (s : jsstring) : list jsstring * jsstring :=
  let '(last, lines) := pop (split sep s) in (lines, or_default last []).

(** The notifications of a trace, in the order they were emitted. *)
Fixpoint notifications (tr : list effect) : list notification :=
  match tr with
  | [] => []
  | Emit n :: tr' => n :: notifications tr'
  | _ :: tr' => notifications tr'
  end.

(** Whether a ready notification was emitted after the latest spawn and
    the latest close notification of a trace given newest first. *)
Fixpoint ready_since (newest_first : list effect) : bool :=
  match newest_first with
  | [] => false
  | Emit ev_ready :: _ => true
  | Emit (ev_close _) :: _ => false
  | Spawn _ _ _ :: _ => false
  | _ :: older => ready_since older
  end.

Definition ready_in_session (tr : list effect) : bool := ready_since (rev tr).

(** The effects that say nothing about readiness, and the effects other
    than a ready notification. *)
Definition quiet (e : effect) : bool :=
  match e with
  | Emit ev_ready | Emit (ev_close _) | Spawn _ _ _ => false
  | _ => true
  end.

Definition not_ready (e : effect) : bool :=
  match e with
  | Emit ev_ready => false
  | _ => true
  end.

(** [evolves P s s']: from [s] to [s'] the decode buffer and the ready
    flag stay as they are and the trace grows by effects that satisfy
    [P]. *)
Definition evolves {number FS} (P : effect -> bool)
    (s s' : @BridgeManager.system number FS) : Prop :=
  BridgeManager.lineBuffer (BridgeManager.this s')
  = BridgeManager.lineBuffer (BridgeManager.this s) /\
  BridgeManager.isReady (BridgeManager.this s')
  = BridgeManager.isReady (BridgeManager.this s) /\
  exists added,
    trace (BridgeManager.outside s')
    = trace (BridgeManager.outside s) ++ added /\ forallb P added = true.

(** What holds of a manager throughout a run: without a process handle
    the ready flag is down; the ready flag says whether a ready
    notification was emitted in the current session; the decode buffer
    holds no line terminator. *)
Definition coherent {number FS} (s : @BridgeManager.system number FS) : Prop :=
  (BridgeManager.process (BridgeManager.this s) = None ->
   BridgeManager.isReady (BridgeManager.this s) = false) /\
  BridgeManager.isReady (BridgeManager.this s)
  = ready_in_session (trace (BridgeManager.outside s)) /\
  ~ In newline (BridgeManager.lineBuffer (BridgeManager.this s)).

(** An argument list has a flag when one of its elements begins with the
    text of the flag. *)
Definition has_flag (flag : string) (args : list jsstring) : bool :=
  existsb (JsonReader.starts_with (lit flag)) args.

(** The arguments of the process in the array [startDocker] passes to
    [spawn("docker", args)]: the array begins with [run], thirteen words
    of options of docker itself and the image; what follows the image is
    handed to the process in the container. *)
Definition container_args (args : list jsstring) : list jsstring :=
  skipn 15 args.

(** The notification a record of the protocol is dispatched as, after the
    dispatch table of the specification: a record is an object with a
    [type] tag and a [data] payload; the tag selects the notification;
    [status] and [error] carry one property of an object payload, the
    others the payload itself. Anything else is not a record. *)
Definition dispatched (message : json) : option notification :=
  match message with
  | JObject members =>
      let data := member (lit "data") members in
      match member (lit "type") members with
      | Some (JString tag) =>
          if js_eqb tag (lit "ready") then Some ev_ready
          else if js_eqb tag (lit "focus") then Some (ev_focus data)
          else if js_eqb tag (lit "metrics") then Some (ev_metrics data)
          else if js_eqb tag (lit "edge") then Some (ev_edge data)
          else if js_eqb tag (lit "status") then
            match data with
            | Some (JObject payload) => Some (ev_status (member (lit "status") payload))
            | _ => None
            end
          else if js_eqb tag (lit "error") then
            match data with
            | Some (JObject payload) =>
                Some (ev_bridge_error (member (lit "message") payload))
            | _ => None
            end
          else None
      | _ => None
      end
  | _ => None
  end.

(** What dispatching a record does to the manager besides emitting the
    notification: a ready record raises the ready flag. *)
Definition noted {number FS} (n : notification)
    (s : @BridgeManager.system number FS) : @BridgeManager.system number FS :=
  match n with
  | ev_ready => BridgeManager.on_this (BridgeManager.set_isReady true) s
  | _ => s
  end.

(** The flags of the four thresholds and of the capture options, each
    with the option it renders. *)
Definition threshold_flags {number}
  : list (string * (Options.t number -> option number)) :=
  [ ("--gaze_threshold="%string, Options.gazeThreshold);
    ("--blink_threshold="%string, Options.blinkThreshold);
    ("--pulse_threshold="%string, Options.pulseThreshold);
    ("--breathing_threshold="%string, Options.breathingThreshold) ].

Definition capture_flags {number}
  : list (string * (Options.t number -> option number)) :=
  [ ("--camera_device_index="%string, Options.cameraIndex);
    ("--capture_width="%string, Options.captureWidth);
    ("--capture_height="%string, Options.captureHeight) ].

Definition is_set {A} (x : option A) : bool :=
  match x with Some _ => true | None => false end.

(** The inputs other than the exit of the process. *)
Definition not_close (i : BridgeManager.input) : bool :=
  match i with
  | BridgeManager.process_close _ => false
  | _ => true
  end.

(** A byte of the ASCII range. *)
Definition is_ascii (b : Byte.byte) : bool := (Byte.to_N b <? 128)%N.

(** ** Sample data

    JSON text is written with an apostrophe where the text has a
    quotation mark. *)

Module Sample.

Definition quoted (s : string) : jsstring :=
  map (fun c => if (c =? 39)%N then 34%N else c) (lit s).

Definition bytes (s : string) : Buffer :=
  map (fun b => if (Byte.to_N b =? 39)%N then Byte.x22 else b)
      (list_byte_of_string s).

(** Numbers that are integers, printed in decimal. *)
Definition options (m : Options.Mode) : Options.t Z :=
  {| Options.apiKey := lit "key";
     Options.mode := Some m;
     Options.dockerImage := None;
     Options.frameDir := None;
     Options.bridgePath := Some (lit "/opt/focus_bridge");
     Options.cameraIndex := Some 0%Z;
     Options.captureWidth := Some 640%Z;
     Options.captureHeight := None;
     Options.gazeThreshold := Some 3%Z;
     Options.blinkThreshold := None;
     Options.pulseThreshold := None;
     Options.breathingThreshold := Some 12%Z |}.

(** A configuration whose image name reads like a threshold flag and
    that sets no threshold. *)
Definition odd_options : Options.t Z :=
  {| Options.apiKey := lit "key";
     Options.mode := Some Options.docker;
     Options.dockerImage := Some (lit "--gaze_threshold=1");
     Options.frameDir := None;
     Options.bridgePath := None;
     Options.cameraIndex := None;
     Options.captureWidth := None;
     Options.captureHeight := None;
     Options.gazeThreshold := None;
     Options.blinkThreshold := None;
     Options.pulseThreshold := None;
     Options.breathingThreshold := None |}.

(** A disk on which the native binary is installed. *)
Definition disk0 : MemFs.t :=
  <[lit "/opt/focus_bridge" := MemFs.File []]> (<[lit "/opt" := MemFs.Dir]> ∅).

Definition env : BridgeManager.Env :=
  {| BridgeManager.__dirname := lit "/app/dist-electron";
     BridgeManager.FOCUS_BRIDGE_PATH := None;
     BridgeManager.resourcesPath := None;
     BridgeManager.docker_info := true;
     BridgeManager.docker_image_inspect := true;
     BridgeManager.build_child := 1;
     BridgeManager.build_events := [];
     BridgeManager.build_result := BridgeManager.build_close (Some 0%Z);
     BridgeManager.bridge_child := 2 |}.

Definition system : Type := @BridgeManager.system Z MemFs.t.

Definition step : BridgeManager.input -> system -> system :=
  BridgeManager.step Number_toString JsonReader.JSON_parse.

Definition run : list BridgeManager.input -> system -> option system :=
  BridgeManager.run Number_toString JsonReader.JSON_parse.

Definition receive : list Buffer -> system -> system :=
  BridgeManager.receive JsonReader.JSON_parse.

Definition fresh (m : Options.Mode) : system :=
  BridgeManager.initial (options m) disk0.

(** A native session that has been started, and one that has also
    reported ready. *)
Definition started : system :=
  step (BridgeManager.call_start env) (fresh Options.local).

Definition ready_line : Buffer := bytes "{'type':'ready','data':{}}" ++ [Byte.x0a].

Definition ready : system := step (BridgeManager.stdout_data ready_line) started.

(** A stream of one status line whose text has one character outside
    ASCII, U+00E9, and the two chunks that part it between the two bytes
    of that character. *)
Definition accent_head : Buffer :=
  bytes "{'type':'status','data':{'status':'caf" ++ [Byte.xc3].

Definition accent_tail : Buffer := [Byte.xa9] ++ bytes "'}}" ++ [Byte.x0a].

Definition accent_stream : Buffer := accent_head ++ accent_tail.

(** A stream of three lines, the second of which is not JSON, in two
    chunks. *)
Definition line1 : jsstring := quoted "{'type':'ready','data':{}}".
Definition line2 : jsstring := lit "Segmentation fault".
Definition line3 : jsstring :=
  quoted "{'type':'status','data':{'status':'tracking'}}".

Definition three_lines : list Buffer :=
  [ bytes "{'type':'ready','data':{}}" ++ [Byte.x0a] ++ bytes "Segmentation";
    bytes " fault" ++ [Byte.x0a]
    ++ bytes "{'type':'status','data':{'status':'tracking'}}" ++ [Byte.x0a] ].

End Sample.

(** ** Further notions: the frame writer over many frames *)

(** [writeFrame] on the frames of a list, one after the other. *)
Fixpoint writeFrames {FS} `{Fs FS} (frames : list (Q * Buffer))
    (fw : FrameWriter.t) (w : world FS) : FrameWriter.t * world FS :=
  match frames with
  | [] => (fw, w)
  | (timestampUs, jpegData) :: frames' =>
      let '(fw', w') := snd (FrameWriter.writeFrame timestampUs jpegData fw w) in
      writeFrames frames' fw' w'
  end.

(** The lines of a trace that report a frame that could not be
    written. *)
Fixpoint write_failures (tr : list effect) : nat :=
  match tr with
  | [] => 0
  | Console (log_write_failed _) :: tr' => S (write_failures tr')
  | _ :: tr' => write_failures tr'
  end.

(** ** Further notions: the manager *)

(** From [s] to [s'] nothing but the trace has changed. *)
Definition only_traced {number FS} (s s' : @BridgeManager.system number FS) : Prop :=
  BridgeManager.this s' = BridgeManager.this s /\
  disk (BridgeManager.outside s') = disk (BridgeManager.outside s) /\
  BridgeManager.timers s' = BridgeManager.timers s.

(** The six tags of the protocol. *)
Definition protocol_tags : list jsstring :=
  [lit "ready"; lit "focus"; lit "metrics"; lit "edge"; lit "status"; lit "error"].


(** The effects [start()] can have: commands run, processes spawned,
    console lines, status notifications. *)
Definition start_effect (e : effect) : bool :=
  match e with
  | ExecSync _ | Spawn _ _ _ | Console _ | Emit (ev_status _) => true
  | _ => false
  end.

(** The effects of decoding: notifications and console lines. *)
Definition decode_effect (e : effect) : bool :=
  match e with
  | Emit _ | Console _ => true
  | _ => false
  end.

(** The signals sent and the timeouts set in a trace. *)
Fixpoint signals (tr : list effect) : list (ChildProcess * jsstring) :=
  match tr with
  | [] => []
  | Kill child signal :: tr' => (child, signal) :: signals tr'
  | _ :: tr' => signals tr'
  end.

Fixpoint timeouts (tr : list effect) : nat :=
  match tr with
  | [] => 0
  | SetTimeout _ :: tr' => S (timeouts tr')
  | _ :: tr' => timeouts tr'
  end.

Definition sigkills (tr : list effect) : nat :=
  length (List.filter (fun cs => js_eqb (snd cs) (lit "SIGKILL")) (signals tr)).

(** From [s] to [s'] the manager keeps its process handle, its frame
    writer and its configuration, the file system and the timers are as
    they were, and a ready flag that was up is still up. *)
Definition rest_kept {number FS} (s s' : @BridgeManager.system number FS) : Prop :=
  BridgeManager.process (BridgeManager.this s')
  = BridgeManager.process (BridgeManager.this s) /\
  BridgeManager._frameWriter (BridgeManager.this s')
  = BridgeManager._frameWriter (BridgeManager.this s) /\
  BridgeManager.dockerImage (BridgeManager.this s')
  = BridgeManager.dockerImage (BridgeManager.this s) /\
  BridgeManager.mode (BridgeManager.this s')
  = BridgeManager.mode (BridgeManager.this s) /\
  BridgeManager.options (BridgeManager.this s')
  = BridgeManager.options (BridgeManager.this s) /\
  disk (BridgeManager.outside s') = disk (BridgeManager.outside s) /\
  BridgeManager.timers s' = BridgeManager.timers s /\
  (BridgeManager.isReady (BridgeManager.this s) = true ->
   BridgeManager.isReady (BridgeManager.this s') = true).

(** The inputs other than a chunk of standard output. *)
Definition not_stdout (i : BridgeManager.input) : bool :=
  match i with
  | BridgeManager.stdout_data _ => false
  | _ => true
  end.

(** The effects that are neither a signal nor a timeout. *)
Definition unsignalled (e : effect) : bool :=
  match e with
  | Kill _ _ | SetTimeout _ => false
  | _ => true
  end.

(** The inputs other than a call of [start()]. *)
Definition not_start (i : BridgeManager.input) : bool :=
  match i with
  | BridgeManager.call_start _ => false
  | _ => true
  end.

(** A candidate for the path of the binary that [findBridgePath] would
    return: a non-empty string that names an existing file. *)
Definition usable {FS} `{Fs FS} (d : FS) (candidate : option jsstring) : bool :=
  match candidate with
  | Some (c :: p) => existsSync (c :: p) d
  | _ => false
  end.

(** ** [useWebcam.ts] *)

Module UseWebcam.

(** The timestamp [captureFrame] sends with a frame,
    [[
    const timestampUs = Date.now() * 1000;
    ]]
    for a reading of the clock in milliseconds. *)
Definition timestampUs (Date_now : Z) : Q := inject_Z (Date_now * 1000).

End UseWebcam.

(** ** [main.ts]: the numbers of the hop *)

Module Main.

(** [clamp(n, min, max)], on finite numbers:
    [[
    return Math.min(max, Math.max(min, n));
    ]] *)
Definition clamp (n min max : Q) : Q := Qmin max (Qmax min n).

Record HopParams : Type := {
  durationMs : Q;
  heightPx : Q
}.

Section Doubles.

(** The arithmetic of doubles on finite numbers, whatever its rounding. *)
Variables add sub mul : Q -> Q -> Q.

(** [computeHopParams(fromX, toX)] *)
Definition computeHopParams (fromX toX : Q) : HopParams :=
  let dist := Qabs (sub toX fromX) in
  {| durationMs := clamp (add 520 (mul dist (35 # 100))) 520 980;
     heightPx := clamp (add 55 (mul dist (12 # 100))) 55 160 |}.

End Doubles.

End Main.

(** ** Further sample data *)

Module Scenario.

(** The platform at a second call of [start()]: the process spawned gets
    another handle. *)
Definition second_env : BridgeManager.Env :=
  {| BridgeManager.__dirname := lit "/app/dist-electron";
     BridgeManager.FOCUS_BRIDGE_PATH := None;
     BridgeManager.resourcesPath := None;
     BridgeManager.docker_info := true;
     BridgeManager.docker_image_inspect := true;
     BridgeManager.build_child := 1;
     BridgeManager.build_events := [];
     BridgeManager.build_result := BridgeManager.build_close (Some 0%Z);
     BridgeManager.bridge_child := 3 |}.

(** A containerized session that has been started. *)
Definition container : Sample.system :=
  Sample.step (BridgeManager.call_start Sample.env) (Sample.fresh Options.docker).

(** A frame. *)
Definition jpeg : Buffer := [Byte.xff; Byte.xd8; Byte.xff; Byte.xd9].

End Scenario.

(** ** [start()] and what can come before it resumes

    [start()] is an async function. In native mode it runs to its end
    within the call. In containerized mode it checks the handle, asks
    for the container runtime and for the image, and awaits
    [buildImage()]; what follows the [await] (the stale container, the
    frame writer, the spawn and the assignment of [this.process]) runs
    when the promise of [buildImage()] is fulfilled. Until then
    [this.process] is [null], and a call of [stop()] or of [start()], a
    frame, a timer or an event of a process can come first. *)

Module Interleaved.

Import BridgeManager.

(** A call of [start()] that awaits [buildImage()]: what the platform
    will answer when it resumes, and whether a build process runs
    ([false]: the image is there, and the promise is fulfilled
    already). *)
Record suspended : Type := {
  answers : Env;
  building : bool
}.

Section Turns.

Context {number : Type} (number_toString : number -> jsstring).
Context {FS : Type} `{Fs FS}.
Variable JSON_parse : jsstring -> option json.

Local Abbreviation system := (@BridgeManager.system number FS).

(** [startDocker()] as far as its [await]: the check of the runtime and
    [buildImage()] up to the promise it returns. The result says
    whether a build process was spawned. *)
Definition startDocker_begin (env : Env) (s : system) : completion bool * system :=
  let '(available, s) := isDockerAvailable env s in
  if negb available then
    (Throw (lit "Docker is not installed or not running. Install Docker Desktop: https://www.docker.com/products/docker-desktop/"), s)
  else
    let '(built, s) := isImageBuilt env s in
    if built then (Normal false, emit (status (lit "Docker image already built")) s)
    else
      match findProjectRoot env s with
      | Throw e => (Throw e, s)
      | Normal projectRoot =>
          let s :=
            emit (status (lit "Building Docker image (first run " ++ [8212%N]
                          ++ lit " may take a few minutes)...")) s in
          let s :=
            on_outside
              (perform
                 (Spawn (lit "docker")
                    [ lit "build"; lit "--platform"; lit "linux/amd64";
                      lit "-t"; dockerImage (this s);
                      lit "-f"; path_join [projectRoot; lit "bridge"; lit "Dockerfile"];
                      projectRoot ]
                    (build_child env))) s in
          (Normal true, s)
      end.

(** The [close] and [error] handlers of the build process: they settle
    the promise of [buildImage()]. *)
Definition on_build_end (r : build_end) (s : system) : completion unit * system :=
  match r with
  | build_close (Some 0%Z) =>
      (Normal tt, emit (status (lit "Docker image built successfully")) s)
  | build_close code =>
      (Throw (lit "Docker build failed with exit code " ++ code_toString code), s)
  | build_error message =>
      (Throw (lit "Docker build error: " ++ message), s)
  end.

(** [startDocker()] after its [await]. *)
Definition startDocker_resume (env : Env) (s : system) : completion unit * system :=
  let s := execSync (lit "docker rm -f " ++ dockerImage (this s)) s in
  let fw := FrameWriter.new (Options.frameDir (options (this s))) in
  let s := on_this (set_frameWriter (Some fw)) s in
  match FrameWriter.init fw (outside s) with
  | (Throw e, (fw, w)) =>
      (Throw e, on_this (set_frameWriter (Some fw)) (on_outside (fun _ => w) s))
  | (Normal _, (fw, w)) =>
      let s := on_this (set_frameWriter (Some fw)) (on_outside (fun _ => w) s) in
      let args := dockerArgs number_toString (this s) fw in
      let s := console (log_starting_docker args) s in
      let s := emit (status (lit "Starting SmartSpectra container...")) s in
      (Normal tt, spawn (lit "docker") args (bridge_child env) s)
  end.

(** The manager with the calls of [start()] that await their image,
    oldest first. *)
Record state : Type := {
  manager : system;
  starting : list suspended
}.

(** What can happen: an input of the manager, where [call_start] now
    stands for the call up to its [await]; a chunk of output of the
    build process of the [k]-th suspended call; the end of that build
    process; the resumption of the [k]-th suspended call when its image
    was there. While a build process runs, anything can come before the
    call resumes. When the image was there the promise is fulfilled at
    once, and only what is done in the same turn of the event loop comes
    first; the courses below do not tell the two apart and so include
    more than the platform allows in that case. *)
Inductive occurrence : Type :=
| happens (i : input)
| build_data (k : nat) (e : build_event)
| build_ends (k : nat) (r : build_end)
| start_resumes (k : nat).

Definition without (k : nat) (l : list suspended) : list suspended :=
  firstn k l ++ skipn (S k) l.

Definition possible (o : occurrence) (st : state) : bool :=
  match o with
  | happens i => enabled i (manager st)
  | build_data k _ | build_ends k _ =>
      match nth_error (starting st) k with
      | Some p => building p
      | None => false
      end
  | start_resumes k =>
      match nth_error (starting st) k with
      | Some p => negb (building p)
      | None => false
      end
  end.

(** [start()] up to the point where it returns its promise. *)
Definition start_begin (env : Env) (st : state) : state :=
  let s := manager st in
  match process (this s) with
  | Some _ => st
  | None =>
      match mode (this s) with
      | local =>
          {| manager := snd (startLocal number_toString env s);
             starting := starting st |}
      | docker =>
          match startDocker_begin env s with
          | (Throw _, s') => {| manager := s'; starting := starting st |}
          | (Normal b, s') =>
              {| manager := s';
                 starting := starting st ++ [{| answers := env; building := b |}] |}
          end
      end
  end.

(** The [k]-th suspended call resumes. *)
Definition resume (k : nat) (st : state) : state :=
  match nth_error (starting st) k with
  | Some p =>
      {| manager := snd (startDocker_resume (answers p) (manager st));
         starting := without k (starting st) |}
  | None => st
  end.

Definition after (o : occurrence) (st : state) : state :=
  match o with
  | happens (call_start env) => start_begin env st
  | happens i =>
      {| manager := step number_toString JSON_parse i (manager st);
         starting := starting st |}
  | build_data k e =>
      {| manager := on_build_event e (manager st); starting := starting st |}
  | build_ends k r =>
      match on_build_end r (manager st) with
      | (Normal _, s') => resume k {| manager := s'; starting := starting st |}
      | (Throw _, s') => {| manager := s'; starting := without k (starting st) |}
      end
  | start_resumes k => resume k st
  end.

(** A course of occurrences: one that is not possible when its turn
    comes cannot happen. *)
Fixpoint course (os : list occurrence) (st : state) : option state :=
  match os with
  | [] => Some st
  | o :: os' => if possible o st then course os' (after o st) else None
  end.

Definition beginning (opts : Options.t number) (d : FS) : state :=
  {| manager := initial opts d; starting := [] |}.

(** In a course the calls of [start()] do not overlap when none is made
    while another is suspended. *)
Fixpoint one_at_a_time (os : list occurrence) (st : state) : bool :=
  match os with
  | [] => true
  | o :: os' =>
      match o, starting st with
      | happens (call_start _), _ :: _ => false
      | _, _ => one_at_a_time os' (after o st)
      end
  end.

End Turns.

(** What holds along a course in which the calls of [start()] do not
    overlap: the manager is coherent, and while a call is suspended it
    is the only one and no handle is held. *)
Definition serial {number FS} (st : @state number FS) : Prop :=
  coherent (manager st) /\
  (starting st = [] \/
   process (this (manager st)) = None /\ exists p, starting st = [p]).

(** The occurrences that neither call [start()] nor let a suspended call
    go on. *)
Definition no_start (o : occurrence) : bool :=
  match o with
  | happens (call_start _) | build_ends _ _ | start_resumes _ => false
  | _ => true
  end.

End Interleaved.

(** ** Sample data for calls of [start()] that overlap *)

Module Overlap.

(** A disk that holds the sources of the image next to the binary. *)
Definition source_disk : MemFs.t :=
  <[lit "/app/bridge/Dockerfile" := MemFs.File []]>
    (<[lit "/app/bridge" := MemFs.Dir]> (<[lit "/app" := MemFs.Dir]> Sample.disk0)).

(** The platform at a call of [start()] that finds the runtime but not
    the image: the build process gets the handle [build], the process
    of the session the handle [bridge]. *)
Definition image_absent (build bridge : ChildProcess) : BridgeManager.Env :=
  {| BridgeManager.__dirname := lit "/app/dist-electron";
     BridgeManager.FOCUS_BRIDGE_PATH := None;
     BridgeManager.resourcesPath := None;
     BridgeManager.docker_info := true;
     BridgeManager.docker_image_inspect := false;
     BridgeManager.build_child := build;
     BridgeManager.build_events := [];
     BridgeManager.build_result := BridgeManager.build_close (Some 0%Z);
     BridgeManager.bridge_child := bridge |}.

Definition state : Type := @Interleaved.state Z MemFs.t.

Definition course : list Interleaved.occurrence -> state -> option state :=
  Interleaved.course Number_toString JsonReader.JSON_parse.

Definition after : Interleaved.occurrence -> state -> state :=
  Interleaved.after Number_toString JsonReader.JSON_parse.

(** Two calls of [start()], the second made while the first awaits its
    image; the first image is built and the first process reports ready;
    then the second image is built. *)
Definition two_starts : list Interleaved.occurrence :=
  [ Interleaved.happens (BridgeManager.call_start (image_absent 1 2));
    Interleaved.happens (BridgeManager.call_start (image_absent 3 4));
    Interleaved.build_ends 0 (BridgeManager.build_close (Some 0%Z));
    Interleaved.happens (BridgeManager.stdout_data Sample.ready_line);
    Interleaved.build_ends 0 (BridgeManager.build_close (Some 0%Z)) ].

(** A call of [start()] that awaits its image, and [stop()] called
    before it resumes. *)
Definition awaiting : state :=
  after (Interleaved.happens (BridgeManager.call_start Sample.env))
    (Interleaved.beginning (Sample.options Options.docker) Sample.disk0).

End Overlap.

(** ** Zero padding and order *)

Section Padding.

Local Open Scope Z_scope.

Lemma fixed_length w n : length (fixed w n) = w.
Proof.
  revert n; induction w as [|w IH]; intros n; simpl; [reflexivity|].
  rewrite length_app, IH; simpl; lia.
Qed.

Lemma fixed_zero w : fixed w 0 = repeat 48%N w.
Proof.
  induction w as [|w IH]; simpl; [reflexivity|].
  rewrite Z.div_0_l, IH by lia.
  change (digit (0 mod 10)) with 48%N.
  now rewrite <- repeat_cons.
Qed.

Lemma fill_zero n cur :
  (cur = [] \/ cur = [48%N]) ->
  fill n [48%N] cur = repeat 48%N n.
Proof.
  revert cur; induction n as [|n IH]; intros cur Hc; simpl; [reflexivity|].
  destruct Hc as [-> | ->]; rewrite IH; auto.
Qed.

Lemma padStart_zero w s :
  padStart w (lit "0") s = repeat 48%N (w - length s)%nat ++ s.
Proof.
  unfold padStart. destruct (Nat.leb_spec w (length s)) as [Hle|Hlt].
  - replace (w - length s)%nat with 0%nat by lia. reflexivity.
  - change (lit "0") with [48%N]. now rewrite fill_zero by auto.
Qed.

Lemma pow10_S (k : nat) : 10 ^ Z.of_nat (S k) = 10 * 10 ^ Z.of_nat k.
Proof. rewrite Nat2Z.inj_succ, Z.pow_succ_r by lia. reflexivity. Qed.

Lemma pow10_pos (k : nat) : 0 < 10 ^ Z.of_nat k.
Proof. apply Z.pow_pos_nonneg; lia. Qed.

(** Padding the digits of [n] to a width that holds them gives the
    fixed-width expansion. *)
Lemma pad_digits_fuel fuel : forall n (w : nat),
  0 <= n < 10 ^ Z.of_nat fuel -> (1 <= fuel)%nat ->
  n < 10 ^ Z.of_nat w -> (1 <= w)%nat ->
  repeat 48%N (w - length (digits_fuel fuel n))%nat ++ digits_fuel fuel n
  = fixed w n.
Proof.
  induction fuel as [|f IH]; intros n w Hn Hf Hw Hw1.
  - lia.
  - destruct w as [|w]; [lia|].
    simpl digits_fuel. destruct (Z.ltb_spec n 10) as [Hlt|Hge].
    + simpl length. simpl fixed.
      rewrite Z.div_small, Z.mod_small, fixed_zero by lia.
      now replace (S w - 1)%nat with w by lia.
    + rewrite pow10_S in Hn, Hw.
      assert (Hq : 0 <= n / 10 < 10 ^ Z.of_nat f).
      { split; [apply Z.div_pos; lia|]. apply Z.div_lt_upper_bound; lia. }
      assert (Hqw : n / 10 < 10 ^ Z.of_nat w).
      { apply Z.div_lt_upper_bound; lia. }
      assert (Hw' : (1 <= w)%nat).
      { destruct w; [|lia]. simpl in Hqw.
        assert (1 <= n / 10) by (apply Z.div_le_lower_bound; lia). lia. }
      assert (Hf' : (1 <= f)%nat).
      { destruct f; [|lia]. simpl in Hq.
        assert (1 <= n / 10) by (apply Z.div_le_lower_bound; lia). lia. }
      rewrite length_app. simpl length. simpl fixed.
      rewrite <- (IH (n / 10) w Hq Hf' Hqw Hw').
      rewrite <- app_assoc.
      now replace (S w - (length (digits_fuel f (n / 10)) + 1))%nat
        with (w - length (digits_fuel f (n / 10)))%nat by lia.
Qed.

Lemma digits_fuel_enough n : 0 <= n -> n < 10 ^ Z.of_nat (S (Z.to_nat (Z.log2 n))).
Proof.
  intros Hn. destruct (Z.eq_dec n 0) as [->|Hnz].
  - apply pow10_pos.
  - pose proof (Z.log2_spec n ltac:(lia)) as [_ Hup].
    pose proof (Z.log2_nonneg n) as Hl.
    rewrite Nat2Z.inj_succ, Z2Nat.id by lia.
    eapply Z.lt_le_trans; [exact Hup|].
    apply Z.pow_le_mono_l; lia.
Qed.

Lemma padStart_toString (w : nat) n :
  0 <= n < 10 ^ Z.of_nat w -> (1 <= w)%nat ->
  padStart w (lit "0") (Number_toString n) = fixed w n.
Proof.
  intros [Hn Hw] Hw1. unfold Number_toString.
  destruct (Z.ltb_spec n 0); [lia|].
  rewrite padStart_zero. unfold digits.
  apply pad_digits_fuel; auto; [|lia]. split; [lia|]. now apply digits_fuel_enough.
Qed.

(** Comparing strings that share a prefix, or that start with parts of
    equal length. *)
Lemma js_compare_refl a : js_compare a a = Eq.
Proof. induction a as [|x a IH]; simpl; [|rewrite N.compare_refl]; auto. Qed.

Lemma js_compare_prefix p a b : js_compare (p ++ a) (p ++ b) = js_compare a b.
Proof. induction p as [|x p IH]; simpl; [|rewrite N.compare_refl]; auto. Qed.

Lemma js_compare_app a : forall b u v,
  length a = length b ->
  js_compare (a ++ u) (b ++ v) =
  match js_compare a b with Eq => js_compare u v | c => c end.
Proof.
  induction a as [|x a IH]; intros [|y b] u v Hlen; simpl in *; try lia; auto.
  destruct (N.compare x y); auto.
Qed.

Lemma digit_compare d e :
  0 <= d < 10 -> 0 <= e < 10 ->
  js_compare [digit d] [digit e] = Z.compare d e.
Proof.
  intros Hd He. simpl. unfold digit.
  destruct (Z.compare_spec d e) as [->|Hlt|Hgt].
  - now rewrite N.compare_refl.
  - assert (H : (48 + Z.to_N d < 48 + Z.to_N e)%N) by lia.
    apply N.compare_lt_iff in H. now rewrite H.
  - assert (H : (48 + Z.to_N e < 48 + Z.to_N d)%N) by lia.
    apply N.compare_gt_iff in H. now rewrite H.
Qed.

(** Fixed-width expansions compare as the numbers do. *)
Lemma fixed_compare w : forall a b,
  0 <= a < 10 ^ Z.of_nat w -> 0 <= b < 10 ^ Z.of_nat w ->
  js_compare (fixed w a) (fixed w b) = Z.compare a b.
Proof.
  induction w as [|w IH]; intros a b Ha Hb.
  - simpl in *. assert (a = 0) by lia. assert (b = 0) by lia. now subst.
  - rewrite pow10_S in Ha, Hb. simpl fixed.
    rewrite js_compare_app by now rewrite !fixed_length.
    pose proof (Z.div_mod a 10 ltac:(lia)) as Ea.
    pose proof (Z.div_mod b 10 ltac:(lia)) as Eb.
    pose proof (Z.mod_pos_bound a 10 ltac:(lia)) as Ma.
    pose proof (Z.mod_pos_bound b 10 ltac:(lia)) as Mb.
    rewrite IH, digit_compare by
      (try (split; [apply Z.div_pos; lia | apply Z.div_lt_upper_bound; lia]); lia).
    destruct (Z.compare_spec (a / 10) (b / 10)) as [Heq|Hlt|Hgt].
    + destruct (Z.compare_spec (a mod 10) (b mod 10));
        symmetry; [apply Z.compare_eq_iff | apply Z.compare_lt_iff
                  | apply Z.compare_gt_iff]; lia.
    + symmetry; apply Z.compare_lt_iff; lia.
    + symmetry; apply Z.compare_gt_iff; lia.
Qed.

End Padding.

(** C1. The names [writeFrame] gives to two frames compare as their
    timestamps do: for integer microsecond timestamps [t1 < t2] that fit
    the 16-digit field (every non-negative integer below [10 ^ 16], which
    covers every safe integer), the name of [t1] is smaller than the name
    of [t2] in the order on strings. *)
Theorem frame_filename_order (t1 t2 : Z) :
  (0 <= t1)%Z -> (t1 < t2)%Z -> (t2 < 10 ^ 16)%Z ->
  js_lt (FrameWriter.frameFilename (inject_Z t1))
        (FrameWriter.frameFilename (inject_Z t2)).
Proof.
  intros H0 Hlt Hup. unfold js_lt, FrameWriter.frameFilename, Math_floor.
  rewrite !Qfloor_Z.
  rewrite !(padStart_toString 16) by (change (Z.of_nat 16) with 16%Z; lia).
  rewrite js_compare_prefix.
  rewrite js_compare_app by now rewrite !fixed_length.
  rewrite fixed_compare by (change (Z.of_nat 16) with 16%Z; lia).
  now apply Z.compare_lt_iff in Hlt as ->.
Qed.

Lemma frame_filename_order_witness :
  (0 <= 500)%Z /\ (500 < 1000)%Z /\ (1000 < 10 ^ 16)%Z /\
  js_lt (FrameWriter.frameFilename (inject_Z 500))
        (FrameWriter.frameFilename (inject_Z 1000)).
Proof.
  split; [lia | split; [lia | split; [lia |]]].
  apply (frame_filename_order 500 1000); lia.
Defined.

(** ** Lines of text *)

Section Lines.

Variable sep : N.

Local Abbreviation cut := (cut sep).

Lemma split_nonempty s : split sep s <> [].
Proof.
  destruct s as [|c s]; simpl; [discriminate|].
  destruct (c =? sep)%N; [discriminate|].
  destruct (split sep s); discriminate.
Qed.

Lemma pop_app {A} (a b : list A) :
  b <> [] -> pop (a ++ b) = (fst (pop b), a ++ snd (pop b)).
Proof.
  intros Hb. induction a as [|x a IH]; simpl.
  - now destruct (pop b).
  - rewrite IH. destruct (a ++ b) eqn:E; [|reflexivity].
    apply app_eq_nil in E as [_ ->]. contradiction.
Qed.

Lemma pop_cons {A} (x : A) (a : list A) :
  a <> [] -> pop (x :: a) = (fst (pop a), x :: snd (pop a)).
Proof. intros Ha. exact (pop_app [x] a Ha). Qed.

Lemma pop_last_some {A} (a : list A) : a <> [] -> exists x, fst (pop a) = Some x.
Proof.
  induction a as [|x a IH]; intros Ha; [contradiction|].
  destruct a as [|y a]; [now exists x|].
  rewrite pop_cons by discriminate. apply IH. discriminate.
Qed.

Lemma pop_last_in {A} (a : list A) x : fst (pop a) = Some x -> In x a.
Proof.
  induction a as [|y a IH]; intros Hx; [discriminate|].
  destruct a as [|z a].
  - simpl in Hx. injection Hx as ->. now left.
  - rewrite pop_cons in Hx by discriminate. right. now apply IH.
Qed.

(** No segment of [split] holds the separator. *)
Lemma split_segments s : Forall (fun seg => ~ In sep seg) (split sep s).
Proof.
  induction s as [|c s IH]; simpl.
  - constructor; [intros []|constructor].
  - destruct (N.eqb_spec c sep) as [->|Hne].
    + constructor; [intros []|exact IH].
    + destruct (split sep s) as [|seg segs]; inversion IH; subst.
      * constructor; [|constructor]. intros [?|[]]. congruence.
      * constructor; [|assumption]. intros [?|?]; [congruence|contradiction].
Qed.

Lemma or_default_some l : or_default (Some l) [] = l.
Proof. now destruct l. Qed.

Lemma cut_nil : cut [] = ([], []).
Proof. reflexivity. Qed.

Lemma cut_cons_sep s : cut (sep :: s) = ([] :: fst (cut s), snd (cut s)).
Proof.
  unfold cut. simpl. rewrite N.eqb_refl.
  rewrite pop_cons by apply split_nonempty.
  now destruct (pop (split sep s)).
Qed.

Lemma cut_cons_other c s :
  c <> sep ->
  cut (c :: s) =
  match fst (cut s) with
  | [] => ([], c :: snd (cut s))
  | l :: ls => ((c :: l) :: ls, snd (cut s))
  end.
Proof.
  intros Hne. unfold cut. simpl.
  destruct (N.eqb_spec c sep) as [|_]; [contradiction|].
  pose proof (split_nonempty s) as Hs.
  destruct (split sep s) as [|seg segs]; [contradiction|].
  destruct segs as [|seg' segs].
  - simpl. now destruct seg.
  - rewrite (pop_cons (c :: seg)) by discriminate.
    rewrite (pop_cons seg) by discriminate.
    unfold jsstring in *. now destruct (pop (seg' :: segs)).
Qed.

(** Cutting a text in two pieces: the second piece continues the line
    the first one left open. *)
Lemma cut_app a b :
  cut (a ++ b) =
  (fst (cut a) ++ fst (cut (snd (cut a) ++ b)), snd (cut (snd (cut a) ++ b))).
Proof.
  induction a as [|c a IH].
  - simpl. now destruct (cut b).
  - simpl app. destruct (N.eq_dec c sep) as [->|Hne].
    + rewrite !cut_cons_sep, IH. reflexivity.
    + rewrite !(cut_cons_other c) by assumption. rewrite IH.
      destruct (fst (cut a)) as [|l ls]; simpl.
      * rewrite (cut_cons_other c) by assumption.
        now destruct (fst (cut (snd (cut a) ++ b))).
      * reflexivity.
Qed.

Lemma cut_rest_no_sep s : ~ In sep (snd (cut s)).
Proof.
  unfold cut. pose proof (split_nonempty s) as Hs.
  destruct (pop_last_some _ Hs) as [l Hl].
  pose proof (pop_last_in _ _ Hl) as Hin.
  destruct (pop (split sep s)) as [last lines]. simpl in *. subst last.
  rewrite or_default_some.
  pose proof (split_segments s) as Hall. rewrite List.Forall_forall in Hall.
  now apply Hall.
Qed.

Lemma cut_no_sep s : ~ In sep s -> cut s = ([], s).
Proof.
  induction s as [|c s IH]; intros Hs; [reflexivity|].
  rewrite cut_cons_other by (intros ->; apply Hs; now left).
  rewrite IH by (intros Hin; apply Hs; now right). reflexivity.
Qed.

(** A line that ends with the separator is cut off whole. *)
Lemma cut_line l s :
  ~ In sep l -> cut (l ++ sep :: s) = (l :: fst (cut s), snd (cut s)).
Proof.
  induction l as [|c l IH]; intros Hl; simpl app.
  - apply cut_cons_sep.
  - rewrite cut_cons_other by (intros ->; apply Hl; now left).
    rewrite IH by (intros Hin; apply Hl; now right). reflexivity.
Qed.

End Lines.

(** ** The codec: [processLines] and the chunks of a stream *)

Section Codec.

Context {number : Type} {FS : Type}.
Variable JSON_parse : jsstring -> option json.

Import BridgeManager.

Local Abbreviation system := (@BridgeManager.system number FS).
Local Abbreviation handleMessage := (@BridgeManager.handleMessage number FS).
Local Abbreviation processLine := (@BridgeManager.processLine number FS JSON_parse).
Local Abbreviation processLines := (@BridgeManager.processLines number FS JSON_parse).
Local Abbreviation on_text := (@BridgeManager.on_text number FS JSON_parse).
Local Abbreviation on_stdout_data := (@BridgeManager.on_stdout_data number FS JSON_parse).
Local Abbreviation receive := (@BridgeManager.receive number FS JSON_parse).
Local Abbreviation drive := (@BridgeManager.drive number FS JSON_parse).
Local Abbreviation set_buffer b := (BridgeManager.on_this (BridgeManager.set_lineBuffer b)).

Lemma handleMessage_buffer m b (s : system) :
  handleMessage m (set_buffer b s) =
  (fst (handleMessage m s), set_buffer b (snd (handleMessage m s))).
Proof.
  unfold BridgeManager.handleMessage.
  destruct (get (Some m) (lit "type")) as [type|e]; [|reflexivity].
  repeat (match goal with
          | |- context [if ?c then _ else _] => destruct c
          | |- context [match get ?d ?k with _ => _ end] => destruct (get d k)
          end; try reflexivity).
Qed.

Lemma processLine_buffer line b (s : system) :
  processLine line (set_buffer b s) = set_buffer b (processLine line s).
Proof.
  unfold BridgeManager.processLine.
  destruct (trim line); [reflexivity|].
  destruct (JSON_parse _) as [m|]; [|reflexivity].
  rewrite handleMessage_buffer.
  destruct (handleMessage m s) as [[u|e] s']; reflexivity.
Qed.

Lemma handleMessage_lineBuffer m (s : system) :
  lineBuffer (this (snd (handleMessage m s))) = lineBuffer (this s).
Proof.
  unfold BridgeManager.handleMessage.
  destruct (get (Some m) (lit "type")) as [type|e]; [|reflexivity].
  repeat (match goal with
          | |- context [if ?c then _ else _] => destruct c
          | |- context [match get ?d ?k with _ => _ end] => destruct (get d k)
          end; try reflexivity).
Qed.

Lemma processLine_lineBuffer line (s : system) :
  lineBuffer (this (processLine line s)) = lineBuffer (this s).
Proof.
  unfold BridgeManager.processLine.
  destruct (trim line); [reflexivity|].
  destruct (JSON_parse _) as [m|]; [|reflexivity].
  pose proof (handleMessage_lineBuffer m s) as Hm.
  destruct (handleMessage m s) as [[u|e] s']; exact Hm.
Qed.

Lemma fold_processLine_buffer lines b (s : system) :
  fold_left (fun s line => processLine line s) lines (set_buffer b s) =
  set_buffer b (fold_left (fun s line => processLine line s) lines s).
Proof.
  revert s; induction lines as [|l lines IH]; intros s; simpl; [reflexivity|].
  now rewrite processLine_buffer, IH.
Qed.

Lemma drive_lineBuffer lines rest (s : system) :
  lineBuffer (this (drive lines rest s)) = rest.
Proof.
  unfold BridgeManager.drive. rewrite fold_processLine_buffer. reflexivity.
Qed.

Lemma processLines_drive (s : system) :
  processLines s =
  drive (fst (cut newline (lineBuffer (this s))))
        (snd (cut newline (lineBuffer (this s)))) s.
Proof.
  unfold BridgeManager.processLines, BridgeManager.drive, cut.
  now destruct (pop (split newline (lineBuffer (this s)))).
Qed.

Lemma on_text_drive text (s : system) :
  on_text text s =
  drive (fst (cut newline (lineBuffer (this s) ++ text)))
        (snd (cut newline (lineBuffer (this s) ++ text))) s.
Proof.
  unfold BridgeManager.on_text. rewrite processLines_drive.
  unfold BridgeManager.drive. reflexivity.
Qed.

Lemma drive_drive l1 r1 l2 r2 (s : system) :
  drive l2 r2 (drive l1 r1 s) = drive (l1 ++ l2) r2 s.
Proof.
  unfold BridgeManager.drive. rewrite fold_left_app. f_equal.
  rewrite !fold_processLine_buffer. reflexivity.
Qed.

Lemma on_text_lineBuffer text (s : system) :
  lineBuffer (this (on_text text s)) =
  snd (cut newline (lineBuffer (this s) ++ text)).
Proof. now rewrite on_text_drive, drive_lineBuffer. Qed.

(** Two pieces of text, one after the other, are handled as the text
    they make together. *)
Lemma on_text_app a b (s : system) :
  on_text b (on_text a s) = on_text (a ++ b) s.
Proof.
  rewrite (on_text_drive (a ++ b) s), app_assoc.
  rewrite (cut_app newline (lineBuffer (this s) ++ a) b). cbn [fst snd].
  rewrite <- drive_drive
    with (r1 := snd (cut newline (lineBuffer (this s) ++ a))).
  rewrite <- (on_text_drive a s).
  rewrite (on_text_drive b (on_text a s)), on_text_lineBuffer.
  reflexivity.
Qed.

Lemma on_stdout_data_text chunk (s : system) :
  on_stdout_data chunk s = on_text (Buffer_toString chunk) s.
Proof. reflexivity. Qed.

Lemma receive_text chunks : forall (s : system),
  chunks <> [] ->
  receive chunks s = on_text (concat (map Buffer_toString chunks)) s.
Proof.
  unfold BridgeManager.receive.
  induction chunks as [|c chunks IH]; intros s Hne; [contradiction|].
  simpl. destruct chunks as [|c' chunks].
  - simpl. now rewrite app_nil_r.
  - rewrite IH by discriminate. rewrite on_stdout_data_text.
    apply on_text_app.
Qed.

(** However a stream is cut into chunks, what counts is the text the
    chunks decode to. *)
Lemma receive_same_text chunks whole (s : system) :
  chunks <> [] ->
  concat (map Buffer_toString chunks) = Buffer_toString whole ->
  receive chunks s = on_stdout_data whole s.
Proof.
  intros Hne Htext. rewrite receive_text, Htext by assumption. reflexivity.
Qed.

(** The buffer after a chunk holds no line terminator. *)
Lemma on_text_no_newline text (s : system) :
  ~ In newline (lineBuffer (this (on_text text s))).
Proof. rewrite on_text_drive, drive_lineBuffer. apply cut_rest_no_sep. Qed.

End Codec.

(** ** What the methods leave alone *)

Section Frames.

Context {number : Type} (number_toString : number -> jsstring).
Context {FS : Type} `{Fs FS}.
Variable JSON_parse : jsstring -> option json.

Import BridgeManager.

Local Abbreviation system := (@BridgeManager.system number FS).
Local Abbreviation start := (@BridgeManager.start number number_toString FS _).
Local Abbreviation stop := (@BridgeManager.stop number FS _).
Local Abbreviation step := (@BridgeManager.step number number_toString FS _ JSON_parse).
Local Abbreviation run := (@BridgeManager.run number number_toString FS _ JSON_parse).
Local Abbreviation processLine := (@BridgeManager.processLine number FS JSON_parse).
Local Abbreviation on_text := (@BridgeManager.on_text number FS JSON_parse).
Local Abbreviation drive := (@BridgeManager.drive number FS JSON_parse).

Lemma evolves_refl P (s : system) : evolves P s s.
Proof.
  repeat split. exists []. now rewrite app_nil_r.
Qed.

Lemma evolves_trans P (s1 s2 s3 : system) :
  evolves P s1 s2 -> evolves P s2 s3 -> evolves P s1 s3.
Proof.
  intros (Hb & Hr & a & Ha & Pa) (Hb' & Hr' & a' & Ha' & Pa').
  repeat split; [congruence..|].
  exists (a ++ a'). rewrite Ha', Ha, app_assoc, forallb_app, Pa, Pa'. auto.
Qed.

Lemma evolves_snoc P e (s s' : system) :
  evolves P s s' -> P e = true -> evolves P s (on_outside (perform e) s').
Proof.
  intros (Hb & Hr & a & Ha & Pa) He. repeat split; auto.
  exists (a ++ [e]). simpl. rewrite Ha, app_assoc, forallb_app, Pa. simpl.
  now rewrite He.
Qed.

Lemma evolves_this P (f : BridgeManager.t -> BridgeManager.t) (s s' : system) :
  evolves P s s' ->
  (forall m, lineBuffer (f m) = lineBuffer m /\ isReady (f m) = isReady m) ->
  evolves P s (on_this f s').
Proof.
  intros (Hb & Hr & a & Ha & Pa) Hf. destruct (Hf (this s')) as [Hfb Hfr].
  repeat split; simpl; [congruence..|]. now exists a.
Qed.

Lemma evolves_outside_grow P (f : world FS -> world FS) added (s s' : system) :
  evolves P s s' ->
  trace (f (outside s')) = trace (outside s') ++ added ->
  forallb P added = true ->
  evolves P s (on_outside f s').
Proof.
  intros (Hb & Hr & a & Ha & Pa) Hw Padd. repeat split; auto.
  exists (a ++ added). simpl. rewrite Hw, Ha, app_assoc, forallb_app, Pa, Padd.
  auto.
Qed.

Lemma evolves_outside P (f : world FS -> world FS) (s s' : system) :
  evolves P s s' -> trace (f (outside s')) = trace (outside s') ->
  evolves P s (on_outside f s').
Proof.
  intros Hs Hw. apply (evolves_outside_grow P f []); auto.
  now rewrite app_nil_r.
Qed.

Lemma evolves_timers P n (s s' : system) :
  evolves P s s' -> evolves P s (set_timers n s').
Proof. intros (Hb & Hr & a & Ha & Pa). repeat split; auto. now exists a. Qed.

Lemma evolves_weaken (P Q : effect -> bool) (s s' : system) :
  (forall e, P e = true -> Q e = true) -> evolves P s s' -> evolves Q s s'.
Proof.
  intros HPQ (Hb & Hr & a & Ha & Pa). repeat split; auto.
  exists a. split; [assumption|].
  rewrite forallb_forall in *. auto.
Qed.

(** A step that touches neither the buffer, nor the flag, nor the
    trace. *)
Lemma evolves_silent P (s s' : system) :
  lineBuffer (this s') = lineBuffer (this s) ->
  isReady (this s') = isReady (this s) ->
  trace (outside s') = trace (outside s) ->
  evolves P s s'.
Proof.
  intros Hb Hr Ht. repeat split; auto. exists []. now rewrite app_nil_r.
Qed.

Lemma quiet_not_ready e : quiet e = true -> not_ready e = true.
Proof. destruct e as [[]| | | | |]; simpl; congruence. Qed.

(** *** The frame writer and the trace *)

Lemma clearFrames_trace fw (w : world FS) :
  trace (FrameWriter.clearFrames fw w) = trace w.
Proof.
  unfold FrameWriter.clearFrames. now destruct (readdirSync _ _).
Qed.

Lemma init_trace fw (w : world FS) :
  trace (snd (snd (FrameWriter.init fw w))) = trace w.
Proof.
  unfold FrameWriter.init.
  destruct (negb _); [destruct (mkdirSync _ _) as [[u|e] d]|]; simpl;
    try rewrite clearFrames_trace; reflexivity.
Qed.

Lemma cleanup_trace fw (w : world FS) :
  trace (snd (FrameWriter.cleanup fw w)) = trace w.
Proof. reflexivity. Qed.

Lemma writeEndOfStream_trace fw (w : world FS) :
  trace (FrameWriter.writeEndOfStream fw w) = trace w.
Proof. reflexivity. Qed.

Lemma writeFrame_trace ts data fw (w : world FS) :
  exists added,
    trace (snd (snd (FrameWriter.writeFrame ts data fw w))) = trace w ++ added
    /\ forallb quiet added = true.
Proof.
  unfold FrameWriter.writeFrame. destruct (negb _).
  - exists []. now rewrite app_nil_r.
  - destruct (writeFileSync _ _ _) as [[u|e] d]; simpl.
    + exists []. now rewrite app_nil_r.
    + eexists [_]. split; reflexivity.
Qed.

(** *** Start *)

Ltac evolve :=
  repeat first
    [ assumption
    | apply evolves_refl
    | apply evolves_snoc; [|reflexivity]
    | apply evolves_this; [|intros ?; split; reflexivity]
    | apply evolves_timers
    | apply evolves_outside; [|first [reflexivity | assumption]] ].

Lemma on_build_event_evolves P e (s0 s : system) :
  (forall e, quiet e = true -> P e = true) ->
  evolves P s0 s -> evolves P s0 (on_build_event e s).
Proof.
  intros HP Hs.
  destruct e as [chunk|chunk]; simpl; destruct (trim _); try assumption.
  - apply evolves_snoc; [apply evolves_snoc|]; auto.
  - apply evolves_snoc; auto.
Qed.

Lemma build_events_evolve P events : forall (s0 s : system),
  (forall e, quiet e = true -> P e = true) ->
  evolves P s0 s ->
  evolves P s0 (fold_left (fun s e => on_build_event e s) events s).
Proof.
  induction events as [|e events IH]; intros s0 s HP Hs; simpl; auto.
  apply IH; auto. now apply on_build_event_evolves.
Qed.

Lemma buildImage_evolves env (s0 s : system) :
  evolves not_ready s0 s -> evolves not_ready s0 (snd (buildImage env s)).
Proof.
  intros Hs. unfold buildImage, isImageBuilt.
  destruct (docker_image_inspect env); [cbn [snd]; evolve|].
  destruct (findProjectRoot _ _) as [root|e]; [|cbn [snd]; evolve].
  match goal with
  | |- context [fold_left ?f ?l ?c] =>
      assert (Hc : evolves not_ready s0 (fold_left f l c))
        by (apply build_events_evolve; [apply quiet_not_ready|evolve]);
      generalize dependent (fold_left f l c)
  end.
  intros c Hc.
  destruct (build_result env) as [[[|p|p]|]|m]; cbn [snd]; evolve.
Qed.

Lemma start_guard env (s : system) child :
  process (this s) = Some child ->
  start env s = (Throw (lit "Bridge is already running"), s).
Proof. intros Hp. unfold BridgeManager.start. now rewrite Hp. Qed.

Lemma startDocker_evolves env (s : system) :
  evolves not_ready s (snd (startDocker number_toString env s)).
Proof.
  unfold startDocker, isDockerAvailable.
  destruct (negb (docker_info env)); [cbn [snd]; evolve|].
  match goal with
  | |- context [buildImage env ?c] =>
      assert (Hb : evolves not_ready s (snd (buildImage env c)))
        by (apply buildImage_evolves; evolve);
      destruct (buildImage env c) as [[u|e] s2]
  end; cbn [snd] in Hb; [|exact Hb].
  match goal with
  | |- context [FrameWriter.init ?fw ?w] =>
      pose proof (init_trace fw w) as Hi;
      destruct (FrameWriter.init fw w) as [[u'|e] [fw' w']]
  end; cbn [snd] in Hi; cbn [snd]; unfold spawn; evolve.
Qed.

Lemma startLocal_evolves env (s : system) :
  evolves not_ready s (snd (startLocal number_toString env s)).
Proof.
  unfold startLocal.
  destruct (findBridgePath env s); cbn [snd]; unfold spawn; evolve.
Qed.

Lemma start_evolves env (s : system) :
  evolves not_ready s (snd (start env s)).
Proof.
  unfold BridgeManager.start. destruct (process (this s)); [cbn [snd]; evolve|].
  destruct (mode (this s)); [apply startDocker_evolves|apply startLocal_evolves].
Qed.

(** *** Stop, the timer, and the handlers that only report *)

Lemma stop_evolves (s : system) : evolves quiet s (snd (stop s)).
Proof.
  unfold BridgeManager.stop.
  set (s1 := match _frameWriter (this s) with Some fw => _ | None => _ end).
  assert (H1 : evolves quiet s s1)
    by (subst s1; destruct (_frameWriter (this s)); evolve).
  clearbody s1.
  set (s2 := match process (this s1) with Some child => _ | None => _ end).
  assert (H2 : evolves quiet s s2).
  { subst s2. destruct (process (this s1)); [destruct (mode _)|]; evolve. }
  clearbody s2.
  destruct (_frameWriter (this s2)) as [fw|]; [|cbn [snd]; evolve].
  pose proof (cleanup_trace fw (outside s2)) as Hc.
  destruct (FrameWriter.cleanup fw (outside s2)) as [fw' w].
  cbn [snd] in *. evolve.
Qed.

Lemma stop_process (s : system) :
  process (this (snd (stop s))) = process (this s).
Proof.
  unfold BridgeManager.stop.
  destruct s as [[p lb r fw di mo op] w ti]. cbn -[lit].
  destruct fw, p; try destruct mo; reflexivity.
Qed.

Lemma force_kill_evolves (s0 s : system) :
  evolves quiet s0 s -> evolves quiet s0 (force_kill s).
Proof.
  intros Hs. unfold force_kill. destruct (process (this s)); evolve.
Qed.

Lemma force_kill_process (s : system) :
  process (this (force_kill s)) = process (this s).
Proof.
  unfold force_kill. destruct s as [[p lb r fw di mo op] w ti].
  now destruct p.
Qed.

Lemma main_writeFrame_evolves ts data (s : system) :
  evolves quiet s (main_writeFrame ts data s).
Proof.
  unfold main_writeFrame, frameWriter.
  destruct (_frameWriter (this s)) as [fw|]; [|evolve].
  destruct (writeFrame_trace ts data fw (outside s)) as (added & Ha & Pa).
  destruct (FrameWriter.writeFrame ts data fw (outside s)) as [c [fw' w]].
  cbn [snd] in *. apply evolves_this; [|intros ?; split; reflexivity].
  eapply evolves_outside_grow; eauto. evolve.
Qed.

Lemma main_writeFrame_process ts data (s : system) :
  process (this (main_writeFrame ts data s)) = process (this s).
Proof.
  unfold main_writeFrame, frameWriter.
  destruct (_frameWriter (this s)) as [fw|]; [|reflexivity].
  now destruct (FrameWriter.writeFrame ts data fw (outside s)) as [c [fw' w]].
Qed.

Lemma on_stderr_data_evolves chunk (s : system) :
  evolves quiet s (on_stderr_data chunk s).
Proof. unfold on_stderr_data. destruct (trim _); evolve. Qed.

Lemma on_stderr_data_process chunk (s : system) :
  process (this (on_stderr_data chunk s)) = process (this s).
Proof. unfold on_stderr_data. now destruct (trim _). Qed.

Lemma on_error_evolves err (s : system) : evolves quiet s (on_error err s).
Proof. unfold on_error. evolve. Qed.

(** *** The ready flag and the trace *)

Lemma ready_since_quiet l older :
  forallb quiet l = true -> ready_since (l ++ older) = ready_since older.
Proof.
  induction l as [|e l IH]; simpl; [reflexivity|].
  intros Hq. apply andb_prop in Hq as [He Hl].
  destruct e as [[]| | | | |]; simpl in *; try discriminate; auto.
Qed.

Lemma ready_since_not_ready l older :
  ready_since older = false -> forallb not_ready l = true ->
  ready_since (l ++ older) = false.
Proof.
  intros Ho. induction l as [|e l IH]; simpl; [auto|].
  intros Hq. apply andb_prop in Hq as [He Hl].
  destruct e as [[]| | | | |]; simpl in *; try discriminate; auto.
Qed.

Lemma forallb_rev {A} (P : A -> bool) l :
  forallb P l = true -> forallb P (rev l) = true.
Proof.
  rewrite !forallb_forall. intros Hl x Hx. apply Hl. now apply in_rev.
Qed.

Lemma ready_in_session_quiet tr added :
  forallb quiet added = true ->
  ready_in_session (tr ++ added) = ready_in_session tr.
Proof.
  intros Hq. unfold ready_in_session. rewrite rev_app_distr.
  apply ready_since_quiet. now apply forallb_rev.
Qed.

Lemma ready_in_session_not_ready tr added :
  ready_in_session tr = false -> forallb not_ready added = true ->
  ready_in_session (tr ++ added) = false.
Proof.
  intros Hf Hq. unfold ready_in_session. rewrite rev_app_distr.
  apply ready_since_not_ready; auto. now apply forallb_rev.
Qed.

Lemma ready_in_session_snoc tr e :
  ready_in_session (tr ++ [e]) = ready_since (e :: rev tr).
Proof. unfold ready_in_session. now rewrite rev_app_distr. Qed.

Lemma coherent_evolves_quiet (s s' : system) :
  coherent s -> evolves quiet s s' ->
  process (this s') = process (this s) -> coherent s'.
Proof.
  intros (I1 & I2 & I3) (Hb & Hr & a & Ha & Pa) Hp.
  repeat split.
  - rewrite Hp, Hr. exact I1.
  - now rewrite Hr, Ha, ready_in_session_quiet.
  - now rewrite Hb.
Qed.

(** *** One line of the stream *)

Lemma processLine_summary line (s : system) :
  processLine line s = s \/
  (exists e, quiet e = true /\ processLine line s = on_outside (perform e) s) \/
  processLine line s = emit ev_ready (on_this (set_isReady true) s).
Proof.
  unfold BridgeManager.processLine.
  destruct (trim line) as [|c t]; [now left|].
  destruct (JSON_parse _) as [m|];
    [|right; left; eexists; split; [|reflexivity]; reflexivity].
  unfold BridgeManager.handleMessage.
  destruct (get (Some m) (lit "type")) as [type|e];
    [|right; left; eexists; split; [|reflexivity]; reflexivity].
  repeat (match goal with
          | |- context [if ?c then _ else _] => destruct c
          | |- context [match get ?d ?k with _ => _ end] => destruct (get d k)
          end;
          try (now right; right);
          try (right; left; eexists; split; [|reflexivity]; reflexivity)).
Qed.

Lemma processLine_keeps line (s : system) :
  process (this (processLine line s)) = process (this s) /\
  (isReady (this s) = true -> isReady (this (processLine line s)) = true) /\
  (isReady (this s) = ready_in_session (trace (outside s)) ->
   isReady (this (processLine line s))
   = ready_in_session (trace (outside (processLine line s)))).
Proof.
  destruct (processLine_summary line s) as [->|[(e & He & ->)| ->]].
  - auto.
  - simpl. repeat split; auto. intros ->.
    symmetry. apply (ready_in_session_quiet _ [e]). simpl. now rewrite He.
  - simpl. repeat split; auto. intros _.
    now rewrite ready_in_session_snoc.
Qed.

Lemma fold_processLine_keeps lines : forall (s : system),
  let s' := fold_left (fun s line => processLine line s) lines s in
  process (this s') = process (this s) /\
  (isReady (this s) = true -> isReady (this s') = true) /\
  (isReady (this s) = ready_in_session (trace (outside s)) ->
   isReady (this s') = ready_in_session (trace (outside s'))).
Proof.
  induction lines as [|l lines IH]; intros s; simpl; [auto|].
  destruct (processLine_keeps l s) as (P1 & P2 & P3).
  destruct (IH (processLine l s)) as (Q1 & Q2 & Q3).
  simpl in *. repeat split; [congruence|auto|auto].
Qed.

Lemma on_text_keeps text (s : system) :
  process (this (on_text text s)) = process (this s) /\
  (isReady (this s) = true -> isReady (this (on_text text s)) = true) /\
  (isReady (this s) = ready_in_session (trace (outside s)) ->
   isReady (this (on_text text s))
   = ready_in_session (trace (outside (on_text text s)))).
Proof.
  rewrite (on_text_drive JSON_parse). unfold BridgeManager.drive.
  match goal with
  | |- context [fold_left ?f ?l ?c] =>
      pose proof (fold_processLine_keeps l c) as Hk
  end.
  exact Hk.
Qed.

(** *** Runs *)

Lemma coherent_step i (s : system) :
  coherent s -> enabled i s = true -> coherent (step i s).
Proof.
  intros Hs He. destruct i as [env| |ts data|chunk|chunk|code|err|]; simpl.
  - destruct (process (this s)) as [child|] eqn:Hp.
    + now rewrite (start_guard env s child Hp).
    + destruct Hs as (I1 & I2 & I3).
      destruct (start_evolves env s) as (Hb & Hr & a & Ha & Pa).
      repeat split.
      * intros _. rewrite Hr. auto.
      * rewrite Hr, Ha, I1 by assumption. symmetry.
        apply ready_in_session_not_ready; auto.
        rewrite <- I2. auto.
      * now rewrite Hb.
  - eapply coherent_evolves_quiet; eauto using stop_evolves, stop_process.
  - eapply coherent_evolves_quiet;
      eauto using main_writeFrame_evolves, main_writeFrame_process.
  - destruct Hs as (I1 & I2 & I3).
    change (on_stdout_data JSON_parse chunk s)
      with (on_text (Buffer_toString chunk) s).
    destruct (on_text_keeps (Buffer_toString chunk) s) as (K1 & K2 & K3).
    repeat split.
    + rewrite K1. unfold enabled, attached in He.
      destruct (process (this s)); [discriminate|discriminate].
    + auto.
    + apply on_text_no_newline.
  - eapply coherent_evolves_quiet;
      eauto using on_stderr_data_evolves, on_stderr_data_process.
  - destruct Hs as (I1 & I2 & I3). repeat split; simpl.
    + now rewrite !ready_in_session_snoc.
    + exact I3.
  - eapply coherent_evolves_quiet; eauto using on_error_evolves.
  - eapply coherent_evolves_quiet.
    + exact Hs.
    + apply force_kill_evolves. evolve.
    + now rewrite force_kill_process.
Qed.

Lemma coherent_run inputs : forall (s s' : system),
  coherent s -> run inputs s = Some s' -> coherent s'.
Proof.
  induction inputs as [|i inputs IH]; intros s s' Hs Hrun; simpl in Hrun.
  - now injection Hrun as <-.
  - destruct (enabled i s) eqn:He; [|discriminate].
    eapply IH; [|exact Hrun]. now apply coherent_step.
Qed.

Lemma coherent_initial (opts : Options.t number) (d : FS) :
  coherent (initial opts d).
Proof. repeat split; auto. Qed.

(** An input other than the exit of the process leaves a running manager
    running. *)
Lemma step_keeps_running i (s : system) :
  running (this s) = true -> not_close i = true ->
  running (this (step i s)) = true.
Proof.
  unfold running at 1. intros Hr Hi.
  destruct (process (this s)) as [child|] eqn:Hp; [|discriminate].
  assert (Hk : forall s' : system,
             process (this s') = process (this s) ->
             isReady (this s') = true -> running (this s') = true).
  { intros s' Hp' Hr'. unfold running. now rewrite Hp', Hp. }
  destruct i as [env| |ts data|chunk|chunk|code|err|]; simpl;
    try discriminate.
  - rewrite (start_guard env s child Hp). apply Hk; auto.
  - apply Hk; [apply stop_process|].
    destruct (stop_evolves s) as (_ & -> & _). exact Hr.
  - apply Hk; [apply main_writeFrame_process|].
    destruct (main_writeFrame_evolves ts data s) as (_ & -> & _). exact Hr.
  - change (on_stdout_data JSON_parse chunk s)
      with (on_text (Buffer_toString chunk) s).
    destruct (on_text_keeps (Buffer_toString chunk) s) as (K1 & K2 & _).
    apply Hk; auto.
  - apply Hk; [apply on_stderr_data_process|].
    destruct (on_stderr_data_evolves chunk s) as (_ & -> & _). exact Hr.
  - apply Hk; auto.
  - apply Hk; [now rewrite force_kill_process|].
    destruct (force_kill_evolves (set_timers (pred (timers s)) s)
                (set_timers (pred (timers s)) s)) as (_ & -> & _);
      [evolve|exact Hr].
Qed.

Lemma run_keeps_running inputs : forall (s s' : system),
  running (this s) = true -> forallb not_close inputs = true ->
  run inputs s = Some s' -> running (this s') = true.
Proof.
  induction inputs as [|i inputs IH]; intros s s' Hr Hi Hrun; simpl in *.
  - now injection Hrun as <-.
  - apply andb_prop in Hi as [Hi Hrest].
    destruct (enabled i s); [|discriminate].
    eapply IH; [|exact Hrest|exact Hrun]. now apply step_keeps_running.
Qed.

Lemma stop_idle (s : system) :
  process (this s) = None -> _frameWriter (this s) = None ->
  stop s = (Normal tt, s).
Proof.
  intros Hp Hf. unfold BridgeManager.stop. now rewrite Hf, Hp, Hf.
Qed.

Lemma receive_no_newline chunks : forall (s : system),
  ~ In newline (lineBuffer (this s)) ->
  ~ In newline (lineBuffer (this (receive JSON_parse chunks s))).
Proof.
  unfold receive.
  induction chunks as [|c chunks IH]; intros s Hs; simpl; [exact Hs|].
  apply IH. apply (on_text_no_newline JSON_parse).
Qed.

(** C4. For every state in which the manager holds a process handle,
    [start()] throws "Bridge is already running" and leaves the manager
    (process handle, ready flag, frame writer, decode buffer) and its
    surroundings as they were. *)
Theorem start_when_active_is_rejected env (s : system) child :
  process (this s) = Some child ->
  start env s = (Throw (lit "Bridge is already running"), s).
Proof. exact (start_guard env s child). Qed.

(** C5. On a manager that was never started, [stop()] returns normally
    and changes nothing, the first time and the second time. *)
Theorem stop_before_start_is_noop (opts : Options.t number) (d : FS) :
  stop (initial opts d) = (Normal tt, initial opts d) /\
  stop (snd (stop (initial opts d))) = (Normal tt, initial opts d).
Proof.
  assert (H1 : stop (initial opts d) = (Normal tt, initial opts d))
    by now apply stop_idle.
  split; [exact H1|]. rewrite H1. exact H1.
Qed.

(** The close handler clears the handle and the ready flag, logs the
    exit and emits the close notification with the exit code it was
    given; [running] is false after it. *)
Lemma on_close_ends_session (s : system) code :
  process (this (on_close code s)) = None /\
  isReady (this (on_close code s)) = false /\
  trace (outside (on_close code s))
  = trace (outside s) ++ [Console (log_exited code); Emit (ev_close code)] /\
  running (this (on_close code s)) = false.
Proof.
  unfold on_close, emit, console, on_outside, on_this.
  simpl. rewrite <- app_assoc. auto.
Qed.

(** C9. In every state a run reaches, and after any further chunks of
    output, the decode buffer holds no line terminator. *)
Theorem buffer_holds_no_line_terminator
    (opts : Options.t number) (d : FS) inputs (s : system) chunks :
  run inputs (initial opts d) = Some s ->
  ~ In newline (lineBuffer (this (receive JSON_parse chunks s))).
Proof.
  intros Hrun. apply receive_no_newline.
  now destruct (coherent_run inputs _ _ (coherent_initial opts d) Hrun)
    as (_ & _ & I3).
Qed.

(** C10. [stop()] changes neither the process handle nor the ready flag;
    so a manager that was running when [stop()] was called is still
    running after it, whatever happens next, until the exit of the
    process is observed. *)
Theorem stop_leaves_running (s : system) :
  process (this (snd (stop s))) = process (this s) /\
  isReady (this (snd (stop s))) = isReady (this s) /\
  (running (this s) = true ->
   forall inputs (s' : system),
     forallb not_close inputs = true ->
     run inputs (snd (stop s)) = Some s' ->
     running (this s') = true).
Proof.
  split; [apply stop_process|].
  destruct (stop_evolves s) as (_ & Hr & _).
  split; [exact Hr|].
  intros Hrun inputs s' Hi Hs'.
  eapply run_keeps_running; [|exact Hi|exact Hs'].
  unfold running in *. now rewrite stop_process, Hr.
Qed.

(** *** Lines that are records and lines that are not *)

Lemma handleMessage_dispatched m n (s : system) :
  dispatched m = Some n ->
  handleMessage m s = (Normal tt, emit n (noted n s)).
Proof.
  unfold dispatched, BridgeManager.handleMessage.
  destruct m as [| | | | |members]; try discriminate.
  cbn [get].
  destruct (member (lit "type") members) as [[| | |tag| |]|]; try discriminate.
  cbn [is_string].
  repeat (match goal with
          | |- context [js_eqb tag ?t] => destruct (js_eqb tag t)
          end;
          [intros [= <-]; reflexivity|]);
    try discriminate.
  - destruct (js_eqb tag (lit "status")).
    + destruct (member (lit "data") members) as [[| | | | |payload]|];
        try discriminate.
      intros [= <-]. reflexivity.
    + destruct (js_eqb tag (lit "error")); [|discriminate].
      destruct (member (lit "data") members) as [[| | | | |payload]|];
        try discriminate.
      intros [= <-]. reflexivity.
Qed.

Lemma processLine_record line m n (s : system) :
  trim line <> [] -> JSON_parse (trim line) = Some m -> dispatched m = Some n ->
  processLine line s = emit n (noted n s).
Proof.
  intros Ht Hm Hn. unfold BridgeManager.processLine.
  destruct (trim line) as [|c t]; [contradiction|].
  now rewrite Hm, (handleMessage_dispatched m n s Hn).
Qed.

Lemma processLine_malformed line (s : system) :
  trim line <> [] -> JSON_parse (trim line) = None ->
  processLine line s = console (log_failed_to_parse (trim line)) s.
Proof.
  intros Ht Hm. unfold BridgeManager.processLine.
  destruct (trim line) as [|c t]; [contradiction|].
  now rewrite Hm.
Qed.

Lemma trace_emit_noted n (s : system) :
  trace (outside (emit n (noted n s))) = trace (outside s) ++ [Emit n].
Proof. now destruct n. Qed.

Lemma lineBuffer_emit_noted n (s : system) :
  lineBuffer (this (emit n (noted n s))) = lineBuffer (this s).
Proof. now destruct n. Qed.

Lemma processLine_trace_grows line (s : system) :
  exists added,
    trace (outside (processLine line s)) = trace (outside s) ++ added.
Proof.
  destruct (processLine_summary line s) as [->|[(e & _ & ->)| ->]].
  - exists []. now rewrite app_nil_r.
  - now exists [e].
  - now exists [Emit ev_ready].
Qed.

Lemma on_text_trace_grows text (s : system) :
  exists added,
    trace (outside (on_text text s)) = trace (outside s) ++ added.
Proof.
  rewrite (on_text_drive JSON_parse). unfold BridgeManager.drive.
  change (trace (outside s))
    with (trace (outside (on_this
                            (set_lineBuffer
                               (snd (cut newline (lineBuffer (this s) ++ text))))
                            s))).
  generalize (on_this
                (set_lineBuffer (snd (cut newline (lineBuffer (this s) ++ text))))
                s).
  induction (fst (cut newline (lineBuffer (this s) ++ text))) as [|l lines IH];
    intros c; simpl.
  - exists []. now rewrite app_nil_r.
  - destruct (IH (processLine l c)) as [a Ha].
    destruct (processLine_trace_grows l c) as [b Hb].
    exists (b ++ a). now rewrite Ha, Hb, app_assoc.
Qed.

Lemma on_text_nothing (s : system) :
  lineBuffer (this s) = [] -> trace (outside (on_text [] s)) = trace (outside s).
Proof.
  intros Hb. rewrite (on_text_drive JSON_parse), Hb. reflexivity.
Qed.

(** The three lines on a manager whose decode buffer is empty. *)
Lemma three_lines (s : system) l1 l2 l3 m1 m3 n1 n3 :
  lineBuffer (this s) = [] ->
  ~ In newline l1 -> ~ In newline l2 -> ~ In newline l3 ->
  trim l1 <> [] -> JSON_parse (trim l1) = Some m1 -> dispatched m1 = Some n1 ->
  trim l2 <> [] -> JSON_parse (trim l2) = None ->
  trim l3 <> [] -> JSON_parse (trim l3) = Some m3 -> dispatched m3 = Some n3 ->
  trace (outside (on_text (l1 ++ newline :: l2 ++ newline :: l3 ++ [newline]) s))
  = trace (outside s)
    ++ [Emit n1; Console (log_failed_to_parse (trim l2)); Emit n3] /\
  lineBuffer
    (this (on_text (l1 ++ newline :: l2 ++ newline :: l3 ++ [newline]) s)) = [].
Proof.
  intros Hbuf N1 N2 N3 T1 P1 D1 T2 P2 T3 P3 D3.
  rewrite (on_text_drive JSON_parse), Hbuf. cbn [app].
  rewrite (cut_line newline l1), (cut_line newline l2) by assumption.
  replace (l3 ++ [newline]) with (l3 ++ newline :: []) by reflexivity.
  rewrite (cut_line newline l3), cut_nil by assumption.
  cbn [fst snd]. unfold BridgeManager.drive. cbn [fold_left].
  rewrite (processLine_record l1 m1 n1), (processLine_malformed l2),
    (processLine_record l3 m3 n3) by assumption.
  split.
  - rewrite trace_emit_noted. unfold console, on_outside. cbn [outside trace perform].
    rewrite trace_emit_noted. cbn [on_this outside]. rewrite <- !app_assoc.
    reflexivity.
  - rewrite lineBuffer_emit_noted. unfold console, on_outside. cbn [this].
    rewrite lineBuffer_emit_noted. reflexivity.
Qed.

(** C3. A stream that holds, from the start of a line on, a record of the
    protocol, a line that [JSON.parse] rejects, and another record,
    delivered in any chunks: the handler returns on every chunk; after
    what the text before the three lines gave rise to, the first record
    is dispatched, the line between is reported on the console and
    dropped, the second record is dispatched, and decoding goes on with
    the rest of the stream. When nothing follows the three lines, nothing
    follows in the trace. *)
Theorem malformed_line_is_skipped
    (s : system) chunks pre post l1 l2 l3 m1 m3 n1 n3 :
  concat (map Buffer_toString chunks)
  = pre ++ (l1 ++ newline :: l2 ++ newline :: l3 ++ [newline]) ++ post ->
  snd (cut newline (lineBuffer (this s) ++ pre)) = [] ->
  ~ In newline l1 -> ~ In newline l2 -> ~ In newline l3 ->
  trim l1 <> [] -> JSON_parse (trim l1) = Some m1 -> dispatched m1 = Some n1 ->
  trim l2 <> [] -> JSON_parse (trim l2) = None ->
  trim l3 <> [] -> JSON_parse (trim l3) = Some m3 -> dispatched m3 = Some n3 ->
  exists after,
    trace (outside (receive JSON_parse chunks s))
    = trace (outside (on_text pre s))
      ++ [Emit n1; Console (log_failed_to_parse (trim l2)); Emit n3] ++ after /\
    (post = [] -> after = []).
Proof.
  intros Htext Hpre N1 N2 N3 T1 P1 D1 T2 P2 T3 P3 D3.
  assert (Hne : chunks <> []).
  { intros ->. simpl in Htext. destruct pre, l1; discriminate. }
  rewrite (receive_text JSON_parse chunks s Hne), Htext.
  rewrite <- (on_text_app JSON_parse pre), <- (on_text_app JSON_parse _ post).
  assert (Hb : lineBuffer (this (on_text pre s)) = [])
    by now rewrite (on_text_lineBuffer JSON_parse).
  destruct (three_lines (on_text pre s) l1 l2 l3 m1 m3 n1 n3)
    as [Htr Hbuf]; auto.
  destruct (on_text_trace_grows post
              (on_text (l1 ++ newline :: l2 ++ newline :: l3 ++ [newline])
                 (on_text pre s))) as [after Hafter].
  exists after. split.
  - now rewrite Hafter, Htr, <- app_assoc.
  - intros ->. rewrite on_text_nothing in Hafter by assumption.
    rewrite <- (app_nil_r (trace _)) in Hafter at 1.
    now apply app_inv_head in Hafter.
Qed.

End Frames.

(** ** Chunks of ASCII text *)

Section Ascii.

Lemma utf8_decode_ascii bytes :
  forallb is_ascii bytes = true ->
  utf8_decode utf8_start bytes = map Byte.to_N bytes.
Proof.
  induction bytes as [|b bytes IH]; simpl; [reflexivity|].
  intros Hb. apply andb_prop in Hb as [Hb Hrest].
  unfold is_ascii in Hb. apply N.ltb_lt in Hb.
  unfold utf8_step, utf8_lead. cbn [bytes_needed utf8_start N.eqb].
  destruct (N.leb_spec (Byte.to_N b) 127) as [_|Hgt]; [|lia].
  simpl. now rewrite IH.
Qed.

Lemma Buffer_toString_ascii bytes :
  forallb is_ascii bytes = true ->
  Buffer_toString bytes = map Byte.to_N bytes.
Proof.
  intros Hb. unfold Buffer_toString. rewrite utf8_decode_ascii by assumption.
  induction bytes as [|b bytes IH]; simpl in *; [reflexivity|].
  apply andb_prop in Hb as [Hb Hrest]. rewrite IH by assumption.
  unfold is_ascii in Hb. apply N.ltb_lt in Hb. unfold utf16_units.
  destruct (N.ltb_spec (Byte.to_N b) 65536) as [_|Hge]; [reflexivity|lia].
Qed.

Lemma forallb_concat {A} (P : A -> bool) (ls : list (list A)) :
  forallb (forallb P) ls = true -> forallb P (concat ls) = true.
Proof.
  induction ls as [|l ls IH]; simpl; [reflexivity|].
  intros Hl. apply andb_prop in Hl as [Hl Hls].
  now rewrite forallb_app, Hl, IH.
Qed.

Lemma Buffer_toString_concat_ascii chunks :
  forallb (forallb is_ascii) chunks = true ->
  concat (map Buffer_toString chunks) = Buffer_toString (concat chunks).
Proof.
  intros Hc. rewrite (Buffer_toString_ascii (concat chunks))
    by now apply forallb_concat.
  induction chunks as [|c chunks IH]; simpl in *; [reflexivity|].
  apply andb_prop in Hc as [Hc Hrest].
  now rewrite map_app, IH, Buffer_toString_ascii.
Qed.

(** A stream of ASCII bytes is decoded the same whatever the chunks it
    arrives in. *)
Lemma receive_split_ascii {number FS} (JSON_parse : jsstring -> option json)
    chunks (s : @BridgeManager.system number FS) :
  chunks <> [] -> forallb (forallb is_ascii) chunks = true ->
  BridgeManager.receive JSON_parse chunks s
  = BridgeManager.on_stdout_data JSON_parse (concat chunks) s.
Proof.
  intros Hne Hc. apply receive_same_text; [assumption|].
  now apply Buffer_toString_concat_ascii.
Qed.

End Ascii.

(** ** The frame channel after [cleanup()] *)

Section Channel.

Context {FS : Type} `{Fs FS}.

Lemma writeFrame_inactive ts data fw (w : world FS) :
  FrameWriter.active fw = false ->
  FrameWriter.writeFrame ts data fw w = (Normal tt, (fw, w)).
Proof. intros Ha. unfold FrameWriter.writeFrame. now rewrite Ha. Qed.

(** C8. After [cleanup()], [writeFrame] returns normally for every
    timestamp and every buffer, and leaves the frame writer (directory
    path, frame counter, active flag), the file system and the console
    as [cleanup()] left them: no file is written and no directory is
    made. *)
Theorem writeFrame_after_cleanup_is_dropped ts data fw (w : world FS) :
  FrameWriter.writeFrame ts data
    (fst (FrameWriter.cleanup fw w)) (snd (FrameWriter.cleanup fw w))
  = (Normal tt, FrameWriter.cleanup fw w).
Proof. now apply writeFrame_inactive. Qed.

End Channel.

(** ** The arguments of the process *)

Section Args.

Context {number : Type} (number_toString : number -> jsstring).

Import BridgeManager.

Local Abbreviation t := (@BridgeManager.t number).
Local Abbreviation localArgs := (@BridgeManager.localArgs number number_toString).
Local Abbreviation dockerArgs := (@BridgeManager.dockerArgs number number_toString).
Local Abbreviation addThresholdArgs :=
  (@BridgeManager.addThresholdArgs number number_toString).

Lemma has_flag_app flag a b :
  has_flag flag (a ++ b) = has_flag flag a || has_flag flag b.
Proof. apply existsb_app. Qed.

Lemma addThresholdArgs_app (m : t) args :
  addThresholdArgs m args = args ++ addThresholdArgs m [].
Proof.
  unfold BridgeManager.addThresholdArgs, push_flag.
  destruct (Options.gazeThreshold _), (Options.blinkThreshold _),
    (Options.pulseThreshold _), (Options.breathingThreshold _);
    cbn [app]; rewrite <- ?app_assoc; cbn [app]; try reflexivity;
    now rewrite app_nil_r.
Qed.

(** What [addThresholdArgs] appends has the flag of a threshold exactly
    when that threshold is set. *)
Lemma threshold_flag_appended (m : t) flag
    (opt : Options.t number -> option number) :
  In (flag, opt) threshold_flags ->
  has_flag flag (addThresholdArgs m []) = is_set (opt (options m)).
Proof.
  unfold threshold_flags, BridgeManager.addThresholdArgs, push_flag.
  intros [E|[E|[E|[E|[]]]]]; injection E as <- <-;
    destruct (Options.gazeThreshold _), (Options.blinkThreshold _),
      (Options.pulseThreshold _), (Options.breathingThreshold _);
    reflexivity.
Qed.

Lemma capture_flag_not_appended (m : t) flag
    (opt : Options.t number -> option number) :
  In (flag, opt) capture_flags ->
  has_flag flag (addThresholdArgs m []) = false.
Proof.
  unfold capture_flags, BridgeManager.addThresholdArgs, push_flag.
  intros [E|[E|[E|[]]]]; injection E as <- <-;
    destruct (Options.gazeThreshold _), (Options.blinkThreshold _),
      (Options.pulseThreshold _), (Options.breathingThreshold _);
    reflexivity.
Qed.

(** C7. For every configuration, in both modes, the arguments of the
    process have the flag of a threshold exactly when that threshold is
    set. In native mode the array passed to [spawn] is the argument list
    of the process, and the same holds of the flags of the camera index
    and of the capture dimensions. In containerized mode the array
    passed to [spawn] is [run], the options of docker, the image and
    then the arguments of the process; these have the flag of a
    threshold exactly when it is set, and never the flag of the camera
    index or of a capture dimension. *)
Theorem flags_follow_options (m : t) :
  (forall flag (opt : Options.t number -> option number),
     In (flag, opt) (capture_flags ++ threshold_flags) ->
     has_flag flag (localArgs m) = is_set (opt (options m))) /\
  (forall fw,
     dockerArgs m fw
     = [ lit "run"; lit "--rm"; lit "--platform"; lit "linux/amd64";
         lit "--name"; dockerImage m;
         lit "--dns"; lit "8.8.8.8"; lit "--dns"; lit "8.8.4.4";
         lit "-v"; FrameWriter.directory fw ++ lit ":/frames";
         lit "-e"; lit "SMARTSPECTRA_API_KEY=" ++ Options.apiKey (options m);
         dockerImage m ]
       ++ container_args (dockerArgs m fw) /\
     (forall flag (opt : Options.t number -> option number),
        In (flag, opt) threshold_flags ->
        has_flag flag (container_args (dockerArgs m fw))
        = is_set (opt (options m))) /\
     (forall flag (opt : Options.t number -> option number),
        In (flag, opt) capture_flags ->
        has_flag flag (container_args (dockerArgs m fw)) = false)).
Proof.
  split.
  - intros flag opt Hin. unfold BridgeManager.localArgs.
    rewrite addThresholdArgs_app, has_flag_app.
    apply in_app_or in Hin as [Hin|Hin].
    + rewrite (capture_flag_not_appended m flag opt Hin), orb_false_r.
      unfold capture_flags, push_flag in *.
      destruct Hin as [E|[E|[E|[]]]]; injection E as <- <-;
        destruct (Options.cameraIndex _), (Options.captureWidth _),
          (Options.captureHeight _); reflexivity.
    + rewrite (threshold_flag_appended m flag opt Hin).
      replace (has_flag flag _) with false; [reflexivity|].
      unfold threshold_flags, push_flag in *.
      destruct Hin as [E|[E|[E|[E|[]]]]]; injection E as <- <-;
        destruct (Options.cameraIndex _), (Options.captureWidth _),
          (Options.captureHeight _); reflexivity.
  - intros fw. unfold BridgeManager.dockerArgs.
    rewrite addThresholdArgs_app. unfold container_args. cbn [skipn app].
    split; [reflexivity|]. split.
    + intros flag opt Hin.
      pose proof (threshold_flag_appended m flag opt Hin) as Ht.
      unfold has_flag in *. cbn [existsb]. rewrite Ht.
      unfold threshold_flags in Hin.
      destruct Hin as [E|[E|[E|[E|[]]]]]; injection E as <- <-; reflexivity.
    + intros flag opt Hin.
      pose proof (capture_flag_not_appended m flag opt Hin) as Ht.
      unfold has_flag in *. cbn [existsb]. rewrite Ht.
      unfold capture_flags in Hin.
      destruct Hin as [E|[E|[E|[]]]]; injection E as <- <-; reflexivity.
Qed.

End Args.

(** ** The properties on the sample data *)

Ltac no_newline :=
  let H := fresh in
  intros H; cbv in H;
  repeat (destruct H as [H|H]; [discriminate H|]); exact H.

(** The width of the field is what the order rests on: a timestamp of
    seventeen digits sorts before one of sixteen. *)
Lemma frame_filename_order_needs_width :
  (2 ^ 53 < 10 ^ 16)%Z /\
  js_lt (FrameWriter.frameFilename (inject_Z (10 ^ 16)))
        (FrameWriter.frameFilename (inject_Z (2 ^ 53))).
Proof. split; [lia|]. vm_compute. reflexivity. Qed.

(** The scenario of the specification: frames written at 1000, 500 and
    1500 microseconds get names that sort as 500, 1000, 1500. *)
Lemma frame_filename_scenario :
  FrameWriter.frameFilename (inject_Z 500) = lit "frame0000000000000500.jpg" /\
  FrameWriter.frameFilename (inject_Z 1000) = lit "frame0000000000001000.jpg" /\
  FrameWriter.frameFilename (inject_Z 1500) = lit "frame0000000000001500.jpg" /\
  js_lt (lit "frame0000000000000500.jpg") (lit "frame0000000000001000.jpg") /\
  js_lt (lit "frame0000000000001000.jpg") (lit "frame0000000000001500.jpg").
Proof. repeat split; vm_compute; reflexivity. Qed.

(** The scenario of the specification: the process reports ready and then
    exits with code 137. *)
Lemma exit_137_scenario :
  match Sample.run [BridgeManager.call_start Sample.env;
                    BridgeManager.stdout_data Sample.ready_line;
                    BridgeManager.process_close (Some 137%Z)]
          (Sample.fresh Options.local) with
  | Some s =>
      notifications (trace (BridgeManager.outside s))
      = [ev_ready; ev_close (Some 137%Z)] /\
      BridgeManager.running (BridgeManager.this s) = false
  | None => False
  end.
Proof. vm_compute. split; reflexivity. Qed.

(** The scenario of the specification: a ready line and the start of a
    focus line, then the rest of the focus line. The first chunk gives
    the ready notification alone, the second one focus notification. *)
Lemma partial_line_scenario :
  let first := Sample.bytes "{'type':'ready','data':{}}" ++ [Byte.x0a]
               ++ Sample.bytes "{'type':'focu" in
  let second := Sample.bytes "s','data':{'state':'focused'}}" ++ [Byte.x0a] in
  notifications (trace (BridgeManager.outside
                          (Sample.receive [first] Sample.started)))
  = [ev_ready] /\
  notifications (trace (BridgeManager.outside
                          (Sample.receive [first; second] Sample.started)))
  = [ev_ready;
     ev_focus (Some (JObject [(lit "state", JString (lit "focused"))]))].
Proof. vm_compute. split; reflexivity. Qed.

(** C2. The stream [Sample.accent_stream] is one status line whose text
    ends in U+00E9. Delivered whole, the record carries that text;
    delivered in the two chunks that part the two bytes of U+00E9, the
    record carries two replacement characters instead: each chunk is
    decoded on its own, and each half of the character decodes to
    U+FFFD. *)
Theorem stdout_split_inside_character :
  Sample.accent_head ++ Sample.accent_tail = Sample.accent_stream /\
  notifications (trace (BridgeManager.outside
                          (Sample.receive [Sample.accent_stream] Sample.started)))
  = [ev_status (Some (JString (lit "caf" ++ [233%N])))] /\
  notifications (trace (BridgeManager.outside
                          (Sample.receive [Sample.accent_head; Sample.accent_tail]
                             Sample.started)))
  = [ev_status (Some (JString (lit "caf" ++ [65533%N; 65533%N])))].
Proof. repeat split; vm_compute; reflexivity. Qed.

Lemma malformed_line_is_skipped_witness :
  exists after,
    trace (BridgeManager.outside
             (Sample.receive Sample.three_lines Sample.started))
    = trace (BridgeManager.outside
               (BridgeManager.on_text JsonReader.JSON_parse [] Sample.started))
      ++ [Emit ev_ready;
          Console (log_failed_to_parse (trim Sample.line2));
          Emit (ev_status (Some (JString (lit "tracking"))))] ++ after /\
    ([] = [] :> jsstring -> after = []).
Proof.
  apply (malformed_line_is_skipped JsonReader.JSON_parse
           Sample.started Sample.three_lines [] []
           Sample.line1 Sample.line2 Sample.line3
           (JObject [(lit "type", JString (lit "ready"));
                     (lit "data", JObject [])])
           (JObject [(lit "type", JString (lit "status"));
                     (lit "data",
                      JObject [(lit "status", JString (lit "tracking"))])])
           ev_ready
           (ev_status (Some (JString (lit "tracking")))));
    try no_newline; try (vm_compute; reflexivity);
    vm_compute; discriminate.
Defined.

Lemma start_when_active_is_rejected_witness :
  BridgeManager.process (BridgeManager.this Sample.started) = Some 2 /\
  BridgeManager.start Number_toString Sample.env Sample.started
  = (Throw (lit "Bridge is already running"), Sample.started).
Proof.
  split; [vm_compute; reflexivity|].
  apply (start_when_active_is_rejected Number_toString Sample.env
           Sample.started 2).
  vm_compute. reflexivity.
Defined.

Lemma buffer_holds_no_line_terminator_witness :
  ~ In newline
      (BridgeManager.lineBuffer
         (BridgeManager.this
            (Sample.receive [Sample.accent_head] Sample.ready))).
Proof.
  apply (buffer_holds_no_line_terminator Number_toString JsonReader.JSON_parse
           (Sample.options Options.local) Sample.disk0
           [BridgeManager.call_start Sample.env;
            BridgeManager.stdout_data Sample.ready_line]
           Sample.ready [Sample.accent_head]).
  vm_compute. reflexivity.
Defined.

Lemma stop_leaves_running_witness :
  BridgeManager.running (BridgeManager.this Sample.ready) = true /\
  BridgeManager.running
    (BridgeManager.this
       (Sample.step BridgeManager.timer_fires
          (Sample.step (BridgeManager.stderr_data Sample.accent_head)
             (snd (BridgeManager.stop Sample.ready))))) = true.
Proof.
  assert (Hr : BridgeManager.running (BridgeManager.this Sample.ready) = true)
    by (vm_compute; reflexivity).
  split; [exact Hr|].
  apply (proj2 (proj2 (stop_leaves_running Number_toString
                         JsonReader.JSON_parse Sample.ready)) Hr
           [BridgeManager.stderr_data Sample.accent_head;
            BridgeManager.timer_fires]);
    vm_compute; reflexivity.
Defined.

(** The scenario of the specification on the file system in memory:
    after [init()] and [cleanup()] the directory is gone, and a
    [writeFrame] that comes late neither throws nor brings it back. *)
Lemma writeFrame_after_cleanup_scenario :
  let w0 : world MemFs.t := {| disk := Sample.disk0; trace := [] |} in
  let fw0 := FrameWriter.new None in
  let '(fw1, w1) := snd (FrameWriter.init fw0 w0) in
  let '(fw2, w2) := FrameWriter.cleanup fw1 w1 in
  let '(result, (fw3, w3)) :=
    FrameWriter.writeFrame (inject_Z 1707312345678000) [Byte.xff; Byte.xd8] fw2 w2 in
  existsSync (FrameWriter.directory fw0) (disk w1) = true /\
  existsSync (FrameWriter.directory fw0) (disk w2) = false /\
  result = Normal tt /\
  existsSync (FrameWriter.directory fw0) (disk w3) = false /\
  FrameWriter.count fw3 = 0%Z.
Proof. vm_compute. repeat split; reflexivity. Qed.

Lemma flags_follow_options_witness :
  has_flag "--breathing_threshold="
    (container_args
       (BridgeManager.dockerArgs Number_toString
          (BridgeManager.new (Sample.options Options.docker))
          (FrameWriter.new (FS := MemFs.t) None)))
  = true /\
  has_flag "--gaze_threshold="
    (container_args
       (BridgeManager.dockerArgs Number_toString
          (BridgeManager.new Sample.odd_options)
          (FrameWriter.new (FS := MemFs.t) None)))
  = false.
Proof.
  split.
  - apply (proj1 (proj2 (proj2 (flags_follow_options Number_toString
                                  (BridgeManager.new (Sample.options Options.docker)))
                           (FrameWriter.new (FS := MemFs.t) None)))
             "--breathing_threshold="%string Options.breathingThreshold).
    right; right; right; left. reflexivity.
  - apply (proj1 (proj2 (proj2 (flags_follow_options Number_toString
                                  (BridgeManager.new Sample.odd_options))
                           (FrameWriter.new (FS := MemFs.t) None)))
             "--gaze_threshold="%string Options.gazeThreshold).
    left. reflexivity.
Defined.

(** * Further properties of the two classes *)

(** ** Frame names *)

Section FrameNames.

Local Open Scope Z_scope.

Lemma frame_filename_fixed t :
  0 <= t < 10 ^ 16 ->
  FrameWriter.frameFilename (inject_Z t) = lit "frame" ++ fixed 16 t ++ lit ".jpg".
Proof.
  intros Ht. unfold FrameWriter.frameFilename, Math_floor.
  rewrite Qfloor_Z, (padStart_toString 16) by (change (Z.of_nat 16) with 16; lia).
  reflexivity.
Qed.

Lemma frame_filename_compare t1 t2 :
  0 <= t1 < 10 ^ 16 -> 0 <= t2 < 10 ^ 16 ->
  js_compare (FrameWriter.frameFilename (inject_Z t1))
             (FrameWriter.frameFilename (inject_Z t2)) = Z.compare t1 t2.
Proof.
  intros H1 H2. rewrite !frame_filename_fixed by assumption.
  rewrite js_compare_prefix, js_compare_app by now rewrite !fixed_length.
  rewrite fixed_compare by (change (Z.of_nat 16) with 16; lia).
  now destruct (t1 ?= t2).
Qed.

Lemma fixed_digits w : forall n,
  forallb JsonReader.is_digit (fixed w n) = true.
Proof.
  induction w as [|w IH]; intros n; simpl; [reflexivity|].
  rewrite forallb_app, IH. simpl. rewrite andb_true_r.
  pose proof (Z.mod_pos_bound n 10 ltac:(lia)) as Hm.
  unfold JsonReader.is_digit, digit.
  apply andb_true_intro. split; [apply N.leb_le|apply N.leb_le]; lia.
Qed.

(** X1. For a timestamp that fits the field, the name of the frame is
    "frame", sixteen decimal digits and ".jpg"; and the pattern the
    process is started with is the name of timestamp 0 under the mount
    point. *)
Theorem frame_filename_matches_pattern t (fw : FrameWriter.t) :
  0 <= t < 10 ^ 16 ->
  (exists field,
     FrameWriter.frameFilename (inject_Z t) = lit "frame" ++ field ++ lit ".jpg"
     /\ length field = 16%nat
     /\ forallb JsonReader.is_digit field = true) /\
  FrameWriter.containerFileStreamPath fw
  = lit "/frames/" ++ FrameWriter.frameFilename (inject_Z 0).
Proof.
  intros Ht. split; [|reflexivity].
  exists (fixed 16 t). rewrite frame_filename_fixed by assumption.
  split; [reflexivity|]. split; [apply fixed_length|apply fixed_digits].
Qed.

Lemma frame_filename_matches_pattern_witness :
  (0 <= 1707312345678000 < 10 ^ 16) /\
  exists field,
    FrameWriter.frameFilename (inject_Z 1707312345678000)
    = lit "frame" ++ field ++ lit ".jpg"
    /\ length field = 16%nat
    /\ forallb JsonReader.is_digit field = true.
Proof.
  split; [lia|].
  apply (frame_filename_matches_pattern 1707312345678000
           (FrameWriter.new (FS := MemFs.t) None)). lia.
Defined.

(** X2. Two timestamps that fit the field and differ get different
    names: no frame overwrites the file of another. *)
Theorem frame_filename_injective t1 t2 :
  0 <= t1 < 10 ^ 16 -> 0 <= t2 < 10 ^ 16 ->
  FrameWriter.frameFilename (inject_Z t1) = FrameWriter.frameFilename (inject_Z t2) ->
  t1 = t2.
Proof.
  intros H1 H2 Heq. apply Z.compare_eq.
  rewrite <- (frame_filename_compare t1 t2 H1 H2), Heq.
  apply js_compare_refl.
Qed.

Lemma frame_filename_injective_witness :
  (0 <= 500 < 10 ^ 16) /\
  (FrameWriter.frameFilename (inject_Z 500)
   = FrameWriter.frameFilename (inject_Z 500) -> 500 = 500).
Proof.
  split; [lia|]. apply (frame_filename_injective 500 500); lia.
Defined.

End FrameNames.

(** ** The frame writer *)

Section Writer.

Context {FS : Type} `{Fs FS}.

(** X3. [init()] returns normally with the writer active and its counter
    at zero, whatever they were before; it throws only when the directory
    is missing and [mkdirSync] throws, and then with the error of
    [mkdirSync] and the writer as it was. The console is not written to
    either way. *)
Theorem init_outcome fw (w : world FS) :
  match FrameWriter.init fw w with
  | (Normal _, (fw', w')) =>
      FrameWriter.active fw' = true /\
      FrameWriter.frameCount fw' = 0%Z /\
      FrameWriter.frameDir fw' = FrameWriter.frameDir fw /\
      trace w' = trace w
  | (Throw e, (fw', w')) =>
      fw' = fw /\
      existsSync (FrameWriter.frameDir fw) (disk w) = false /\
      fst (mkdirSync (FrameWriter.frameDir fw) (disk w)) = Throw e /\
      trace w' = trace w
  end.
Proof.
  unfold FrameWriter.init.
  destruct (existsSync (FrameWriter.frameDir fw) (disk w)); simpl.
  - repeat split. now rewrite clearFrames_trace.
  - destruct (mkdirSync (FrameWriter.frameDir fw) (disk w)) as [[u|e] d]; simpl.
    + repeat split. now rewrite clearFrames_trace.
    + repeat split.
Qed.

Lemma writeFrame_accounts ts data fw (w : world FS) :
  let '(fw', w') := snd (FrameWriter.writeFrame ts data fw w) in
  FrameWriter.frameDir fw' = FrameWriter.frameDir fw /\
  FrameWriter.active fw' = FrameWriter.active fw /\
  (FrameWriter.active fw = false -> (fw', w') = (fw, w)) /\
  (FrameWriter.active fw = true ->
   (FrameWriter.frameCount fw' - FrameWriter.frameCount fw
    + Z.of_nat (write_failures (trace w'))
    = Z.of_nat (write_failures (trace w)) + 1)%Z).
Proof.
  unfold FrameWriter.writeFrame.
  destruct (FrameWriter.active fw) eqn:Ha; simpl.
  - destruct (writeFileSync _ _ _) as [[u|e] d]; simpl.
    + repeat split; try discriminate. intros _. lia.
    + repeat split; try discriminate; try assumption. intros _.
      assert (E : forall tr e', write_failures (tr ++ [Console (log_write_failed e')])
                           = S (write_failures tr)).
      { induction tr as [|[n|[]| | | |] tr IH]; intros e'; simpl;
          rewrite ?IH; reflexivity. }
      rewrite E. lia.
  - repeat split; try discriminate; try assumption.
Qed.

(** X4. Every frame handed to an active writer is either counted or
    reported: over any list of frames the counter grows by the number of
    frames less the number of failure lines written to the console. An
    inactive writer ignores them all. Neither the directory path nor the
    active flag changes. *)
Theorem writeFrames_accounts frames : forall fw (w : world FS),
  let '(fw', w') := writeFrames frames fw w in
  FrameWriter.frameDir fw' = FrameWriter.frameDir fw /\
  FrameWriter.active fw' = FrameWriter.active fw /\
  (FrameWriter.active fw = false -> (fw', w') = (fw, w)) /\
  (FrameWriter.active fw = true ->
   (FrameWriter.frameCount fw' - FrameWriter.frameCount fw
    + Z.of_nat (write_failures (trace w'))
    = Z.of_nat (write_failures (trace w)) + Z.of_nat (length frames))%Z).
Proof.
  induction frames as [|[ts data] frames IH]; intros fw w.
  - simpl. repeat split. intros _. lia.
  - cbn [writeFrames].
    pose proof (writeFrame_accounts ts data fw w) as H1.
    destruct (snd (FrameWriter.writeFrame ts data fw w)) as [fw1 w1].
    destruct H1 as (D1 & A1 & I1 & C1).
    specialize (IH fw1 w1).
    destruct (writeFrames frames fw1 w1) as [fw2 w2].
    destruct IH as (D2 & A2 & I2 & C2).
    repeat split; try congruence.
    + intros Ha. rewrite I2 by congruence. now apply I1.
    + intros Ha. specialize (C1 Ha). specialize (C2 ltac:(congruence)).
      cbn [length]. lia.
Qed.

End Writer.

(** ** The decoder, line by line *)

Section Decoder.

Context {number : Type} {FS : Type}.
Variable JSON_parse : jsstring -> option json.

Import BridgeManager.

Local Abbreviation system := (@BridgeManager.system number FS).
Local Abbreviation handleMessage := (@BridgeManager.handleMessage number FS).
Local Abbreviation processLine := (@BridgeManager.processLine number FS JSON_parse).
Local Abbreviation on_text := (@BridgeManager.on_text number FS JSON_parse).
Local Abbreviation on_stdout_data := (@BridgeManager.on_stdout_data number FS JSON_parse).
Local Abbreviation receive := (@BridgeManager.receive number FS JSON_parse).

(** What [handleMessage] can do: emit one notification, raising the ready
    flag when it is the ready notification; report an unknown tag; or
    throw, with nothing changed. *)
Lemma handleMessage_cases m (s : system) :
  (exists n, handleMessage m s = (Normal tt, emit n (noted n s))) \/
  (exists l, handleMessage m s = (Normal tt, console l s)) \/
  (exists e, handleMessage m s = (Throw e, s)).
Proof.
  unfold BridgeManager.handleMessage.
  destruct (get (Some m) (lit "type")) as [type|e];
    [|right; right; eexists; reflexivity].
  repeat (match goal with
          | |- context [if ?c then _ else _] => destruct c
          | |- context [match get ?d ?k with _ => _ end] => destruct (get d k)
          end;
          try match goal with
              | |- (exists n, (_, emit ?k _) = _) \/ _ =>
                  left; exists k; reflexivity
              | |- _ \/ (exists l, (_, console ?k _) = _) \/ _ =>
                  right; left; exists k; reflexivity
              | |- _ \/ _ \/ (exists e, (Throw ?k, _) = _) =>
                  right; right; exists k; reflexivity
              end).
Qed.

Lemma processLine_cases line (s : system) :
  processLine line s = s \/
  (exists l, processLine line s = console l s) \/
  (exists n, processLine line s = emit n (noted n s)).
Proof.
  unfold BridgeManager.processLine.
  destruct (trim line) as [|c t]; [now left|].
  destruct (JSON_parse _) as [m|]; [|right; left; eexists; reflexivity].
  destruct (handleMessage_cases m s) as [[n ->]|[[l ->]|[e ->]]].
  - right; right. now exists n.
  - right; left. now exists l.
  - right; left. eexists; reflexivity.
Qed.

Lemma rest_kept_refl (s : system) : rest_kept s s.
Proof. repeat split; auto. Qed.

Lemma rest_kept_trans (s1 s2 s3 : system) :
  rest_kept s1 s2 -> rest_kept s2 s3 -> rest_kept s1 s3.
Proof.
  unfold rest_kept. intros H1 H2. decompose [and] H1. decompose [and] H2.
  repeat split; try congruence. auto.
Qed.

Lemma processLine_rest_kept line (s : system) : rest_kept s (processLine line s).
Proof.
  destruct (processLine_cases line s) as [->|[[l ->]|[n ->]]].
  - apply rest_kept_refl.
  - repeat split; auto.
  - destruct n; repeat split; auto.
Qed.

Lemma fold_processLine_rest_kept lines : forall (s : system),
  rest_kept s (fold_left (fun s line => processLine line s) lines s).
Proof.
  induction lines as [|l lines IH]; intros s; simpl.
  - apply rest_kept_refl.
  - eapply rest_kept_trans; [apply processLine_rest_kept|apply IH].
Qed.

Lemma on_text_rest_kept text (s : system) : rest_kept s (on_text text s).
Proof.
  rewrite (on_text_drive JSON_parse). unfold BridgeManager.drive.
  eapply rest_kept_trans; [|apply fold_processLine_rest_kept].
  repeat split; auto.
Qed.

(** X5. Whatever the process writes to its standard output, in whatever
    chunks: the manager keeps its process handle, its frame writer and
    its configuration, the file system and the timers are not touched,
    and a ready flag that is up stays up. Only the close handler ends a
    session; an error record does not. *)
Theorem stdout_cannot_end_session chunks : forall (s : system),
  process (this (receive chunks s)) = process (this s) /\
  _frameWriter (this (receive chunks s)) = _frameWriter (this s) /\
  dockerImage (this (receive chunks s)) = dockerImage (this s) /\
  mode (this (receive chunks s)) = mode (this s) /\
  options (this (receive chunks s)) = options (this s) /\
  disk (outside (receive chunks s)) = disk (outside s) /\
  timers (receive chunks s) = timers s /\
  (isReady (this s) = true -> isReady (this (receive chunks s)) = true).
Proof.
  unfold BridgeManager.receive.
  induction chunks as [|c chunks IH]; intros s; simpl.
  - apply rest_kept_refl.
  - apply (rest_kept_trans s (on_stdout_data c s)); [|apply IH].
    change (on_stdout_data c s) with (on_text (Buffer_toString c) s).
    apply on_text_rest_kept.
Qed.

(** *** One line, at most one effect *)


Lemma processLine_effects line (s : system) :
  exists added,
    trace (outside (processLine line s)) = trace (outside s) ++ added /\
    (length added <= 1)%nat /\ forallb decode_effect added = true.
Proof.
  destruct (processLine_cases line s) as [->|[[l ->]|[n ->]]].
  - exists []. rewrite app_nil_r. auto.
  - exists [Console l]. auto.
  - exists [Emit n]. rewrite trace_emit_noted. auto.
Qed.

Lemma fold_processLine_effects lines : forall (s : system),
  exists added,
    trace (outside (fold_left (fun s line => processLine line s) lines s))
    = trace (outside s) ++ added /\
    (length added <= length lines)%nat /\ forallb decode_effect added = true.
Proof.
  induction lines as [|l lines IH]; intros s; simpl.
  - exists []. rewrite app_nil_r. auto.
  - destruct (processLine_effects l s) as (a & Ha & La & Pa).
    destruct (IH (processLine l s)) as (b & Hb & Lb & Pb).
    exists (a ++ b). rewrite Hb, Ha, app_assoc, length_app, forallb_app, Pa, Pb.
    repeat split; auto. lia.
Qed.


(** *** What is dispatched *)

(** X7. [handleMessage] emits a notification only for an object whose
    [type] is a string, one of the six tags of the protocol: for [null]
    (where reading [type] throws), a number, a string, a boolean, an
    array, or an object with another tag, nothing is emitted. *)
Theorem only_records_are_dispatched m (s : system) n :
  snd (handleMessage m s) = emit n (noted n s) ->
  exists members tag,
    m = JObject members /\
    member (lit "type") members = Some (JString tag) /\
    existsb (js_eqb tag) protocol_tags = true.
Proof.
  intros Hemit.
  assert (Hne : forall l, snd (handleMessage m s) <> console l s).
  { intros l Heq. rewrite Hemit in Heq.
    apply (f_equal (fun x => trace (outside x))) in Heq.
    rewrite trace_emit_noted in Heq. simpl in Heq.
    apply app_inv_head in Heq. discriminate. }
  assert (Hs : snd (handleMessage m s) <> s).
  { intros Heq. rewrite Hemit in Heq.
    apply (f_equal (fun x => length (trace (outside x)))) in Heq.
    rewrite trace_emit_noted, length_app in Heq. simpl in Heq. lia. }
  clear Hemit. revert Hne Hs.
  unfold BridgeManager.handleMessage, protocol_tags.
  destruct m as [| | | | |members]; cbn [get is_string snd];
    try (intros Hne Hs; exfalso; first [now apply Hs | now eapply Hne]).
  destruct (member (lit "type") members) as [[| | |tag| |]|] eqn:Ht;
    cbn [is_string snd];
    try (destruct (template_throws _); intros Hne Hs; exfalso;
         first [now apply Hs | now eapply Hne]).
  intros Hne _. exists members, tag. split; [reflexivity|]. split; [exact Ht|].
  revert Hne. cbn [existsb].
  repeat (match goal with
          | |- context [if js_eqb tag ?t then _ else _] =>
              destruct (js_eqb tag t)
          end; [intros _; reflexivity|]).
  intros Hne. exfalso. now eapply Hne.
Qed.

End Decoder.

(** ** The manager: start, stop and runs *)

Section Manager.

Context {number : Type} (number_toString : number -> jsstring).
Context {FS : Type} `{Fs FS}.
Variable JSON_parse : jsstring -> option json.

Import BridgeManager.

Local Abbreviation system := (@BridgeManager.system number FS).
Local Abbreviation start := (@BridgeManager.start number number_toString FS _).
Local Abbreviation startDocker := (@BridgeManager.startDocker number number_toString FS _).
Local Abbreviation startLocal := (@BridgeManager.startLocal number number_toString FS _).
Local Abbreviation buildImage := (@BridgeManager.buildImage number FS _).
Local Abbreviation stop := (@BridgeManager.stop number FS _).
Local Abbreviation step := (@BridgeManager.step number number_toString FS _ JSON_parse).
Local Abbreviation run := (@BridgeManager.run number number_toString FS _ JSON_parse).
Local Abbreviation on_text := (@BridgeManager.on_text number FS JSON_parse).
Local Abbreviation on_stdout_data := (@BridgeManager.on_stdout_data number FS JSON_parse).

(** *** Steps that only add to the trace *)

Lemma only_traced_refl (s : system) : only_traced s s.
Proof. repeat split. Qed.

Lemma only_traced_trans (s1 s2 s3 : system) :
  only_traced s1 s2 -> only_traced s2 s3 -> only_traced s1 s3.
Proof.
  intros (A1 & B1 & C1) (A2 & B2 & C2). repeat split; congruence.
Qed.

Lemma only_traced_perform e (s0 s : system) :
  only_traced s0 s -> only_traced s0 (on_outside (perform e) s).
Proof. intros (A & B & C). repeat split; assumption. Qed.

Ltac traced :=
  repeat first
    [ assumption
    | apply only_traced_refl
    | apply only_traced_perform ].

Lemma on_build_event_only_traced e (s0 s : system) :
  only_traced s0 s -> only_traced s0 (on_build_event e s).
Proof.
  intros Hs. destruct e as [chunk|chunk]; simpl; destruct (trim _); traced.
Qed.

Lemma build_events_only_traced events : forall (s0 s : system),
  only_traced s0 s ->
  only_traced s0 (fold_left (fun s e => on_build_event e s) events s).
Proof.
  induction events as [|e events IH]; intros s0 s Hs; simpl; auto.
  apply IH. now apply on_build_event_only_traced.
Qed.

Lemma buildImage_only_traced env (s0 s : system) :
  only_traced s0 s -> only_traced s0 (snd (buildImage env s)).
Proof.
  intros Hs. unfold BridgeManager.buildImage, isImageBuilt.
  destruct (docker_image_inspect env); [cbn [snd]; unfold emit, execSync; traced|].
  destruct (findProjectRoot _ _) as [root|e];
    [|cbn [snd]; unfold execSync; traced].
  match goal with
  | |- context [fold_left ?f ?l ?c] =>
      assert (Hc : only_traced s0 (fold_left f l c))
        by (apply build_events_only_traced; unfold emit, execSync; traced);
      generalize dependent (fold_left f l c)
  end.
  intros c Hc.
  destruct (build_result env) as [[[|p|p]|]|m]; cbn [snd]; unfold emit; traced.
Qed.

(** *** The effects of [start()] *)

Ltac evolve :=
  repeat first
    [ assumption
    | apply evolves_refl
    | apply evolves_snoc; [|reflexivity]
    | apply evolves_this; [|intros ?; split; reflexivity]
    | apply evolves_timers
    | apply evolves_outside; [|first [reflexivity | assumption]] ].

Lemma on_build_event_effects e (s0 s : system) :
  evolves start_effect s0 s -> evolves start_effect s0 (on_build_event e s).
Proof.
  intros Hs.
  destruct e as [chunk|chunk]; simpl; destruct (trim _); try assumption.
  - apply evolves_snoc; [apply evolves_snoc|]; auto.
  - apply evolves_snoc; auto.
Qed.

Lemma build_events_effects events : forall (s0 s : system),
  evolves start_effect s0 s ->
  evolves start_effect s0 (fold_left (fun s e => on_build_event e s) events s).
Proof.
  induction events as [|e events IH]; intros s0 s Hs; simpl; auto.
  apply IH; auto. now apply on_build_event_effects.
Qed.

Lemma buildImage_effects env (s0 s : system) :
  evolves start_effect s0 s -> evolves start_effect s0 (snd (buildImage env s)).
Proof.
  intros Hs. unfold BridgeManager.buildImage, isImageBuilt.
  destruct (docker_image_inspect env); [cbn [snd]; evolve|].
  destruct (findProjectRoot _ _) as [root|e]; [|cbn [snd]; evolve].
  match goal with
  | |- context [fold_left ?f ?l ?c] =>
      assert (Hc : evolves start_effect s0 (fold_left f l c))
        by (apply build_events_effects; evolve);
      generalize dependent (fold_left f l c)
  end.
  intros c Hc.
  destruct (build_result env) as [[[|p|p]|]|m]; cbn [snd]; evolve.
Qed.

Lemma startDocker_effects env (s : system) :
  evolves start_effect s (snd (startDocker env s)).
Proof.
  unfold BridgeManager.startDocker, isDockerAvailable.
  destruct (negb (docker_info env)); [cbn [snd]; evolve|].
  match goal with
  | |- context [BridgeManager.buildImage env ?c] =>
      assert (Hb : evolves start_effect s (snd (buildImage env c)))
        by (apply buildImage_effects; evolve);
      destruct (BridgeManager.buildImage env c) as [[u|e] s2]
  end; cbn [snd] in Hb; [|exact Hb].
  match goal with
  | |- context [FrameWriter.init ?fw ?w] =>
      pose proof (init_trace fw w) as Hi;
      destruct (FrameWriter.init fw w) as [[u'|e] [fw' w']]
  end; cbn [snd] in Hi; cbn [snd]; unfold spawn; evolve.
Qed.

Lemma startLocal_effects env (s : system) :
  evolves start_effect s (snd (startLocal env s)).
Proof.
  unfold BridgeManager.startLocal.
  destruct (findBridgePath env s); cbn [snd]; unfold spawn; evolve.
Qed.

Lemma start_effects env (s : system) :
  evolves start_effect s (snd (start env s)).
Proof.
  unfold BridgeManager.start. destruct (process (this s)); [cbn [snd]; evolve|].
  destruct (mode (this s)); [apply startDocker_effects|apply startLocal_effects].
Qed.


(** *** The outcome of [start()] *)

Lemma init_normal (fw : FrameWriter.t) (w : world FS) u fw' w' :
  FrameWriter.init fw w = (Normal u, (fw', w')) ->
  FrameWriter.active fw' = true /\ FrameWriter.frameCount fw' = 0%Z /\
  FrameWriter.frameDir fw' = FrameWriter.frameDir fw.
Proof.
  unfold FrameWriter.init.
  destruct (negb _); [destruct (mkdirSync _ _) as [[u0|e] d]|];
    intros Heq; inversion Heq; subst; repeat split.
Qed.


Lemma start_frame env (s : system) :
  timers (snd (start env s)) = timers s /\
  dockerImage (this (snd (start env s))) = dockerImage (this s) /\
  mode (this (snd (start env s))) = mode (this s) /\
  options (this (snd (start env s))) = options (this s).
Proof.
  unfold BridgeManager.start. destruct (process (this s)); [repeat split|].
  destruct (mode (this s)) eqn:Hm.
  - unfold BridgeManager.startDocker, isDockerAvailable.
    destruct (negb (docker_info env)); [now repeat split|].
    match goal with
    | |- context [BridgeManager.buildImage env ?c] =>
        pose proof (buildImage_only_traced env c c (only_traced_refl c)) as Hb;
        destruct (BridgeManager.buildImage env c) as [[u|e] s2]
    end; cbn [snd] in Hb; destruct Hb as (Hthis & _ & Htim);
      cbn in Hthis, Htim; [|cbn [snd]; rewrite Hthis, Htim, Hm; now repeat split].
    match goal with
    | |- context [FrameWriter.init ?fw ?w] =>
        destruct (FrameWriter.init fw w) as [[u'|e] [fw' w']]
    end; cbn; rewrite Hthis, Htim, Hm; now repeat split.
  - unfold BridgeManager.startLocal.
    destruct (findBridgePath env s); cbn; rewrite Hm; now repeat split.
Qed.

(** X9. [start()] reports nothing but progress: whatever its outcome, the
    trace grows only by commands run, processes spawned, console lines
    and status notifications (no ready, close or error notification, no
    signal, no timeout), and the decode buffer, the ready flag, the
    pending timers and the configuration are as they were. *)
Theorem start_reports_progress_only env (s : system) :
  (exists added,
     trace (outside (snd (start env s))) = trace (outside s) ++ added /\
     forallb start_effect added = true) /\
  lineBuffer (this (snd (start env s))) = lineBuffer (this s) /\
  isReady (this (snd (start env s))) = isReady (this s) /\
  timers (snd (start env s)) = timers s /\
  dockerImage (this (snd (start env s))) = dockerImage (this s) /\
  mode (this (snd (start env s))) = mode (this s) /\
  options (this (snd (start env s))) = options (this s).
Proof.
  destruct (start_effects env s) as (Hb & Hr & Ha).
  split; [exact Ha|]. split; [exact Hb|]. split; [exact Hr|].
  apply start_frame.
Qed.

(** *** Without a frame writer *)

Lemma stop_clears_writer (s : system) :
  fst (stop s) = Normal tt /\ _frameWriter (this (snd (stop s))) = None.
Proof.
  unfold BridgeManager.stop.
  destruct s as [[p lb r fw di mo op] w ti]. cbn -[lit].
  destruct fw, p; try destruct mo; split; reflexivity.
Qed.

Lemma no_writer_step i (s : system) :
  _frameWriter (this s) = None ->
  not_start i = true \/ mode (this s) = local ->
  _frameWriter (this (step i s)) = None /\
  disk (outside (step i s)) = disk (outside s) /\
  mode (this (step i s)) = mode (this s).
Proof.
  intros Hf Hi.
  destruct i as [env| |ts data|chunk|chunk|code|err|]; cbn [BridgeManager.step].
  - destruct Hi as [Hi|Hm]; [discriminate|].
    unfold BridgeManager.start. destruct (process (this s)); [now repeat split|].
    rewrite Hm. unfold BridgeManager.startLocal.
    destruct (findBridgePath env s); cbn; now repeat split.
  - destruct s as [[p lb r fw di mo op] w ti]. cbn in Hf. subst fw.
    unfold BridgeManager.stop. cbn -[lit].
    destruct p; try destruct mo; repeat split.
  - unfold main_writeFrame, frameWriter. rewrite Hf. now repeat split.
  - change (BridgeManager.on_stdout_data JSON_parse chunk s)
      with (on_text (Buffer_toString chunk) s).
    destruct (on_text_rest_kept JSON_parse (Buffer_toString chunk) s)
      as (_ & Hw & _ & Hm & _ & Hd & _).
    rewrite Hw, Hm, Hd. now repeat split.
  - unfold on_stderr_data. destruct (trim _); now repeat split.
  - now repeat split.
  - now repeat split.
  - unfold force_kill. cbn [set_timers this].
    destruct (process (this s)); now repeat split.
Qed.

(** X11. In native mode the manager never has a frame writer and never
    writes to the file system: over every run from the initial state the
    file system is the one the run began with, and a frame handed to the
    manager is dropped. *)
Theorem native_mode_leaves_files_alone (opts : Options.t number) (d : FS) inputs :
  forall s',
  Options.mode opts = Some local ->
  run inputs (initial opts d) = Some s' ->
  frameWriter (this s') = None /\
  disk (outside s') = d /\
  forall timestampUs jpegData, main_writeFrame timestampUs jpegData s' = s'.
Proof.
  intros s' Hmode Hrun.
  assert (Hk : forall (s : system),
             _frameWriter (this s) = None -> mode (this s) = local ->
             run inputs s = Some s' ->
             _frameWriter (this s') = None /\ disk (outside s') = disk (outside s)).
  { clear Hrun. induction inputs as [|i inputs IH]; intros s Hf Hm Hrun;
      simpl in Hrun.
    - injection Hrun as <-. now split.
    - destruct (enabled i s); [|discriminate].
      destruct (no_writer_step i s Hf (or_intror Hm)) as (Hf' & Hd' & Hm').
      destruct (IH _ Hf' ltac:(congruence) Hrun) as [Hf2 Hd2].
      split; [exact Hf2|congruence]. }
  destruct (Hk (initial opts d)) as [Hf Hd];
    [reflexivity|cbn; now rewrite Hmode|exact Hrun|].
  split; [exact Hf|]. split; [exact Hd|].
  intros ts data. unfold main_writeFrame, frameWriter. now rewrite Hf.
Qed.

(** *** Signals and timeouts *)

Lemma signals_app a b : signals (a ++ b) = signals a ++ signals b.
Proof.
  induction a as [|[] a IH]; simpl; rewrite ?IH; reflexivity.
Qed.

Lemma timeouts_app a b : timeouts (a ++ b) = timeouts a + timeouts b.
Proof.
  induction a as [|[] a IH]; simpl; rewrite ?IH; reflexivity.
Qed.

Lemma unsignalled_nothing added :
  forallb unsignalled added = true -> signals added = [] /\ timeouts added = 0.
Proof.
  induction added as [|[] added IH]; simpl; intros Hq;
    try discriminate; auto.
Qed.

Lemma grown_unsignalled (P : effect -> bool) tr tr' :
  (forall e, P e = true -> unsignalled e = true) ->
  (exists added, tr' = tr ++ added /\ forallb P added = true) ->
  signals tr' = signals tr /\ timeouts tr' = timeouts tr.
Proof.
  intros HP (added & -> & Pa).
  assert (Hu : forallb unsignalled added = true).
  { rewrite forallb_forall in *. auto. }
  apply unsignalled_nothing in Hu as [Hs Ht].
  rewrite signals_app, timeouts_app, Hs, Ht, app_nil_r. auto.
Qed.

Lemma start_effect_unsignalled e : start_effect e = true -> unsignalled e = true.
Proof. destruct e as [[]| | | | |]; simpl; congruence. Qed.

Lemma decode_effect_unsignalled e : decode_effect e = true -> unsignalled e = true.
Proof. destruct e; simpl; congruence. Qed.

Lemma on_text_effects text (s : system) :
  exists added,
    trace (outside (on_text text s)) = trace (outside s) ++ added /\
    forallb decode_effect added = true.
Proof.
  rewrite (on_text_drive JSON_parse). unfold BridgeManager.drive.
  match goal with
  | |- context [fold_left ?f ?l ?c] =>
      destruct (fold_processLine_effects JSON_parse l c) as (added & Ha & _ & Pa)
  end.
  exists added. split; [exact Ha|exact Pa].
Qed.

Lemma main_writeFrame_effects ts data (s : system) :
  exists added,
    trace (outside (main_writeFrame ts data s)) = trace (outside s) ++ added /\
    forallb unsignalled added = true.
Proof.
  unfold main_writeFrame, frameWriter.
  destruct (_frameWriter (this s)) as [fw|];
    [|exists []; now rewrite app_nil_r].
  unfold FrameWriter.writeFrame. destruct (negb _); cbn [snd];
    [exists []; cbn; now rewrite app_nil_r|].
  destruct (writeFileSync _ _ _) as [[u|e] d]; cbn.
  - exists []. now rewrite app_nil_r.
  - eexists [_]. split; reflexivity.
Qed.

Lemma main_writeFrame_timers ts data (s : system) :
  timers (main_writeFrame ts data s) = timers s.
Proof.
  unfold main_writeFrame, frameWriter.
  destruct (_frameWriter (this s)) as [fw|]; [|reflexivity].
  now destruct (FrameWriter.writeFrame ts data fw (outside s)) as [c [fw' w]].
Qed.

Lemma step_signals i (s : system) :
  enabled i s = true ->
  (signals (trace (outside (step i s))) = signals (trace (outside s)) /\
   timeouts (trace (outside (step i s))) = timeouts (trace (outside s)) /\
   timers (step i s) = timers s) \/
  (exists child,
     i = call_stop /\ mode (this s) = local /\ process (this s) = Some child /\
     signals (trace (outside (step i s)))
     = signals (trace (outside s)) ++ [(child, lit "SIGTERM")] /\
     timeouts (trace (outside (step i s))) = S (timeouts (trace (outside s))) /\
     timers (step i s) = S (timers s)) \/
  (i = timer_fires /\ S (timers (step i s)) = timers s /\
   timeouts (trace (outside (step i s))) = timeouts (trace (outside s)) /\
   (signals (trace (outside (step i s))) = signals (trace (outside s)) \/
    exists child,
      process (this s) = Some child /\
      signals (trace (outside (step i s)))
      = signals (trace (outside s)) ++ [(child, lit "SIGKILL")])).
Proof.
  intros He.
  destruct i as [env| |ts data|chunk|chunk|code|err|]; cbn [BridgeManager.step].
  - left. destruct (start_effects env s) as (_ & _ & Ha).
    destruct (grown_unsignalled _ _ _ start_effect_unsignalled Ha) as [Hs Ht].
    destruct (start_frame env s) as (Hti & _). auto.
  - destruct s as [[p lb r fw di mo op] w ti]. unfold BridgeManager.stop.
    cbn -[lit].
    destruct p as [child|]; [destruct mo|].
    + left. destruct fw; cbn -[lit];
        rewrite !signals_app, !timeouts_app; cbn -[lit];
        rewrite ?app_nil_r; repeat split; lia.
    + right; left. exists child.
      destruct fw; cbn -[lit];
        rewrite !signals_app, !timeouts_app; cbn -[lit];
        rewrite ?app_nil_r; repeat split; lia.
    + left. destruct fw; cbn -[lit]; repeat split.
  - left. destruct (grown_unsignalled unsignalled _ _ (fun e H => H)
                      (main_writeFrame_effects ts data s)) as [Hs Ht].
    rewrite main_writeFrame_timers. auto.
  - left. change (BridgeManager.on_stdout_data JSON_parse chunk s)
      with (on_text (Buffer_toString chunk) s).
    destruct (grown_unsignalled _ _ _ decode_effect_unsignalled
                (on_text_effects (Buffer_toString chunk) s)) as [Hs Ht].
    destruct (on_text_rest_kept JSON_parse (Buffer_toString chunk) s)
      as (_ & _ & _ & _ & _ & _ & Hti & _).
    auto.
  - left. unfold on_stderr_data. destruct (trim _); [now repeat split|].
    cbn. rewrite signals_app, timeouts_app. cbn. rewrite app_nil_r.
    repeat split; lia.
  - left. cbn. rewrite !signals_app, !timeouts_app. cbn. rewrite !app_nil_r.
    repeat split; lia.
  - left. cbn. rewrite !signals_app, !timeouts_app. cbn. rewrite !app_nil_r.
    repeat split; lia.
  - right; right. split; [reflexivity|].
    cbn [enabled] in He. destruct (timers s) as [|n] eqn:Hn; [discriminate|].
    unfold force_kill. cbn [set_timers this pred].
    destruct (process (this s)) as [child|]; cbn -[lit].
    + rewrite !signals_app, !timeouts_app. cbn -[lit]. rewrite app_nil_r.
      repeat split; [lia|]. right. exists child. split; reflexivity.
    + repeat split. now left.
Qed.

Lemma step_config i (s : system) :
  dockerImage (this (step i s)) = dockerImage (this s) /\
  mode (this (step i s)) = mode (this s) /\
  options (this (step i s)) = options (this s).
Proof.
  destruct i as [env| |ts data|chunk|chunk|code|err|]; cbn [BridgeManager.step].
  - destruct (start_frame env s) as (_ & Hc). exact Hc.
  - destruct s as [[p lb r fw di mo op] w ti]. unfold BridgeManager.stop.
    cbn -[lit]. destruct fw, p; try destruct mo; repeat split.
  - unfold main_writeFrame, frameWriter.
    destruct (_frameWriter (this s)) as [fw|]; [|now repeat split].
    now destruct (FrameWriter.writeFrame ts data fw (outside s)) as [c [fw' w]].
  - change (BridgeManager.on_stdout_data JSON_parse chunk s)
      with (on_text (Buffer_toString chunk) s).
    destruct (on_text_rest_kept JSON_parse (Buffer_toString chunk) s)
      as (_ & _ & Hi & Hm & Ho & _).
    auto.
  - unfold on_stderr_data. destruct (trim _); now repeat split.
  - now repeat split.
  - now repeat split.
  - unfold force_kill. cbn [set_timers this].
    destruct (process (this s)); now repeat split.
Qed.

(** X12. In containerized mode the manager never signals a process and
    never sets a timeout: over every run from the initial state of a
    configuration whose mode is [docker] or is not set, the trace holds
    no signal and no timeout, and no force-kill timer is pending. The
    container is stopped through [docker stop] alone. *)
Theorem containerized_mode_never_signals (opts : Options.t number) (d : FS) inputs :
  forall s',
  Options.mode opts <> Some local ->
  run inputs (initial opts d) = Some s' ->
  signals (trace (outside s')) = [] /\
  timeouts (trace (outside s')) = 0 /\
  timers s' = 0.
Proof.
  intros s' Hmode Hrun.
  assert (Hk : forall (s : system),
             mode (this s) = docker -> timers s = 0 ->
             signals (trace (outside s)) = [] ->
             timeouts (trace (outside s)) = 0 ->
             run inputs s = Some s' ->
             signals (trace (outside s')) = [] /\
             timeouts (trace (outside s')) = 0 /\ timers s' = 0).
  { clear Hrun. induction inputs as [|i inputs IH];
      intros s Hm Hti Hs Hto Hrun; simpl in Hrun.
    - injection Hrun as <-. auto.
    - destruct (enabled i s) eqn:He; [|discriminate].
      destruct (step_config i s) as (_ & Hm' & _).
      destruct (step_signals i s He)
        as [(Hs' & Hto' & Hti')
           |[(child & _ & Hl & _)|(_ & Hti' & _)]].
      + apply (IH (step i s)); congruence.
      + congruence.
      + rewrite Hti in Hti'. discriminate. }
  apply (Hk (initial opts d)); auto.
  cbn. destruct (Options.mode opts) as [[|]|]; congruence.
Qed.

Lemma sigkills_app a b : sigkills (a ++ b) = sigkills a + sigkills b.
Proof.
  unfold sigkills. now rewrite signals_app, List.filter_app, length_app.
Qed.

(** X13. The manager force-kills at most once for each timeout it has
    set, and it sets one with each SIGTERM it sends: over every run from
    the initial state, the SIGKILL signals sent and the force-kill
    timers still pending are together no more than the timeouts set,
    and the signals sent are as many as the timeouts set and the
    SIGKILL signals together. *)
Theorem force_kill_accounting (opts : Options.t number) (d : FS) inputs :
  forall s',
  run inputs (initial opts d) = Some s' ->
  sigkills (trace (outside s')) + timers s' <= timeouts (trace (outside s')) /\
  length (signals (trace (outside s')))
  = timeouts (trace (outside s')) + sigkills (trace (outside s')).
Proof.
  intros s' Hrun.
  assert (Hk : forall (s : system),
             sigkills (trace (outside s)) + timers s <= timeouts (trace (outside s)) ->
             length (signals (trace (outside s)))
             = timeouts (trace (outside s)) + sigkills (trace (outside s)) ->
             run inputs s = Some s' ->
             sigkills (trace (outside s')) + timers s'
             <= timeouts (trace (outside s')) /\
             length (signals (trace (outside s')))
             = timeouts (trace (outside s')) + sigkills (trace (outside s'))).
  { clear Hrun. induction inputs as [|i inputs IH];
      intros s H1 H2 Hrun; simpl in Hrun.
    - injection Hrun as <-. auto.
    - destruct (enabled i s) eqn:He; [|discriminate].
      apply (IH (step i s)); [| |exact Hrun]; clear IH Hrun;
        unfold sigkills in *;
        destruct (step_signals i s He)
          as [(Hs' & Hto' & Hti')
             |[(child & _ & _ & _ & Hs' & Hto' & Hti')
              |(_ & Hti' & Hto' & [Hs'|(child & _ & Hs')])]];
        rewrite Hs', Hto', ?Hti', ?List.filter_app, ?length_app;
        cbn [List.filter length snd]; try lia.
      all: change (js_eqb (lit "SIGTERM") (lit "SIGKILL")) with false;
        change (js_eqb (lit "SIGKILL") (lit "SIGKILL")) with true;
        cbn [length]; lia. }
  apply (Hk (initial opts d)); [cbn; lia|reflexivity|exact Hrun].
Qed.

(** *** A timer that outlives its session *)

Lemma start_handle env (s : system) :
  process (this s) = None ->
  match start env s with
  | (Normal _, s') => process (this s') = Some (bridge_child env)
  | (Throw _, s') => process (this s') = None
  end.
Proof.
  intros Hp. unfold BridgeManager.start. rewrite Hp.
  destruct (mode (this s)).
  - unfold BridgeManager.startDocker, isDockerAvailable.
    destruct (negb (docker_info env)); [exact Hp|].
    match goal with
    | |- context [BridgeManager.buildImage env ?c] =>
        pose proof (buildImage_only_traced env c c (only_traced_refl c)) as Hb;
        destruct (BridgeManager.buildImage env c) as [[u|e] s2]
    end; cbn [snd] in Hb; destruct Hb as (Hthis & _ & _); cbn in Hthis;
      [|now rewrite Hthis].
    match goal with
    | |- context [FrameWriter.init ?fw ?w] =>
        destruct (FrameWriter.init fw w) as [[u'|e] [fw' w']]
    end; [reflexivity|cbn; now rewrite Hthis].
  - unfold BridgeManager.startLocal.
    destruct (findBridgePath env s); [reflexivity|exact Hp].
Qed.

Lemma stop_sets_timer (s : system) child :
  mode (this s) = local -> process (this s) = Some child ->
  timers (snd (stop s)) = S (timers s).
Proof.
  destruct s as [[p lb r fw di mo op] w ti]. cbn. intros -> ->.
  unfold BridgeManager.stop. cbn -[lit]. now destruct fw.
Qed.

(** X14. The force-kill timer of [stop()] is not tied to the process it
    was set for. In native mode, when a process is stopped and exits,
    and [start()] succeeds again while the timer is pending, the timer
    can fire, and when it does it sends SIGKILL to the process of the
    new session. *)
Theorem stale_timer_kills_next_session env (s : system) child code s3 :
  mode (this s) = local ->
  process (this s) = Some child ->
  start env (on_close code (snd (stop s))) = (Normal tt, s3) ->
  enabled timer_fires s3 = true /\
  trace (outside (step timer_fires s3))
  = trace (outside s3)
    ++ [Console log_force_killing; Kill (bridge_child env) (lit "SIGKILL")].
Proof.
  intros Hm Hp Hstart.
  pose proof (stop_sets_timer s child Hm Hp) as Hti.
  pose proof (start_handle env (on_close code (snd (stop s))) eq_refl) as Hh.
  pose proof (start_frame env (on_close code (snd (stop s)))) as (Hti' & _).
  rewrite Hstart in Hh, Hti'. cbn [snd] in Hti'.
  cbn [on_close emit console on_this on_outside timers] in Hti'.
  rewrite Hti in Hti'.
  split; [cbn [enabled]; now rewrite Hti'|].
  cbn [BridgeManager.step]. unfold force_kill. cbn [set_timers this].
  rewrite Hh. cbn -[lit]. now rewrite <- app_assoc.
Qed.

(** *** The decode buffer between sessions *)

Lemma step_lineBuffer i (s : system) :
  not_stdout i = true ->
  lineBuffer (this (step i s)) = lineBuffer (this s).
Proof.
  intros Hi.
  destruct i as [env| |ts data|chunk|chunk|code|err|]; cbn [BridgeManager.step];
    try discriminate.
  - now destruct (start_effects env s) as (Hb & _).
  - now destruct (stop_evolves s) as (Hb & _).
  - now destruct (main_writeFrame_evolves ts data s) as (Hb & _).
  - now destruct (on_stderr_data_evolves chunk s) as (Hb & _).
  - reflexivity.
  - reflexivity.
  - unfold force_kill. cbn [set_timers this].
    now destruct (process (this s)).
Qed.

(** X15. Only the output of the process changes the decode buffer: over
    every run without a chunk of standard output the buffer is what it
    was. It is not emptied when the process exits, nor by [stop()], nor
    by [start()]: a partial line left by one session is still in the
    buffer when the next session delivers its first chunk. *)
Theorem buffer_survives_sessions inputs : forall (s s' : system),
  forallb not_stdout inputs = true ->
  run inputs s = Some s' ->
  lineBuffer (this s') = lineBuffer (this s).
Proof.
  induction inputs as [|i inputs IH]; intros s s' Hi Hrun; simpl in *.
  - now injection Hrun as <-.
  - apply andb_prop in Hi as [Hi Hrest].
    destruct (enabled i s); [|discriminate].
    rewrite (IH _ _ Hrest Hrun). now apply step_lineBuffer.
Qed.

End Manager.

(** ** The helpers of [start()] *)

Section Text.

Lemma trimStart_head s c t : trimStart s = c :: t -> is_whitespace c = false.
Proof.
  induction s as [|x s IH]; simpl; [discriminate|].
  destruct (is_whitespace x) eqn:Hx; [exact IH|].
  intros [= <- _]. exact Hx.
Qed.

(** A trimmed text does not end in white space. *)
Lemma trim_last s :
  trim s = [] \/ exists a h, trim s = a ++ [h] /\ is_whitespace h = false.
Proof.
  unfold trim, trimEnd.
  destruct (trimStart (rev (trimStart s))) as [|h u] eqn:Hu; [now left|].
  right. exists (rev u), h. split; [reflexivity|].
  exact (trimStart_head _ _ _ Hu).
Qed.

Lemma cut_snoc_other sep a h :
  h <> sep -> snd (cut sep (a ++ [h])) = snd (cut sep a) ++ [h].
Proof.
  intros Hne. rewrite cut_app. cbn [snd].
  rewrite cut_no_sep; [reflexivity|].
  intros Hin. apply in_app_or in Hin as [Hin|[->|[]]].
  - now apply (cut_rest_no_sep sep a).
  - now apply Hne.
Qed.

Lemma cut_last sep s :
  snd (cut sep s) = or_default (fst (pop (split sep s))) [].
Proof. unfold cut. now destruct (pop (split sep s)). Qed.

End Text.

Section Helpers.

Context {number : Type} {FS : Type} `{Fs FS}.

Import BridgeManager.

Local Abbreviation system := (@BridgeManager.system number FS).

(** X16. The status shown while the image is built is one short line:
    a chunk of the build's standard output that is not blank is logged
    whole and gives one status notification, "Building: " followed by
    the first 100 code units of the text after the last line terminator
    of the trimmed chunk. That text is never empty and holds no line
    terminator, so the fall-back to the whole chunk is never taken. A
    blank chunk gives nothing. *)
Theorem build_status_is_one_line chunk (s : system) :
  let text := trim (Buffer_toString chunk) in
  (text = [] /\ on_build_event (build_stdout chunk) s = s) \/
  exists line,
    line = firstn 100 (snd (cut newline text)) /\
    line <> [] /\ length line <= 100 /\ ~ In newline line /\
    on_build_event (build_stdout chunk) s
    = emit (status (lit "Building: " ++ line))
        (console (log_docker_build text) s).
Proof.
  intros text. unfold on_build_event. fold text.
  destruct (trim_last (Buffer_toString chunk)) as [He|(a & h & Ha & Hh)];
    fold text in He || fold text in Ha.
  - left. rewrite He. now split.
  - right. exists (firstn 100 (snd (cut newline text))).
    assert (Hne : h <> newline) by (intros ->; discriminate Hh).
    assert (Hlast : snd (cut newline text) = snd (cut newline a) ++ [h])
      by (rewrite Ha; now apply cut_snoc_other).
    split; [reflexivity|]. split; [|split; [|split]].
    + rewrite Hlast. destruct (snd (cut newline a)); discriminate.
    + apply firstn_le_length.
    + intros Hin. apply (cut_rest_no_sep newline text).
      revert Hin. generalize (snd (cut newline text)) 100.
      intros l n. revert l.
      induction n as [|n IH]; intros [|x l]; simpl; try tauto.
      intros [->|Hin]; [now left|right; now apply IH].
    + pose proof (cut_last newline text) as Hc.
      destruct (fst (pop (split newline text))) as [[|c l]|];
        cbn [or_default] in Hc;
        try (rewrite Hlast in Hc; destruct (snd (cut newline a)); discriminate).
      rewrite Hc. destruct text as [|c0 t] eqn:Et.
      * destruct a; discriminate.
      * reflexivity.
Qed.

Lemma findProjectRoot_from_nearest i : forall dir (d : FS),
  match findProjectRoot_from i dir d with
  | Normal root =>
      exists k,
        k < i /\ root = Nat.iter k path_dirname dir /\
        existsSync (path_join [root; lit "bridge"; lit "Dockerfile"]) d = true /\
        forall j, j < k ->
          existsSync (path_join [Nat.iter j path_dirname dir;
                                 lit "bridge"; lit "Dockerfile"]) d = false
  | Throw _ =>
      forall k, k < i ->
        existsSync (path_join [Nat.iter k path_dirname dir;
                               lit "bridge"; lit "Dockerfile"]) d = false
  end.
Proof.
  induction i as [|i IH]; intros dir d; cbn [findProjectRoot_from].
  - intros k Hk. lia.
  - destruct (existsSync (path_join [dir; lit "bridge"; lit "Dockerfile"]) d)
      eqn:Hex.
    + exists 0. repeat split; [lia|exact Hex|]. intros j Hj. lia.
    + specialize (IH (path_dirname dir) d).
      destruct (findProjectRoot_from i (path_dirname dir) d) as [root|e].
      * destruct IH as (k & Hk & Hroot & Hhas & Hnot).
        exists (S k). rewrite Nat.iter_succ_r.
        repeat split; [lia|exact Hroot|exact Hhas|].
        intros [|j] Hj; [exact Hex|]. rewrite Nat.iter_succ_r. apply Hnot. lia.
      * intros [|k] Hk; [exact Hex|]. rewrite Nat.iter_succ_r. apply IH. lia.
Qed.

(** X17. [findProjectRoot()] returns the nearest of the directory of the
    module and its first nine ancestors that holds [bridge/Dockerfile]:
    the directory it returns holds the file and is reached by fewer than
    ten steps to the parent, and no directory nearer does; it throws
    exactly when none of the ten holds the file. *)
Theorem findProjectRoot_nearest env (s : system) :
  let holds dir :=
    existsSync (path_join [dir; lit "bridge"; lit "Dockerfile"]) (disk (outside s)) in
  let up k := Nat.iter k path_dirname (__dirname env) in
  match findProjectRoot env s with
  | Normal root =>
      exists k, k < 10 /\ root = up k /\ holds root = true /\
                forall j, j < k -> holds (up j) = false
  | Throw _ => forall k, k < 10 -> holds (up k) = false
  end.
Proof.
  exact (findProjectRoot_from_nearest 10 (__dirname env) (disk (outside s))).
Qed.

Lemma truthy_nonempty candidates c : In c (truthy candidates) -> c <> [].
Proof.
  unfold truthy. rewrite in_flat_map. intros (x & _ & Hin).
  destruct x as [[|c0 p]|]; try contradiction.
  destruct Hin as [<-|[]]. discriminate.
Qed.

Lemma find_truthy_cons (d : FS) x l :
  find (fun c => existsSync c d) (truthy (x :: l))
  = if usable d x then x else find (fun c => existsSync c d) (truthy l).
Proof.
  destruct x as [[|c p]|]; reflexivity.
Qed.

(** X18. [findBridgePath()] returns a path that is not empty and exists,
    and prefers the configured path to the environment variable and both
    to the build and resource directories: a configured path that is not
    empty and exists is returned; failing that, the path in
    FOCUS_BRIDGE_PATH when it is not empty and exists. When it throws,
    neither of the two is usable. *)
Theorem findBridgePath_priority env (s : system) :
  let d := disk (outside s) in
  let configured := Options.bridgePath (options (this s)) in
  (forall p, findBridgePath env s = Normal p -> p <> [] /\ existsSync p d = true) /\
  (forall p, configured = Some p -> usable d configured = true ->
             findBridgePath env s = Normal p) /\
  (forall p, usable d configured = false ->
             FOCUS_BRIDGE_PATH env = Some p ->
             usable d (FOCUS_BRIDGE_PATH env) = true ->
             findBridgePath env s = Normal p) /\
  (forall e, findBridgePath env s = Throw e ->
             usable d configured = false /\
             usable d (FOCUS_BRIDGE_PATH env) = false).
Proof.
  intros d configured. unfold findBridgePath. fold d. fold configured.
  split; [|split; [|split]].
  - intros p Hp.
    destruct (find _ _) as [candidate|] eqn:Hfind; [|discriminate].
    injection Hp as ->. apply find_some in Hfind as [Hin Hex].
    split; [now apply truthy_nonempty in Hin|exact Hex].
  - intros p Hc Hu. rewrite find_truthy_cons, Hu, Hc. reflexivity.
  - intros p Hu HF Hu'.
    rewrite find_truthy_cons, Hu, find_truthy_cons, Hu', HF. reflexivity.
  - intros e. rewrite !find_truthy_cons.
    destruct (usable d configured) eqn:Hu.
    { destruct configured as [[|c q]|]; try discriminate Hu. discriminate. }
    destruct (usable d (FOCUS_BRIDGE_PATH env)) eqn:Hu'.
    { destruct (FOCUS_BRIDGE_PATH env) as [[|c q]|]; try discriminate Hu'.
      discriminate. }
    now split.
Qed.

(** X19. [buildImage()] succeeds exactly when the image is there
    already, or the project root is found and the build exits with code
    0; what the build prints has no part in it, and an exit without a
    code is a failure. When the image is there, nothing is spawned: the
    image is inspected and one status notification is emitted. *)
Theorem buildImage_outcome env (s : system) :
  (fst (buildImage env s) = Normal tt <->
   docker_image_inspect env = true \/
   (exists root, findProjectRoot env s = Normal root) /\
   build_result env = build_close (Some 0%Z)) /\
  (docker_image_inspect env = true ->
   snd (buildImage env s)
   = emit (status (lit "Docker image already built"))
       (execSync (lit "docker image inspect " ++ dockerImage (this s)) s)).
Proof.
  unfold buildImage, isImageBuilt, findProjectRoot.
  cbn [execSync on_outside outside perform disk].
  destruct (docker_image_inspect env).
  - split; [|reflexivity]. split; [now left|reflexivity].
  - split; [|discriminate].
    destruct (findProjectRoot_from 10 (__dirname env) (disk (outside s)))
      as [root|e].
    + destruct (build_result env) as [[[|p|p]|]|m]; cbn [fst]; split;
        try discriminate;
        try (intros [Hd|[_ Hb]]; discriminate);
        try reflexivity.
      intros _. right. split; [now exists root|reflexivity].
    + cbn [fst]. split; [discriminate|].
      intros [Hd|[[root Hr] _]]; discriminate.
Qed.

End Helpers.

(** ** The text between the buffer and the lines *)

Section Conservation.

Context {number : Type} {FS : Type}.
Variable JSON_parse : jsstring -> option json.

Import BridgeManager.

Local Abbreviation system := (@BridgeManager.system number FS).
Local Abbreviation processLine := (@BridgeManager.processLine number FS JSON_parse).
Local Abbreviation on_text := (@BridgeManager.on_text number FS JSON_parse).
Local Abbreviation on_stdout_data := (@BridgeManager.on_stdout_data number FS JSON_parse).
Local Abbreviation drive := (@BridgeManager.drive number FS JSON_parse).

Lemma join_cons sep x a :
  a <> [] -> join sep (x :: a) = x ++ sep ++ join sep a.
Proof. destruct a; [contradiction|reflexivity]. Qed.

Lemma join_split sep s : join [sep] (split sep s) = s.
Proof.
  induction s as [|c s IH]; [reflexivity|]. cbn [split].
  destruct (N.eqb_spec c sep) as [->|Hne].
  - rewrite join_cons by apply split_nonempty. now rewrite IH.
  - pose proof (split_nonempty sep s) as Hs.
    destruct (split sep s) as [|seg segs]; [contradiction|].
    destruct segs as [|seg' segs]; rewrite <- IH; reflexivity.
Qed.

Lemma pop_snoc {A} (a : list A) :
  a <> [] -> exists x, pop a = (Some x, snd (pop a)) /\ a = snd (pop a) ++ [x].
Proof.
  induction a as [|y a IH]; intros Ha; [contradiction|].
  destruct a as [|z a]; [now exists y|].
  destruct IH as (x & Hp & Hx); [discriminate|].
  exists x. rewrite pop_cons by discriminate. rewrite Hp. cbn [fst snd app].
  split; [reflexivity|]. now rewrite <- Hx.
Qed.

Lemma split_cut sep s : split sep s = fst (cut sep s) ++ [snd (cut sep s)].
Proof.
  destruct (pop_snoc (split sep s) (split_nonempty sep s)) as (x & Hp & Hx).
  unfold cut. rewrite Hp. cbn [fst snd]. rewrite or_default_some. exact Hx.
Qed.

Lemma cut_lines_no_sep sep s :
  Forall (fun line => ~ In sep line) (fst (cut sep s)).
Proof.
  pose proof (split_segments sep s) as Hall. rewrite split_cut in Hall.
  now apply Forall_app in Hall as [Hl _].
Qed.

(** X20. No text is lost between the chunks and the lines. After a chunk
    the manager has handled a list of lines and kept a rest in its
    buffer so that the lines and the rest, put together with a line
    terminator between one and the next, are the text that was in the
    buffer followed by the text of the chunk; and neither a line nor the
    rest holds a line terminator. *)
Theorem no_text_is_lost chunk (s : system) :
  let whole := lineBuffer (this s) ++ Buffer_toString chunk in
  let rest := lineBuffer (this (on_stdout_data chunk s)) in
  exists lines,
    on_stdout_data chunk s = drive lines rest s /\
    join [newline] (lines ++ [rest]) = whole /\
    Forall (fun line => ~ In newline line) lines /\
    ~ In newline rest.
Proof.
  intros whole rest. subst rest.
  change (on_stdout_data chunk s) with (on_text (Buffer_toString chunk) s).
  rewrite on_text_lineBuffer. fold whole.
  exists (fst (cut newline whole)).
  split; [apply on_text_drive|]. split; [|split].
  - rewrite <- split_cut. apply join_split.
  - apply cut_lines_no_sep.
  - apply cut_rest_no_sep.
Qed.

Lemma trimStart_blank s : forallb is_whitespace s = true -> trimStart s = [].
Proof.
  induction s as [|c s IH]; simpl; [reflexivity|].
  intros Hs. apply andb_prop in Hs as [-> Hs]. auto.
Qed.

Lemma trim_blank s : forallb is_whitespace s = true -> trim s = [].
Proof.
  intros Hs. unfold trim, trimEnd. now rewrite (trimStart_blank s Hs).
Qed.

Lemma in_join sep seg segs c :
  In seg segs -> In c seg -> In c (join sep segs).
Proof.
  induction segs as [|x segs IH]; intros Hin Hc; [contradiction|].
  destruct segs as [|y segs].
  - destruct Hin as [->|[]]. exact Hc.
  - rewrite join_cons by discriminate. apply in_or_app.
    destruct Hin as [->|Hin]; [now left|].
    right. apply in_or_app. right. now apply IH.
Qed.

Lemma blank_lines sep s :
  forallb is_whitespace s = true ->
  Forall (fun line => forallb is_whitespace line = true) (fst (cut sep s)).
Proof.
  intros Hs. rewrite List.Forall_forall. intros line Hin.
  rewrite forallb_forall in *. intros c Hc. apply Hs.
  rewrite <- (join_split sep s), split_cut.
  apply (in_join [sep] line); [|exact Hc].
  apply in_or_app. now left.
Qed.

Lemma fold_processLine_blank lines : forall (s : system),
  Forall (fun line => forallb is_whitespace line = true) lines ->
  fold_left (fun s line => processLine line s) lines s = s.
Proof.
  induction lines as [|l lines IH]; intros s Hl; [reflexivity|].
  inversion Hl as [|? ? Hb Hrest]; subst. cbn [fold_left].
  unfold BridgeManager.processLine at 2. rewrite (trim_blank l Hb).
  now apply IH.
Qed.

(** X21. Blank lines are passed over in silence: when the buffer and the
    text of a chunk hold nothing but white space and line terminators,
    the chunk changes nothing but the buffer. Nothing is emitted,
    nothing is logged. *)
Theorem blank_chunk_is_silent chunk (s : system) :
  forallb is_whitespace (lineBuffer (this s) ++ Buffer_toString chunk) = true ->
  on_stdout_data chunk s
  = on_this (set_lineBuffer (lineBuffer (this (on_stdout_data chunk s)))) s.
Proof.
  intros Hb.
  change (on_stdout_data chunk s) with (on_text (Buffer_toString chunk) s).
  rewrite on_text_lineBuffer, on_text_drive. unfold BridgeManager.drive.
  apply fold_processLine_blank. now apply blank_lines.
Qed.

End Conservation.

(** ** From the clock of the renderer to the name of the file *)

Section Capture.

Local Open Scope Z_scope.

Lemma fixed_times_ten w n : fixed (S w) (n * 10) = fixed w n ++ [48%N].
Proof.
  cbn [fixed]. rewrite Z.div_mul, Z.mod_mul by lia. reflexivity.
Qed.

(** X22. A frame captured when the clock of the renderer reads [now]
    milliseconds is written to "frame", the thirteen digits of [now],
    "000.jpg": the timestamps of [captureFrame] fit the field of sixteen
    digits for every reading of the clock up to 9007199254740, the last
    whose product with 1000 is an integer that a number holds exactly,
    and the last three digits of the field are always zero. *)
Theorem captured_frame_filename now :
  0 <= now <= 9007199254740 ->
  FrameWriter.frameFilename (UseWebcam.timestampUs now)
  = lit "frame" ++ fixed 13 now ++ lit "000.jpg".
Proof.
  intros Hnow. unfold UseWebcam.timestampUs.
  rewrite frame_filename_fixed by lia.
  replace (now * 1000) with (now * 10 * 10 * 10) by lia.
  rewrite !fixed_times_ten, <- !app_assoc. reflexivity.
Qed.

End Capture.

(** ** The numbers of the hop *)

Section Hop.

Local Open Scope Q_scope.

Lemma clamp_between n min max :
  min <= max -> min <= Main.clamp n min max /\ Main.clamp n min max <= max.
Proof.
  intros Hm. unfold Main.clamp. split.
  - apply Q.min_glb; [exact Hm|apply Q.le_max_l].
  - apply Q.le_min_l.
Qed.

(** X23. On finite numbers [clamp] brings a number into the interval:
    when [min <= max] the result lies between them, and it is the number
    itself when that lies between them already. When [min > max] the
    result is [max], whatever the number. *)
Theorem clamp_into_interval n min max :
  (min <= max -> min <= Main.clamp n min max <= max) /\
  (min <= n <= max -> Main.clamp n min max == n) /\
  (max < min -> Main.clamp n min max == max).
Proof.
  split; [|split].
  - intros Hm. now apply clamp_between.
  - intros [Hl Hu]. unfold Main.clamp.
    rewrite (Q.max_r min n Hl). now apply Q.min_r.
  - intros Hm. unfold Main.clamp. apply Q.min_l.
    apply Qle_trans with min; [now apply Qlt_le_weak|apply Q.le_max_l].
Qed.

(** X24. On finite numbers, whatever the distance of a hop and however
    the arithmetic of doubles rounds, a hop lasts between 520 and 980
    milliseconds and rises between 55 and 160 pixels; so the duration
    by which the animation divides is never zero. *)
Theorem hop_params_within_bounds (add sub mul : Q -> Q -> Q) fromX toX :
  let params := Main.computeHopParams add sub mul fromX toX in
  520 <= Main.durationMs params <= 980 /\
  55 <= Main.heightPx params <= 160 /\
  0 < Main.durationMs params.
Proof.
  intros params. subst params. cbn [Main.computeHopParams Main.durationMs Main.heightPx].
  assert (H1 : 520 <= 980) by (unfold Qle; simpl; lia).
  assert (H2 : 55 <= 160) by (unfold Qle; simpl; lia).
  split; [now apply clamp_between|]. split; [now apply clamp_between|].
  apply Qlt_le_trans with 520; [reflexivity|now apply clamp_between].
Qed.

End Hop.

(** ** The further properties on the sample data *)

Lemma writeFrames_accounts_witness :
  let w0 : world MemFs.t := {| disk := Sample.disk0; trace := [] |} in
  let fw1 := fst (snd (FrameWriter.init (FrameWriter.new None) w0)) in
  let w1 := snd (snd (FrameWriter.init (FrameWriter.new None) w0)) in
  let gone := with_disk (snd (rmSync (FrameWriter.directory fw1) (disk w1))) w1 in
  let frames := [(inject_Z 1000, Scenario.jpeg); (inject_Z 2000, Scenario.jpeg)] in
  FrameWriter.active fw1 = true /\
  FrameWriter.count (fst (writeFrames frames fw1 w1)) = 2%Z /\
  FrameWriter.count (fst (writeFrames frames fw1 gone)) = 0%Z /\
  (FrameWriter.frameCount (fst (writeFrames frames fw1 gone))
   - FrameWriter.frameCount fw1
   + Z.of_nat (write_failures (trace (snd (writeFrames frames fw1 gone))))
   = Z.of_nat (write_failures (trace gone)) + 2)%Z.
Proof.
  intros w0 fw1 w1 gone frames.
  assert (Ha : FrameWriter.active fw1 = true) by (vm_compute; reflexivity).
  split; [exact Ha|]. split; [vm_compute; reflexivity|].
  split; [vm_compute; reflexivity|].
  pose proof (writeFrames_accounts frames fw1 gone) as Hw.
  destruct (writeFrames frames fw1 gone) as [fw' w'].
  destruct Hw as (_ & _ & _ & Hc). exact (Hc Ha).
Defined.

Lemma only_records_are_dispatched_witness :
  exists members tag,
    JObject [(lit "type", JString (lit "focus"))] = JObject members /\
    member (lit "type") members = Some (JString tag) /\
    existsb (js_eqb tag) protocol_tags = true.
Proof.
  apply (only_records_are_dispatched
           (JObject [(lit "type", JString (lit "focus"))])
           Sample.started (ev_focus None)).
  vm_compute. reflexivity.
Defined.


Lemma native_mode_leaves_files_alone_witness :
  let inputs := [ BridgeManager.call_start Sample.env;
                  BridgeManager.call_writeFrame (inject_Z 1707312345678000)
                    Scenario.jpeg;
                  BridgeManager.call_stop ] in
  let s' := Sample.step BridgeManager.call_stop
              (Sample.step (BridgeManager.call_writeFrame
                              (inject_Z 1707312345678000) Scenario.jpeg)
                 Sample.started) in
  Sample.run inputs (Sample.fresh Options.local) = Some s' /\
  BridgeManager.frameWriter (BridgeManager.this s') = None /\
  disk (BridgeManager.outside s') = Sample.disk0.
Proof.
  intros inputs s'.
  assert (Hrun : Sample.run inputs (Sample.fresh Options.local) = Some s')
    by (vm_compute; reflexivity).
  split; [exact Hrun|].
  destruct (native_mode_leaves_files_alone Number_toString JsonReader.JSON_parse
              (Sample.options Options.local) Sample.disk0 inputs s'
              eq_refl Hrun) as (Hf & Hd & _).
  split; [exact Hf|exact Hd].
Defined.

Lemma containerized_mode_never_signals_witness :
  let inputs := [ BridgeManager.call_start Sample.env;
                  BridgeManager.call_stop;
                  BridgeManager.process_close (Some 0%Z) ] in
  let s' := Sample.step (BridgeManager.process_close (Some 0%Z))
              (Sample.step BridgeManager.call_stop Scenario.container) in
  Sample.run inputs (Sample.fresh Options.docker) = Some s' /\
  signals (trace (BridgeManager.outside s')) = [] /\
  timeouts (trace (BridgeManager.outside s')) = 0 /\
  BridgeManager.timers s' = 0.
Proof.
  intros inputs s'.
  assert (Hrun : Sample.run inputs (Sample.fresh Options.docker) = Some s')
    by (vm_compute; reflexivity).
  split; [exact Hrun|].
  apply (containerized_mode_never_signals Number_toString JsonReader.JSON_parse
           (Sample.options Options.docker) Sample.disk0 inputs s');
    [discriminate|exact Hrun].
Defined.

Lemma force_kill_accounting_witness :
  let inputs := [ BridgeManager.call_start Sample.env;
                  BridgeManager.call_stop;
                  BridgeManager.timer_fires ] in
  let s' := Sample.step BridgeManager.timer_fires
              (Sample.step BridgeManager.call_stop Sample.started) in
  Sample.run inputs (Sample.fresh Options.local) = Some s' /\
  sigkills (trace (BridgeManager.outside s')) + BridgeManager.timers s'
  <= timeouts (trace (BridgeManager.outside s')) /\
  length (signals (trace (BridgeManager.outside s')))
  = timeouts (trace (BridgeManager.outside s'))
    + sigkills (trace (BridgeManager.outside s')).
Proof.
  intros inputs s'.
  assert (Hrun : Sample.run inputs (Sample.fresh Options.local) = Some s')
    by (vm_compute; reflexivity).
  split; [exact Hrun|].
  apply (force_kill_accounting Number_toString JsonReader.JSON_parse
           (Sample.options Options.local) Sample.disk0 inputs s' Hrun).
Defined.

Lemma stale_timer_kills_next_session_witness :
  let closed := BridgeManager.on_close (Some 0%Z)
                  (snd (BridgeManager.stop Sample.ready)) in
  let s3 := snd (BridgeManager.start Number_toString Scenario.second_env closed) in
  BridgeManager.start Number_toString Scenario.second_env closed = (Normal tt, s3) /\
  BridgeManager.enabled BridgeManager.timer_fires s3 = true /\
  trace (BridgeManager.outside (Sample.step BridgeManager.timer_fires s3))
  = trace (BridgeManager.outside s3)
    ++ [Console log_force_killing; Kill 3 (lit "SIGKILL")].
Proof.
  intros closed s3.
  assert (Hstart : BridgeManager.start Number_toString Scenario.second_env closed
                   = (Normal tt, s3)) by (vm_compute; reflexivity).
  split; [exact Hstart|].
  apply (stale_timer_kills_next_session Number_toString JsonReader.JSON_parse
           Scenario.second_env Sample.ready 2 (Some 0%Z) s3);
    [reflexivity|vm_compute; reflexivity|exact Hstart].
Defined.

Lemma buffer_survives_sessions_witness :
  let s := Sample.receive [Sample.accent_head] Sample.started in
  let inputs := [ BridgeManager.process_close (Some 1%Z);
                  BridgeManager.call_start Scenario.second_env ] in
  let s' := Sample.step (BridgeManager.call_start Scenario.second_env)
              (Sample.step (BridgeManager.process_close (Some 1%Z)) s) in
  Sample.run inputs s = Some s' /\
  BridgeManager.lineBuffer (BridgeManager.this s) <> [] /\
  BridgeManager.lineBuffer (BridgeManager.this s')
  = BridgeManager.lineBuffer (BridgeManager.this s).
Proof.
  intros s inputs s'.
  assert (Hrun : Sample.run inputs s = Some s') by (vm_compute; reflexivity).
  split; [exact Hrun|]. split; [vm_compute; discriminate|].
  apply (buffer_survives_sessions Number_toString JsonReader.JSON_parse
           inputs s s'); [reflexivity|exact Hrun].
Defined.

Lemma blank_chunk_is_silent_witness :
  let chunk := [Byte.x0a; Byte.x20; Byte.x0d; Byte.x0a; Byte.x09] in
  BridgeManager.on_stdout_data JsonReader.JSON_parse chunk Sample.started
  = BridgeManager.on_this
      (BridgeManager.set_lineBuffer
         (BridgeManager.lineBuffer
            (BridgeManager.this
               (BridgeManager.on_stdout_data JsonReader.JSON_parse chunk
                  Sample.started))))
      Sample.started.
Proof.
  intros chunk.
  apply (blank_chunk_is_silent JsonReader.JSON_parse chunk Sample.started).
  vm_compute. reflexivity.
Defined.

Lemma captured_frame_filename_witness :
  (0 <= 1707312345678 <= 9007199254740)%Z /\
  FrameWriter.frameFilename (UseWebcam.timestampUs 1707312345678)
  = lit "frame1707312345678000.jpg".
Proof.
  split; [lia|].
  rewrite (captured_frame_filename 1707312345678) by lia.
  vm_compute. reflexivity.
Defined.

(** ** [start()] in two halves *)

Section Halves.

Context {number : Type} (number_toString : number -> jsstring).
Context {FS : Type} `{Fs FS}.
Variable JSON_parse : jsstring -> option json.

Import BridgeManager Interleaved.

Local Abbreviation system := (@BridgeManager.system number FS).
Local Abbreviation state := (@Interleaved.state number FS).
Local Abbreviation start := (@BridgeManager.start number number_toString FS _).
Local Abbreviation startDocker := (@BridgeManager.startDocker number number_toString FS _).
Local Abbreviation startDocker_resume :=
  (@Interleaved.startDocker_resume number number_toString FS _).
Local Abbreviation stop := (@BridgeManager.stop number FS _).
Local Abbreviation step := (@BridgeManager.step number number_toString FS _ JSON_parse).
Local Abbreviation possible := (@Interleaved.possible number FS).
Local Abbreviation after := (@Interleaved.after number number_toString FS _ JSON_parse).
Local Abbreviation course := (@Interleaved.course number number_toString FS _ JSON_parse).
Local Abbreviation one_at_a_time :=
  (@Interleaved.one_at_a_time number number_toString FS _ JSON_parse).
Local Abbreviation resume := (@Interleaved.resume number number_toString FS _).

(** The two halves make the whole: with the output of the build process
    and its end between them, they are [startDocker()] run to the point
    where its promise settles. *)
Lemma startDocker_halves env (s : system) :
  startDocker env s =
  match startDocker_begin env s with
  | (Throw e, s1) => (Throw e, s1)
  | (Normal false, s1) => startDocker_resume env s1
  | (Normal true, s1) =>
      match on_build_end (build_result env)
              (fold_left (fun s e => on_build_event e s) (build_events env) s1) with
      | (Throw e, s2) => (Throw e, s2)
      | (Normal _, s2) => startDocker_resume env s2
      end
  end.
Proof.
  unfold BridgeManager.startDocker, startDocker_begin, buildImage,
    isDockerAvailable, isImageBuilt.
  destruct (negb (docker_info env)); [reflexivity|].
  destruct (docker_image_inspect env); [reflexivity|].
  destruct (findProjectRoot _ _) as [root|e]; [|reflexivity].
  unfold on_build_end.
  destruct (build_result env) as [[[|p|p]|]|m]; reflexivity.
Qed.

(** *** What each half adds *)

Ltac evolve :=
  repeat first
    [ assumption
    | apply evolves_refl
    | apply evolves_snoc; [|reflexivity]
    | apply evolves_this; [|intros ?; split; reflexivity]
    | apply evolves_timers
    | apply evolves_outside; [|first [reflexivity | assumption]] ].

Lemma startDocker_begin_evolves env (s : system) :
  evolves not_ready s (snd (startDocker_begin env s)) /\
  this (snd (startDocker_begin env s)) = this s.
Proof.
  unfold startDocker_begin, isDockerAvailable, isImageBuilt.
  destruct (negb (docker_info env)); [cbn [snd]; split; [evolve|reflexivity]|].
  destruct (docker_image_inspect env); [cbn [snd]; split; [evolve|reflexivity]|].
  destruct (findProjectRoot _ _) as [root|e]; cbn [snd];
    (split; [evolve|reflexivity]).
Qed.

Lemma on_build_end_evolves r (s : system) :
  evolves quiet s (snd (on_build_end r s)) /\
  this (snd (on_build_end r s)) = this s.
Proof.
  destruct r as [[[|p|p]|]|m]; cbn [on_build_end snd];
    (split; [evolve|reflexivity]).
Qed.

Lemma on_build_event_quiet e (s : system) :
  evolves quiet s (on_build_event e s) /\ this (on_build_event e s) = this s.
Proof.
  split.
  - apply on_build_event_evolves; [auto|apply evolves_refl].
  - destruct e as [chunk|chunk]; simpl; now destruct (trim _).
Qed.

Lemma startDocker_resume_evolves env (s : system) :
  evolves not_ready s (snd (startDocker_resume env s)).
Proof.
  unfold Interleaved.startDocker_resume.
  match goal with
  | |- context [FrameWriter.init ?fw ?w] =>
      pose proof (init_trace fw w) as Hi;
      destruct (FrameWriter.init fw w) as [[u'|e] [fw' w']]
  end; cbn [snd] in Hi; cbn [snd]; unfold spawn; evolve.
Qed.

(** What resuming does to the handle and to the trace: on a normal
    return the handle is the one of the process spawned, and the spawn is
    the last entry of the trace; otherwise the handle is as it was. *)
Lemma startDocker_resume_handle env (s : system) :
  match startDocker_resume env s with
  | (Normal _, s') =>
      process (this s') = Some (bridge_child env) /\
      (exists fw, _frameWriter (this s') = Some fw /\ FrameWriter.active fw = true) /\
      exists before args,
        trace (outside s') = before ++ [Spawn (lit "docker") args (bridge_child env)]
  | (Throw _, s') => process (this s') = process (this s)
  end.
Proof.
  unfold Interleaved.startDocker_resume.
  match goal with
  | |- context [FrameWriter.init ?fw ?w] =>
      destruct (FrameWriter.init fw w) as [[u'|e] [fw' w']] eqn:Hinit
  end; [|reflexivity].
  apply init_normal in Hinit as (Ha & _).
  split; [reflexivity|]. split; [exists fw'; now split|].
  eexists _, _. reflexivity.
Qed.

(** *** When the calls do not overlap *)

Lemma step_keeps_no_handle i (s : system) :
  not_start i = true -> process (this s) = None ->
  process (this (step i s)) = None.
Proof.
  intros Hi Hp.
  destruct i as [env| |ts data|chunk|chunk|code|err|]; cbn [BridgeManager.step];
    try discriminate.
  - now rewrite stop_process.
  - now rewrite main_writeFrame_process.
  - change (BridgeManager.on_stdout_data JSON_parse chunk s)
      with (BridgeManager.on_text JSON_parse (Buffer_toString chunk) s).
    now destruct (on_text_keeps JSON_parse (Buffer_toString chunk) s) as (-> & _).
  - now rewrite on_stderr_data_process.
  - reflexivity.
  - exact Hp.
  - now rewrite force_kill_process.
Qed.

Lemma coherent_not_ready (s s' : system) :
  coherent s -> isReady (this s) = false -> evolves not_ready s s' ->
  (process (this s') = None -> isReady (this s') = false) ->
  coherent s'.
Proof.
  intros (I1 & I2 & I3) Hr (Hb & Hr' & a & Ha & Pa) Hp.
  repeat split.
  - exact Hp.
  - rewrite Hr', Hr, Ha. symmetry.
    apply ready_in_session_not_ready; [now rewrite <- I2|exact Pa].
  - now rewrite Hb.
Qed.

Lemma resume_serial (st : state) p :
  coherent (manager st) -> process (this (manager st)) = None ->
  starting st = [p] ->
  serial (resume 0 st).
Proof.
  intros Hc Hp Hs. unfold Interleaved.resume. rewrite Hs. cbn [nth_error].
  split; [|left; reflexivity]. cbn [manager].
  pose proof (startDocker_resume_evolves (answers p) (manager st)) as He.
  assert (Hr : isReady (this (manager st)) = false) by (now apply Hc).
  apply (coherent_not_ready (manager st)); auto.
  intros _. destruct He as (_ & -> & _). exact Hr.
Qed.

Lemma after_serial o (st : state) :
  serial st -> possible o st = true ->
  one_at_a_time [o] st = true ->
  serial (after o st).
Proof.
  intros [Hc Hs] Hpos Hone. unfold serial.
  destruct o as [i|k e|k r|k].
  - destruct i as [env| |ts data|chunk|chunk|code|err|].
    + (* a call of start() *)
      cbn [Interleaved.after]. unfold Interleaved.start_begin.
      cbn [Interleaved.one_at_a_time] in Hone.
      destruct (starting st) as [|p0 rest] eqn:Hst; [|discriminate].
      destruct (process (this (manager st))) as [child|] eqn:Hp.
      * split; [exact Hc|left; exact Hst].
      * destruct (mode (this (manager st))) eqn:Hm.
        -- destruct (startDocker_begin_evolves env (manager st)) as [He Ht].
           assert (Hc' : coherent (snd (startDocker_begin env (manager st)))).
           { apply (coherent_not_ready (manager st)); auto.
             - now apply Hc.
             - intros _. destruct He as (_ & -> & _). now apply Hc. }
           destruct (startDocker_begin env (manager st)) as [[b|e] s'];
             cbn [snd] in *; cbn [manager starting].
           ++ split; [exact Hc'|]. right. rewrite Ht. split; [exact Hp|].
              eexists. reflexivity.
           ++ split; [exact Hc'|]. left. reflexivity.
        -- split; [|left; reflexivity]. cbn [manager].
           pose proof (coherent_step number_toString JSON_parse
                         (call_start env) (manager st) Hc eq_refl) as Hstep.
           cbn [BridgeManager.step] in Hstep.
           unfold BridgeManager.start in Hstep. now rewrite Hp, Hm in Hstep.
    + split.
      * apply (coherent_step number_toString JSON_parse call_stop); auto.
      * destruct Hs as [Hs|[Hp Hs]]; [now left|right]. split; [|exact Hs].
        now apply (step_keeps_no_handle call_stop).
    + split.
      * apply (coherent_step number_toString JSON_parse (call_writeFrame ts data));
          auto.
      * destruct Hs as [Hs|[Hp Hs]]; [now left|right]. split; [|exact Hs].
        now apply (step_keeps_no_handle (call_writeFrame ts data)).
    + split.
      * apply (coherent_step number_toString JSON_parse (stdout_data chunk)); auto.
      * destruct Hs as [Hs|[Hp Hs]]; [now left|right]. split; [|exact Hs].
        now apply (step_keeps_no_handle (stdout_data chunk)).
    + split.
      * apply (coherent_step number_toString JSON_parse (stderr_data chunk)); auto.
      * destruct Hs as [Hs|[Hp Hs]]; [now left|right]. split; [|exact Hs].
        now apply (step_keeps_no_handle (stderr_data chunk)).
    + split.
      * apply (coherent_step number_toString JSON_parse (process_close code)); auto.
      * destruct Hs as [Hs|[Hp Hs]]; [now left|right]. split; [|exact Hs].
        reflexivity.
    + split.
      * apply (coherent_step number_toString JSON_parse (process_error err)); auto.
      * destruct Hs as [Hs|[Hp Hs]]; [now left|right]. split; [|exact Hs].
        exact Hp.
    + split.
      * apply (coherent_step number_toString JSON_parse timer_fires); auto.
      * destruct Hs as [Hs|[Hp Hs]]; [now left|right]. split; [|exact Hs].
        now apply (step_keeps_no_handle timer_fires).
  - (* output of a build process *)
    cbn [Interleaved.after]. destruct (on_build_event_quiet e (manager st)) as [He Ht].
    split; cbn [manager starting].
    + apply (coherent_evolves_quiet (manager st)); auto. now rewrite Ht.
    + now rewrite Ht.
  - (* the end of a build process *)
    cbn [Interleaved.after Interleaved.possible] in *.
    destruct Hs as [Hs|[Hp [p Hs]]]; [rewrite Hs in Hpos; now destruct k|].
    rewrite Hs in Hpos. destruct k as [|k]; [|now destruct k].
    destruct (on_build_end_evolves r (manager st)) as [He Ht].
    assert (Hc' : coherent (snd (on_build_end r (manager st)))).
    { apply (coherent_evolves_quiet (manager st)); auto. now rewrite Ht. }
    destruct (on_build_end r (manager st)) as [[u|e] s']; cbn [snd] in *.
    + apply (resume_serial _ p); cbn [manager starting]; auto. now rewrite Ht.
    + split; [exact Hc'|]. left. cbn [starting]. now rewrite Hs.
  - (* a suspended call resumes *)
    cbn [Interleaved.after Interleaved.possible] in *.
    destruct Hs as [Hs|[Hp [p Hs]]]; [rewrite Hs in Hpos; now destruct k|].
    rewrite Hs in Hpos. destruct k as [|k]; [|now destruct k].
    now apply (resume_serial _ p).
Qed.

Lemma one_at_a_time_cons o os (st : state) :
  one_at_a_time (o :: os) st = true ->
  one_at_a_time [o] st = true /\ one_at_a_time os (after o st) = true.
Proof.
  cbn [Interleaved.one_at_a_time].
  destruct o as [[env| | | | | | |]| | |]; try (now split).
  destruct (starting st); [now split|discriminate].
Qed.

(** Over every course in which no call of [start()] is made while
    another is suspended, [running] is true exactly when the manager
    holds a process handle and a ready notification was emitted since
    that process was spawned. *)
Lemma running_iff_ready_one_at_a_time (opts : Options.t number) (d : FS) os :
  forall st,
  one_at_a_time os (beginning opts d) = true ->
  course os (beginning opts d) = Some st ->
  (running (this (manager st)) = true <->
   attached (manager st) = true /\
   ready_in_session (trace (outside (manager st))) = true).
Proof.
  intros st Hone Hcourse.
  assert (Hk : forall st0 : state,
             serial st0 -> one_at_a_time os st0 = true ->
             course os st0 = Some st -> serial st).
  { clear Hone Hcourse. induction os as [|o os IH]; intros st0 Hs Hone Hcourse.
    - simpl in Hcourse. now injection Hcourse as <-.
    - cbn [Interleaved.course] in Hcourse.
      destruct (possible o st0) eqn:Hpos; [|discriminate].
      apply one_at_a_time_cons in Hone as [H1 Hrest].
      apply (IH (after o st0)); auto. now apply after_serial. }
  destruct (Hk (beginning opts d)) as ((I1 & I2 & _) & _); auto.
  { split; [apply coherent_initial|now left]. }
  unfold running, attached. rewrite <- I2.
  destruct (process (this (manager st))); intuition congruence.
Qed.

(** C6. The code does not keep to it when calls of [start()] overlap.
    [start()] checks [this.process] before it awaits the image and sets
    it after, so a second call made meanwhile passes the check. On the
    sample data: two calls are made, the first image is built, the
    first process is spawned and reports ready; then the second image is
    built and the second call resumes. It spawns a second process and
    puts its handle in the place of the first; the ready flag is still
    up, so [running] is true, and no ready notification was emitted
    since the process whose handle is held was spawned. *)
Theorem running_after_overlapping_starts :
  match Overlap.course Overlap.two_starts
          (beginning (Sample.options Options.docker) Overlap.source_disk) with
  | Some st =>
      running (this (manager st)) = true /\
      process (this (manager st)) = Some 4 /\
      ready_in_session (trace (outside (manager st))) = false /\
      notifications (trace (outside (manager st)))
      = [ status (lit "Building Docker image (first run " ++ [8212%N]
                  ++ lit " may take a few minutes)...");
          status (lit "Building Docker image (first run " ++ [8212%N]
                  ++ lit " may take a few minutes)...");
          status (lit "Docker image built successfully");
          status (lit "Starting SmartSpectra container...");
          ev_ready;
          status (lit "Docker image built successfully");
          status (lit "Starting SmartSpectra container...") ]
  | None => False
  end.
Proof. vm_compute. repeat split; reflexivity. Qed.

(** *** [stop()] and a call of [start()] that is suspended *)

Lemma after_no_start o (st : state) :
  no_start o = true -> possible o st = true ->
  _frameWriter (this (manager st)) = None ->
  _frameWriter (this (manager (after o st))) = None /\
  disk (outside (manager (after o st))) = disk (outside (manager st)).
Proof.
  intros Ho Hpos Hf.
  destruct o as [i|k e|k r|k]; try discriminate.
  - assert (Hi : not_start i = true) by (now destruct i).
    destruct (no_writer_step number_toString JSON_parse i (manager st) Hf
                (or_introl Hi)) as (Hf' & Hd' & _).
    destruct i; try discriminate; now split.
  - cbn [Interleaved.after manager].
    destruct (on_build_event_only_traced e (manager st) (manager st)
                (only_traced_refl _)) as (Ht & Hd & _).
    now rewrite Ht, Hd.
Qed.

(** X10. [stop()] never throws and always leaves the manager without a
    frame writer, so a frame that arrives after it is dropped; and until
    [start()] is called again or a call of [start()] that was suspended
    goes on, whatever else happens (frames, output of the process or of
    a build, the exit of the process, the force-kill timer, further
    calls of [stop()]), the manager has no frame writer and the file
    system is not written to. *)
Theorem frames_after_stop_are_dropped (st : state) os : forall st',
  forallb no_start os = true ->
  course os (after (happens call_stop) st) = Some st' ->
  fst (stop (manager st)) = Normal tt /\
  frameWriter (this (manager st')) = None /\
  disk (outside (manager st'))
  = disk (outside (manager (after (happens call_stop) st))) /\
  forall timestampUs jpegData,
    main_writeFrame timestampUs jpegData (manager st') = manager st'.
Proof.
  destruct (stop_clears_writer (manager st)) as [Hn Hf]. intros st' Ho Hcourse.
  split; [exact Hn|]. clear Hn.
  change (_frameWriter (this (manager (after (happens call_stop) st))) = None)
    in Hf.
  revert Hf Hcourse. generalize (after (happens call_stop) st). clear st.
  intros st Hf Hcourse.
  assert (Hk : _frameWriter (this (manager st')) = None /\
               disk (outside (manager st')) = disk (outside (manager st))).
  { revert st Hf Ho Hcourse.
    induction os as [|o os IH]; intros st Hf Ho Hcourse; simpl in Hcourse.
    - injection Hcourse as <-. now split.
    - simpl in Ho. apply andb_prop in Ho as [Ho Hrest].
      destruct (possible o st) eqn:Hpos; [|discriminate].
      destruct (after_no_start o st Ho Hpos Hf) as (Hf' & Hd').
      destruct (IH _ Hf' Hrest Hcourse) as [Hf2 Hd2].
      split; [exact Hf2|congruence]. }
  destruct Hk as [Hf' Hd']. split; [exact Hf'|]. split; [exact Hd'|].
  intros ts data. unfold main_writeFrame, frameWriter. now rewrite Hf'.
Qed.

(** X25. [stop()] does not call off a call of [start()] that is
    suspended: the call stays suspended, and when it resumes and the
    frame directory can be set up, the manager holds the handle of a
    process and an active frame writer, although [stop()] was called
    after [start()] and left the manager with neither. *)
Theorem stop_does_not_cancel_start (st : state) k p :
  nth_error (starting st) k = Some p ->
  let stopped := after (happens call_stop) st in
  nth_error (starting stopped) k = Some p /\
  frameWriter (this (manager stopped)) = None /\
  process (this (manager stopped)) = process (this (manager st)) /\
  forall s',
    startDocker_resume (answers p) (manager stopped) = (Normal tt, s') ->
    manager (resume k stopped) = s' /\
    process (this s') = Some (bridge_child (answers p)) /\
    exists fw, frameWriter (this s') = Some fw /\ FrameWriter.isActive fw = true.
Proof.
  intros Hk stopped. subst stopped.
  cbn [Interleaved.after starting manager BridgeManager.step].
  destruct (stop_clears_writer (manager st)) as [_ Hf].
  split; [exact Hk|]. split; [exact Hf|]. split; [apply stop_process|].
  intros s' Hres.
  unfold Interleaved.resume. cbn [starting manager]. rewrite Hk. cbn [manager].
  pose proof (startDocker_resume_handle (answers p) (snd (stop (manager st))))
    as Hh.
  rewrite Hres in *. cbn [snd].
  destruct Hh as (Hp & Hw & _). auto.
Qed.

End Halves.

Lemma frames_after_stop_are_dropped_witness :
  let os := [ Interleaved.happens
                (BridgeManager.call_writeFrame (inject_Z 1707312345678000)
                   Scenario.jpeg);
              Interleaved.happens (BridgeManager.process_close (Some 0%Z)) ] in
  let started : Overlap.state :=
    {| Interleaved.manager := Scenario.container; Interleaved.starting := [] |} in
  let stopped := Overlap.after (Interleaved.happens BridgeManager.call_stop) started in
  let st' := Overlap.after (Interleaved.happens (BridgeManager.process_close (Some 0%Z)))
               (Overlap.after
                  (Interleaved.happens
                     (BridgeManager.call_writeFrame (inject_Z 1707312345678000)
                        Scenario.jpeg))
                  stopped) in
  forallb Interleaved.no_start os = true /\
  Overlap.course os stopped = Some st' /\
  BridgeManager.frameWriter (BridgeManager.this (Interleaved.manager st')) = None /\
  disk (BridgeManager.outside (Interleaved.manager st'))
  = disk (BridgeManager.outside (Interleaved.manager stopped)).
Proof.
  intros os started stopped st'.
  assert (Ho : forallb Interleaved.no_start os = true) by reflexivity.
  assert (Hc : Overlap.course os stopped = Some st') by (vm_compute; reflexivity).
  split; [exact Ho|]. split; [exact Hc|].
  destruct (frames_after_stop_are_dropped Number_toString JsonReader.JSON_parse
              started os st' Ho Hc) as (_ & Hf & Hd & _).
  split; [exact Hf|exact Hd].
Defined.

Lemma stop_does_not_cancel_start_witness :
  let p := {| Interleaved.answers := Sample.env; Interleaved.building := false |} in
  let stopped := Overlap.after (Interleaved.happens BridgeManager.call_stop)
                   Overlap.awaiting in
  nth_error (Interleaved.starting Overlap.awaiting) 0 = Some p /\
  nth_error (Interleaved.starting stopped) 0 = Some p /\
  BridgeManager.frameWriter (BridgeManager.this (Interleaved.manager stopped)) = None /\
  BridgeManager.process
    (BridgeManager.this
       (Interleaved.manager (Interleaved.resume Number_toString 0 stopped)))
  = Some 2.
Proof.
  intros p stopped.
  assert (Hk : nth_error (Interleaved.starting Overlap.awaiting) 0 = Some p)
    by (vm_compute; reflexivity).
  split; [exact Hk|].
  destruct (stop_does_not_cancel_start Number_toString JsonReader.JSON_parse
              Overlap.awaiting 0 p Hk) as (Hs & Hf & _ & Hres).
  split; [exact Hs|]. split; [exact Hf|].
  destruct (Hres (snd (Interleaved.startDocker_resume Number_toString
                         (Interleaved.answers p)
                         (Interleaved.manager stopped))))
    as (Hm & Hp & _); [vm_compute; reflexivity|].
  unfold stopped, Overlap.after. rewrite Hm. exact Hp.
Defined.
